(** * FlaskMag: incremental extraction cache and two-stage keyword search

    A shallow embedding of the text-processing core of [flask_stream13.py]
    (the cache store, the extractor, the SQLite prefilter, the per-page
    search with context windows and the result aggregator), with the
    properties of the design document proved or refuted on it.

    Conventions of the model:
    - a Python [str] is a list of characters; characters are the code points
      0..255, with Python's [str.lower] and [str.isspace] on that range
      (both act character by character there, and a literal matched under
      [re.IGNORECASE] is compared after case folding).  Every statement
      of this file is about texts, keywords and file names of these
      characters.  Other characters are outside the model: [str.lower]
      can change the length of a text that holds U+0130, and
      [re.IGNORECASE] matches more than equal lower-case forms (U+017F
      for the letter s);
    - a Python [dict] is an association list in insertion order with
      pairwise distinct keys;
    - a Python exception that leaves a function is the result [None];
    - modification times are integers (ticks); only their order is used;
    - the file system, the PDF library, the clock, the Streamlit memo of
      [st.cache_data] and the SQLite file are explicit arguments;
    - SQLite's [LIKE] is the operator of the library: [%] and [_] are
      wild cards, the letters A..Z match without regard to case, both
      operands are read as C strings (up to their first U+0000), a pattern
      of more than 50000 bytes is refused, and a [SELECT] without
      [ORDER BY] returns the rows in insertion order;
    - the tasks of a batch complete in some order, which is an argument
      of [process_pdfs_batch]; the worker pools change nothing else. *)

From Stdlib Require Import Ascii String.
From Stdlib Require Import List ZArith NArith Lia Bool Arith.
From Stdlib Require Import Permutation Sorted.
Import ListNotations.

Set Implicit Arguments.

(* ================================================================== *)
(** ** Python strings *)

Module PyStr.

Definition str := list ascii.

Definition lit (s : string) : str := list_ascii_of_string s.

Definition str_eq_dec : forall a b : str, {a = b} + {a <> b} :=
  list_eq_dec ascii_dec.

Definition str_eqb (a b : str) : bool :=
  if str_eq_dec a b then true else false.

Definition in_range (lo hi n : N) : bool := (N.leb lo n && N.leb n hi)%bool.

(** [str.isspace] on one character. *)
Definition isspace (c : ascii) : bool :=
  let n := N_of_ascii c in
  in_range 9 13 n || in_range 28 32 n || N.eqb n 133 || N.eqb n 160.

(** [str.lower] on one character.  On the code points 0..255 the
    lower-case form of a text is taken character by character and has the
    length of the text. *)
Definition lower_char (c : ascii) : ascii :=
  let n := N_of_ascii c in
  if in_range 65 90 n || (in_range 192 222 n && negb (N.eqb n 215))
  then ascii_of_N (n + 32) else c.

Definition lower (s : str) : str := map lower_char s.

Fixpoint lstrip (s : str) : str :=
  match s with
  | [] => []
  | c :: t => if isspace c then lstrip t else s
  end.

Definition rstrip (s : str) : str := rev (lstrip (rev s)).

Definition strip (s : str) : str := rstrip (lstrip s).

(** [s.startswith(p)] *)
Fixpoint startswith (p s : str) : bool :=
  match p, s with
  | [], _ => true
  | _ :: _, [] => false
  | a :: p', b :: s' => if ascii_dec a b then startswith p' s' else false
  end.

Definition endswith (p s : str) : bool := startswith (rev p) (rev s).

(** [sub in s] *)
Fixpoint str_in (sub s : str) : bool :=
  startswith sub s ||
  match s with
  | [] => false
  | _ :: t => str_in sub t
  end.

(** [sep.join(xs)] *)
Fixpoint join (sep : str) (xs : list str) : str :=
  match xs with
  | [] => []
  | [x] => x
  | x :: rest => x ++ sep ++ join sep rest
  end.

(** [s[a:b]] for [0 <= a] and [0 <= b]. *)
Definition slice (s : str) (a b : nat) : str := firstn (b - a) (skipn a s).

(** [re.sub(r'\s+', ' ', s)]: every maximal run of white space becomes one
    space; [in_run] tells that the previous character was white space. *)
Fixpoint collapse_ws (in_run : bool) (s : str) : str :=
  match s with
  | [] => []
  | c :: t =>
      if isspace c
      then (if in_run then collapse_ws true t
            else " "%char :: collapse_ws true t)
      else c :: collapse_ws false t
  end.

(** [[m.start() for m in re.compile(re.escape(pat)).finditer(s)]]: the
    start offsets of the leftmost non-overlapping matches of the literal
    [pat], scanning left to right.  [pos] is the offset of [s] in the whole
    text and [skip] the number of characters still covered by the previous
    match.  The empty pattern matches at every offset, the end included. *)
Fixpoint finditer_from (pat s : str) (pos skip : nat) : list nat :=
  match skip with
  | S k =>
      match s with
      | [] => []
      | _ :: t => finditer_from pat t (S pos) k
      end
  | 0 =>
      if startswith pat s
      then pos :: match s with
                  | [] => []
                  | _ :: t => finditer_from pat t (S pos) (length pat - 1)
                  end
      else match s with
           | [] => []
           | _ :: t => finditer_from pat t (S pos) 0
           end
  end.

Definition finditer (pat s : str) : list nat := finditer_from pat s 0 0.

(** A literal occurrence of [pat] at offset [q] of [s]. *)
Definition match_at (pat s : str) (q : nat) : bool :=
  (q <=? length s) && startswith pat (skipn q s).

(** No proper non-empty prefix of [pat] is also a suffix of it: two
    occurrences of [pat] cannot overlap. *)
Definition unbordered (pat : str) : bool :=
  forallb (fun d => negb (startswith (skipn d pat) pat))
          (seq 1 (length pat - 1)).

End PyStr.
Export PyStr.

(* ================================================================== *)
(** ** Python dictionaries *)

Module PyDict.
Section Dict.
Variable V : Type.

Definition dict := list (str * V).

Fixpoint get (k : str) (d : dict) : option V :=
  match d with
  | [] => None
  | (k', v) :: t => if str_eq_dec k k' then Some v else get k t
  end.

(** [d[k] = v]: an existing key keeps its place. *)
Fixpoint set (k : str) (v : V) (d : dict) : dict :=
  match d with
  | [] => [(k, v)]
  | (k', v') :: t =>
      if str_eq_dec k k' then (k', v) :: t else (k', v') :: set k v t
  end.

Definition keys (d : dict) : list str := map fst d.

(** [k in d] *)
Definition contains (k : str) (d : dict) : bool :=
  match get k d with Some _ => true | None => false end.

(** The invariant of a dictionary: no key twice. *)
Definition wf (d : dict) : Prop := NoDup (keys d).

End Dict.
End PyDict.

Arguments PyDict.get {V} k d.
Arguments PyDict.set {V} k v d.
Arguments PyDict.keys {V} d.
Arguments PyDict.contains {V} k d.
Arguments PyDict.wf {V} d.


(* ================================================================== *)
(** ** Configuration and data model *)

Definition CACHE_FILE : str := lit "pdf_cache.pkl".
Definition TEXT_INDEX_DB : str := lit "text_index.db".
Definition CONTEXT_CHARS : nat := 150.
Definition METADATA : str := lit "_metadata".

(** The value of [pdf_cache['_metadata'][file_name]]: a dictionary with the
    keys ['mtime'] and ['processed_at'], either of which may be missing. *)
Record meta_record : Type := {
  mtime : option Z;
  processed_at : option str
}.

(** The values of [pdf_cache]: the page texts of a document, or, under the
    key ['_metadata'], the dictionary of the records above. *)
Inductive cache_value : Type :=
| Pages (pages : list str)
| Metadata (md : PyDict.dict meta_record).

Definition pdf_cache_t : Type := PyDict.dict cache_value.

(** What iterating over a value yields: the pages of a list, the keys of a
    dictionary. *)
Definition as_pages (v : cache_value) : list str :=
  match v with
  | Pages pages => pages
  | Metadata md => PyDict.keys md
  end.

(** One search hit, the dictionary built in [search_single_page]. *)
Record match_record : Type := {
  file : str;
  page_number : nat;
  context : str;
  full_text : str;
  full_path : option str
}.

(* ================================================================== *)
(** ** The environment: directories, files, PDF library, clock *)

Inductive dir_state : Type :=
| DirMissing                      (* os.path.exists is false *)
| DirDenied                       (* os.listdir raises *)
| DirListing (names : list str).

(** What [page.extract_text()] does on one page. *)
Inductive page_outcome : Type :=
| ExtractRaises
| ExtractReturns (text : option str).

Record world : Type := {
  PDF_DIRECTORIES : list str;
  listdir : str -> dir_state;
  abspath : str -> str;
  getmtime : str -> option Z;                      (* None: OSError *)
  pdf_open : str -> option (list page_outcome);    (* None: the document
                                                      cannot be read *)
  now : nat -> str   (* datetime.now().isoformat() at the k-th completed
                        task of a batch *)
}.

Module OsPath.

Definition sep : ascii := "/"%char.

Fixpoint until_sep (s : str) : str :=
  match s with
  | [] => []
  | c :: t => if ascii_dec c sep then [] else c :: until_sep t
  end.

(** [os.path.basename]: what follows the last separator. *)
Definition basename (p : str) : str := rev (until_sep (rev p)).

(** [os.path.join] of two components. *)
Definition join (d f : str) : str :=
  if startswith [sep] f then f
  else if endswith [sep] d then d ++ f
  else match d with
       | [] => f
       | _ => d ++ [sep] ++ f
       end.

End OsPath.

Definition is_pdf (f : str) : bool := endswith (lit ".pdf") (lower f).

(* ================================================================== *)
(** ** File path cache *)

Definition add_listing (w : world) (pdf_dir : str) (names : list str)
    (cache : PyDict.dict str) : PyDict.dict str :=
  fold_left
    (fun c filename =>
       if is_pdf filename
       then PyDict.set filename (abspath w (OsPath.join pdf_dir filename)) c
       else c)
    names cache.

Definition build_file_path_cache (w : world) : PyDict.dict str :=
  fold_left
    (fun cache pdf_dir =>
       match listdir w pdf_dir with
       | DirListing names => add_listing w pdf_dir names cache
       | DirMissing => cache        (* continue *)
       | DirDenied => cache         (* warning *)
       end)
    (PDF_DIRECTORIES w) [].

(** [a or b] on paths: the empty string is false. *)
Definition truthy (p : option str) : bool :=
  match p with
  | Some (_ :: _) => true
  | _ => false
  end.

Definition get_pdf_path (file_path_cache : PyDict.dict str) (filename : str)
    : option str :=
  if truthy (PyDict.get filename file_path_cache)
  then PyDict.get filename file_path_cache
  else PyDict.get (OsPath.basename filename) file_path_cache.

Fixpoint get_all_pdf_files_in (w : world) (dirs : list str)
    : option (list str) :=
  match dirs with
  | [] => Some []
  | pdf_dir :: rest =>
      match listdir w pdf_dir with
      | DirMissing => get_all_pdf_files_in w rest
      | DirDenied => None
      | DirListing names =>
          match get_all_pdf_files_in w rest with
          | None => None
          | Some more =>
              Some (map (OsPath.join pdf_dir) (filter is_pdf names) ++ more)
          end
      end
  end.

Definition get_all_pdf_files (w : world) : option (list str) :=
  get_all_pdf_files_in w (PDF_DIRECTORIES w).

Definition get_file_modification_time (w : world) (file_path : str)
    : option Z := getmtime w file_path.

(* ================================================================== *)
(** ** Text extraction *)

(** [re.sub(r'\s+', ' ', text.strip())] *)
Definition normalize (text : str) : str := collapse_ws false (strip text).

(** The body of the per-page [try]. *)
Definition extract_page (o : page_outcome) : str :=
  match o with
  | ExtractReturns (Some (c :: t)) => normalize (c :: t)
  | ExtractReturns (Some []) => []
  | ExtractReturns None => []
  | ExtractRaises => []
  end.

Definition extract_pdf_text_pdfplumber (w : world) (pdf_path : str)
    : list str :=
  match pdf_open w pdf_path with
  | Some doc => map extract_page doc
  | None => []
  end.

(* ================================================================== *)
(** ** Staleness and batch processing *)

(** [pdf_cache.get('_metadata', {})]; [None] when the value stored there
    is not a dictionary, so that [.get] on it raises. *)
Definition cache_metadata_of (pdf_cache : pdf_cache_t)
    : option (PyDict.dict meta_record) :=
  match PyDict.get METADATA pdf_cache with
  | None => Some []
  | Some (Metadata md) => Some md
  | Some (Pages _) => None
  end.

(** [cache_metadata.get(file_name, {}).get('mtime', 0)] *)
Definition cached_mtime_of (cache_metadata : PyDict.dict meta_record)
    (file_name : str) : Z :=
  match PyDict.get file_name cache_metadata with
  | Some r => match mtime r with Some m => m | None => 0%Z end
  | None => 0%Z
  end.

Fixpoint check_for_updates_loop (w : world)
    (cache_metadata : option (PyDict.dict meta_record))
    (pdf_files : list str) : option (list str) :=
  match pdf_files with
  | [] => Some []
  | pdf_file_path :: rest =>
      let file_name := OsPath.basename pdf_file_path in
      match get_file_modification_time w pdf_file_path, cache_metadata with
      | Some current_mtime, Some md =>
          let cached_mtime := cached_mtime_of md file_name in
          match check_for_updates_loop w cache_metadata rest with
          | Some updated_files =>
              Some (if Z.ltb cached_mtime current_mtime
                    then pdf_file_path :: updated_files
                    else updated_files)
          | None => None
          end
      | _, _ => None
      end
  end.

Definition check_for_updates (w : world) (pdf_files : list str)
    (pdf_cache : pdf_cache_t) : option (list str) :=
  check_for_updates_loop w (cache_metadata_of pdf_cache) pdf_files.

(** [new_files] of [main]. *)
Definition new_files (pdf_files : list str) (pdf_cache : pdf_cache_t)
    : list str :=
  filter (fun f => negb (PyDict.contains (OsPath.basename f) pdf_cache))
         pdf_files.

(** The body of the loop over completed futures, for the [k]-th one. *)
Definition complete_task (w : world) (k : nat) (pdf_cache : pdf_cache_t)
    (pdf_file_path : str) : pdf_cache_t :=
  let file_name := OsPath.basename pdf_file_path in
  let text_pages := extract_pdf_text_pdfplumber w pdf_file_path in
  let cache1 := PyDict.set file_name (Pages text_pages) pdf_cache in
  match get_file_modification_time w pdf_file_path,
        PyDict.get METADATA cache1 with
  | Some m, Some (Metadata md) =>
      PyDict.set METADATA
        (Metadata (PyDict.set file_name
                     {| mtime := Some m; processed_at := Some (now w k) |}
                     md))
        cache1
  | _, _ => cache1               (* except Exception: st.error *)
  end.

Fixpoint complete_all (w : world) (k : nat) (completed : list str)
    (pdf_cache : pdf_cache_t) : pdf_cache_t :=
  match completed with
  | [] => pdf_cache
  | p :: rest => complete_all w (S k) rest (complete_task w k pdf_cache p)
  end.

(** [completed] is [pdf_files] in the order in which [as_completed] yields
    the futures: some permutation of the batch. *)
Definition process_pdfs_batch (w : world) (completed : list str)
    (pdf_cache : pdf_cache_t) : pdf_cache_t :=
  match completed with
  | [] => pdf_cache
  | _ :: _ =>
      let cache0 :=
        if PyDict.contains METADATA pdf_cache then pdf_cache
        else PyDict.set METADATA (Metadata []) pdf_cache in
      complete_all w 0 completed cache0
  end.

(* ================================================================== *)
(** ** SQLite text index *)

Record index_row : Type := {
  filename : str;
  row_full_text : str;
  page_count : nat
}.

(** The file [text_index.db]: absent, present but failing every statement
    with [sqlite3.Error], or holding the table [text_index]. *)
Inductive index_db : Type :=
| DbAbsent
| DbBroken
| DbTable (rows : list index_row).

(** [INSERT OR REPLACE] on the primary key [filename]. *)
Definition insert_or_replace (r : index_row) (rows : list index_row)
    : list index_row :=
  filter (fun r' => negb (str_eqb (filename r') (filename r))) rows ++ [r].

(** The row inserted for one item of the cache. *)
Definition row_of (pdf_file : str) (pages : cache_value) : index_row :=
  let full_text := lower (join (lit " ") (as_pages pages)) in
  {| filename := pdf_file;
     row_full_text := full_text;
     page_count := length (as_pages pages) |}.

Definition index_rows (pdf_cache : pdf_cache_t) : list index_row :=
  fold_left
    (fun rows (item : str * cache_value) =>
       let (pdf_file, pages) := item in
       if str_eqb pdf_file METADATA then rows
       else insert_or_replace (row_of pdf_file pages) rows)
    pdf_cache [].

(** The state of the index file after [create_text_index_db(pdf_cache)];
    [None] when SQLite raises. *)
Definition create_text_index_db (db : index_db) (pdf_cache : pdf_cache_t)
    : option index_db :=
  match db with
  | DbBroken => None
  | DbAbsent | DbTable _ => Some (DbTable (index_rows pdf_cache))
  end.

(** SQLite folds the case of the letters A..Z only. *)
Definition sql_fold (c : ascii) : ascii :=
  if in_range 65 90 (N_of_ascii c) then ascii_of_N (N_of_ascii c + 32) else c.

(** What SQLite's pattern comparison reads of an operand: a C string,
    which ends before the first U+0000. *)
Fixpoint c_string (s : str) : str :=
  match s with
  | [] => []
  | c :: t => if ascii_dec c zero then [] else c :: c_string t
  end.

(** The comparison of two C strings without [ESCAPE]: [%] is any run of
    characters, [_] is any one character. *)
Fixpoint like_match (pat text : str) : bool :=
  match pat with
  | [] => match text with [] => true | _ :: _ => false end
  | p :: pat' =>
      if ascii_dec p "%"%char then
        (fix any_suffix (t : str) : bool :=
           like_match pat' t ||
           match t with
           | [] => false
           | _ :: t' => any_suffix t'
           end) text
      else
        match text with
        | [] => false
        | c :: text' =>
            (if ascii_dec p "_"%char then true
             else if ascii_dec (sql_fold p) (sql_fold c) then true else false)
            && like_match pat' text'
        end
  end.

(** [text LIKE pat] *)
Definition sql_like (pat text : str) : bool :=
  like_match (c_string pat) (c_string text).

(** The number of bytes of the UTF-8 encoding that [sqlite3] binds. *)
Definition utf8_length (s : str) : N :=
  fold_right
    (fun c n => ((if N.ltb (N_of_ascii c) 128 then 1 else 2) + n)%N)
    0%N s.

Definition SQLITE_MAX_LIKE_PATTERN_LENGTH : N := 50000.

Definition keyword_pattern (keyword : str) : str :=
  lit "%" ++ lower keyword ++ lit "%".

(** [None] is the "unavailable" answer.  [LIKE] is evaluated row by row:
    on the first row a pattern that is too long raises
    [sqlite3.OperationalError] (a [sqlite3.Error]); on an empty table it
    is not evaluated at all. *)
Definition search_text_index (db : index_db) (keyword : str)
    : option (list str) :=
  match db with
  | DbAbsent => None
  | DbBroken => None
  | DbTable [] => Some []
  | DbTable rows =>
      if N.ltb SQLITE_MAX_LIKE_PATTERN_LENGTH
               (utf8_length (keyword_pattern keyword))
      then None
      else
        Some (map filename
                (filter (fun r => sql_like (keyword_pattern keyword)
                                           (row_full_text r))
                        rows))
  end.

(* ================================================================== *)
(** ** Search with context *)

Definition SPAN_OPEN : str :=
  lit "<span style='background-color: yellow; color: black; font-weight: bold; padding: 2px;'>".
Definition SPAN_CLOSE : str := lit "</span>".

(** [c in ' \n\t'] *)
Definition is_boundary (c : ascii) : bool :=
  let n := N_of_ascii c in
  N.eqb n 32 || N.eqb n 10 || N.eqb n 9.

(** The first [while] loop; [None] is the [IndexError] of
    [original_text[context_start]]. *)
Fixpoint snap_start (original_text : str) (context_start : nat)
    : option nat :=
  match context_start with
  | 0 => Some 0
  | S k =>
      match nth_error original_text context_start with
      | None => None
      | Some c =>
          if is_boundary c then Some context_start
          else snap_start original_text k
      end
  end.

Fixpoint scan_to_boundary (rest : str) (context_end : nat) : nat :=
  match rest with
  | [] => context_end
  | c :: t =>
      if is_boundary c then context_end
      else scan_to_boundary t (S context_end)
  end.

(** The second [while] loop. *)
Definition snap_end (original_text : str) (context_end : nat) : nat :=
  scan_to_boundary (skipn context_end original_text) context_end.

(** The matches that [re.sub] replaces in [context]: the pattern is the
    escaped keyword under [re.IGNORECASE], which on the code points
    0..255 matches a character exactly when the lower-case forms are
    equal. *)
Definition highlight_matches (keyword context : str) : list nat :=
  finditer (lower keyword) (lower context).

(** Replace the matches [ms] (start offsets, each [klen] long) of [s],
    which starts at offset [pos], by the span around the matched text. *)
Fixpoint wrap_matches (klen : nat) (ms : list nat) (pos : nat) (s : str)
    : str :=
  match ms with
  | [] => s
  | m :: ms' =>
      firstn (m - pos) s ++ SPAN_OPEN
        ++ firstn klen (skipn (m - pos) s) ++ SPAN_CLOSE
        ++ wrap_matches klen ms' (m + klen) (skipn (m - pos + klen) s)
  end.

Definition highlight (keyword context : str) : str :=
  wrap_matches (length keyword) (highlight_matches keyword context) 0 context.

(** The window of one match: the bounds after both loops. *)
Definition context_bounds (keyword text original_text : str) (pos : nat)
    : option (nat * nat) :=
  let context_start := Nat.max 0 (pos - CONTEXT_CHARS) in
  let context_end :=
    Nat.min (length text) (pos + length keyword + CONTEXT_CHARS) in
  match snap_start original_text context_start with
  | None => None
  | Some context_start =>
      Some (context_start, snap_end original_text context_end)
  end.

Definition context_of (keyword text original_text : str) (pos : nat)
    : option str :=
  match context_bounds keyword text original_text pos with
  | None => None
  | Some (context_start, context_end) =>
      Some (highlight keyword
              (strip (slice original_text context_start context_end)))
  end.

Fixpoint for_each (A B : Type) (f : A -> option B) (l : list A)
    : option (list B) :=
  match l with
  | [] => Some []
  | x :: t =>
      match f x, for_each f t with
      | Some y, Some ys => Some (y :: ys)
      | _, _ => None
      end
  end.

Definition search_with_context (keyword text original_text : str)
    : option (list str) :=
  let keyword_lower := lower keyword in
  let text_lower := lower text in
  let matches := finditer keyword_lower text_lower in
  for_each (context_of keyword text original_text) matches.

Definition enumerate (A : Type) (l : list A) : list (nat * A) :=
  combine (seq 0 (length l)) l.

Definition search_single_page (file_path_cache : PyDict.dict str)
    (pdf_file keyword : str) (page_data : nat * str)
    : option (list match_record) :=
  let (page_number, page_text) := page_data in
  if negb (str_in (lower keyword) (lower page_text)) then Some []
  else
    match search_with_context keyword page_text page_text with
    | None => None
    | Some contexts =>
        Some (map (fun context =>
                     {| file := pdf_file;
                        page_number := page_number + 1;
                        context := context;
                        full_text := page_text;
                        full_path := get_pdf_path file_path_cache pdf_file |})
                  contexts)
    end.

(** [page_results.extend(...)] over the pages, in page order. *)
Fixpoint extend_all (A B : Type) (f : A -> option (list B)) (l : list A)
    : option (list B) :=
  match l with
  | [] => Some []
  | x :: t =>
      match f x, extend_all f t with
      | Some ys, Some more => Some (ys ++ more)
      | _, _ => None
      end
  end.

(** [executor.map] hands the results back in the order of its input, so the
    two branches differ in scheduling only. *)
Definition search_pages_parallel (file_path_cache : PyDict.dict str)
    (pdf_file : str) (pages : list str) (keyword : str)
    : option (list match_record) :=
  if 20 <? length pages
  then extend_all (search_single_page file_path_cache pdf_file keyword)
                  (enumerate pages)
  else extend_all (search_single_page file_path_cache pdf_file keyword)
                  (enumerate pages).

(** What [smart_search] touches outside its arguments' values. *)
Inductive access : Type :=
| QueryIndex (keyword : str)        (* search_text_index *)
| ListCacheKeys                     (* pdf_cache.keys() *)
| TestCacheKey (pdf_file : str)     (* pdf_file not in pdf_cache *)
| ReadCacheEntry (pdf_file : str).  (* pdf_cache[pdf_file] *)

(** The loop over the candidate files, with the accesses it makes. *)
Fixpoint search_candidates (file_path_cache : PyDict.dict str)
    (keyword : str) (pdf_cache : pdf_cache_t) (candidate_files : list str)
    : list access * option (list match_record) :=
  match candidate_files with
  | [] => ([], Some [])
  | pdf_file :: rest =>
      match PyDict.get pdf_file pdf_cache with
      | None =>
          let (log, results) :=
            search_candidates file_path_cache keyword pdf_cache rest in
          (TestCacheKey pdf_file :: log, results)
      | Some v =>
          match search_pages_parallel file_path_cache pdf_file
                  (as_pages v) keyword with
          | None => ([TestCacheKey pdf_file; ReadCacheEntry pdf_file], None)
          | Some page_results =>
              let (log, results) :=
                search_candidates file_path_cache keyword pdf_cache rest in
              (TestCacheKey pdf_file :: ReadCacheEntry pdf_file :: log,
               match results with
               | Some more => Some (page_results ++ more)
               | None => None
               end)
          end
      end
  end.

Definition smart_search (db : index_db) (file_path_cache : PyDict.dict str)
    (keyword : str) (pdf_cache : pdf_cache_t)
    : list access * option (list match_record) :=
  match strip keyword with
  | [] => ([], Some [])
  | _ :: _ =>
      let keyword := strip keyword in
      let (log0, candidate_files) :=
        match search_text_index db keyword with
        | Some files => ([QueryIndex keyword], files)
        | None =>
            ([QueryIndex keyword; ListCacheKeys],
             filter (fun k => negb (str_eqb k METADATA))
                    (PyDict.keys pdf_cache))
        end in
      let (log, results) :=
        search_candidates file_path_cache keyword pdf_cache candidate_files in
      (log0 ++ log, results)
  end.

(* ================================================================== *)
(** ** Result aggregation *)

(** [file_groups[result['file']].append(result)] on a [defaultdict(list)]. *)
Definition append_result (groups : PyDict.dict (list match_record))
    (result : match_record) : PyDict.dict (list match_record) :=
  match PyDict.get (file result) groups with
  | Some l => PyDict.set (file result) (l ++ [result]) groups
  | None => PyDict.set (file result) [result] groups
  end.

Definition file_groups (results : list match_record)
    : PyDict.dict (list match_record) :=
  fold_left append_result results [].

(** [sorted(items, key=lambda x: len(x[1]), reverse=True)]: a stable sort,
    here by insertion; an item passes only strictly larger ones. *)
Fixpoint insert_by_len (x : str * list match_record)
    (l : list (str * list match_record)) : list (str * list match_record) :=
  match l with
  | [] => [x]
  | y :: t =>
      if length (snd x) <? length (snd y) then y :: insert_by_len x t
      else x :: y :: t
  end.

Definition sorted_by_len_desc (items : list (str * list match_record))
    : list (str * list match_record) :=
  fold_right insert_by_len [] items.

(** [dict(pairs)] *)
Definition dict_of (V : Type) (pairs : list (str * V)) : PyDict.dict V :=
  fold_left (fun d (kv : str * V) => PyDict.set (fst kv) (snd kv) d) pairs [].

Definition group_results_by_file (results : list match_record)
    : PyDict.dict (list match_record) :=
  let sorted_files := sorted_by_len_desc (file_groups results) in
  dict_of sorted_files.

(* ================================================================== *)
(** ** Cache persistence *)

Section Persistence.

(** The pickle library: the bytes it writes for a cache, and what it
    reads back ([None]: [pickle.PickleError] or [EOFError]). *)
Variable bytes : Type.
Variable pickle_dumps : pdf_cache_t -> bytes.
Variable pickle_loads : bytes -> option pdf_cache_t.

(** The files on disk, which of them can be opened for writing, and the
    results memoised by [@st.cache_data] for [load_cached_data], one per
    argument. *)
Record storage : Type := {
  content : str -> option bytes;
  writable : str -> bool;
  memo : PyDict.dict pdf_cache_t
}.

(** The undecorated function body. *)
Definition load_cached_data_body (st : storage) (cache_file : str)
    : pdf_cache_t :=
  match content st cache_file with
  | Some b =>
      match pickle_loads b with
      | Some data => data
      | None => []               (* warning: cache file corrupted *)
      end
  | None => []
  end.

(** [@st.cache_data]: a memoised result is returned without running the
    body; otherwise the body runs and its result is memoised. *)
Definition load_cached_data (st : storage) (cache_file : str)
    : pdf_cache_t * storage :=
  match PyDict.get cache_file (memo st) with
  | Some data => (data, st)
  | None =>
      let data := load_cached_data_body st cache_file in
      (data, {| content := content st;
                writable := writable st;
                memo := PyDict.set cache_file data (memo st) |})
  end.

Definition save_cache (st : storage) (data : pdf_cache_t) (cache_file : str)
    : storage :=
  if writable st cache_file
  then {| content := fun p => if str_eq_dec p cache_file
                              then Some (pickle_dumps data)
                              else content st p;
          writable := writable st;
          memo := memo st |}
  else st.                       (* st.error: failed to save cache *)

End Persistence.

(* ================================================================== *)
(** ** Auxiliary definitions and example inputs for the statements *)

(** What a page contributes to the result, by outcome. *)
Definition page_text_of (o : page_outcome) : str :=
  match o with
  | ExtractRaises => []
  | ExtractReturns None => []
  | ExtractReturns (Some text) => normalize text
  end.

(** A world in which every path is the same five-page document whose
    third page raises. *)
Definition five_pages : list page_outcome :=
  [ ExtractReturns (Some (lit "first  page"));
    ExtractReturns (Some (lit " second page "));
    ExtractRaises;
    ExtractReturns (Some (lit "fourth page"));
    ExtractReturns (Some (lit "fifth page")) ].

Definition five_page_world : world :=
  {| PDF_DIRECTORIES := [lit "/pdf"];
     listdir := fun _ => DirListing [lit "five.pdf"];
     abspath := fun p => p;
     getmtime := fun _ => Some 10%Z;
     pdf_open := fun _ => Some five_pages;
     now := fun _ => lit "2024-01-01T00:00:00" |}.

(** The distinct elements of a list in the order of their first
    occurrence: the key order of a dictionary filled from it. *)
Fixpoint first_seen (l : list str) : list str :=
  match l with
  | [] => []
  | x :: t => x :: filter (fun y => negb (str_eqb y x)) (first_seen t)
  end.

(** The records of one file, in the order of the input. *)
Definition records_of (f : str) (results : list match_record)
    : list match_record :=
  filter (fun r => str_eqb (file r) f) results.

Definition group_size (g : str * list match_record) : nat := length (snd g).

(** Descending group size. *)
Definition size_ge (a b : str * list match_record) : Prop :=
  group_size b <= group_size a.

Definition has_size (n : nat) (g : str * list match_record) : bool :=
  group_size g =? n.

(** [n] hits in the file [f]. *)
Definition hits (f : str) (n : nat) : list match_record :=
  map (fun i => {| file := f; page_number := i + 1; context := lit "...";
                   full_text := lit "..."; full_path := None |})
      (seq 0 n).

(** Interleaved hits: 5 for A, 9 for B, 2 for C. *)
Definition abc_results : list match_record :=
  hits (lit "A") 3 ++ hits (lit "C") 1 ++ hits (lit "B") 4 ++
  hits (lit "A") 2 ++ hits (lit "B") 5 ++ hits (lit "C") 1.

(** The end-to-end scenario of the design document. *)
Definition alpha_beta_cache : pdf_cache_t :=
  [ (lit "alpha.pdf", Pages [lit "hello world"; lit "no match here"]);
    (lit "beta.pdf", Pages [lit "another world of hello"]);
    (METADATA, Metadata []) ].

(** [pdf_cache['_metadata'].get(file_name)], when the metadata is a
    dictionary. *)
Definition meta_get (file_name : str) (pdf_cache : pdf_cache_t)
    : option meta_record :=
  match PyDict.get METADATA pdf_cache with
  | Some (Metadata md) => PyDict.get file_name md
  | _ => None
  end.

(** The modification time recorded for a file: [None] without a record,
    [Some None] for a record without the field. *)
Definition mtime_view (pdf_cache : pdf_cache_t) (file_name : str)
    : option (option Z) :=
  option_map mtime (meta_get file_name pdf_cache).

(** The store holds a metadata dictionary. *)
Definition typed (pdf_cache : pdf_cache_t) : Prop :=
  exists md, PyDict.get METADATA pdf_cache = Some (Metadata md).

(** Two stores that agree on every page entry and on every recorded
    modification time. *)
Definition same_entries (c1 c2 : pdf_cache_t) : Prop :=
  typed c1 /\ typed c2 /\
  (forall n, n <> METADATA -> PyDict.get n c1 = PyDict.get n c2) /\
  (forall n, mtime_view c1 n = mtime_view c2 n).

(** Equality of two stores as mappings, the metadata dictionary compared
    as a mapping too. *)
Definition same_store (c1 c2 : pdf_cache_t) : Prop :=
  (forall n, In n (PyDict.keys c1) <-> In n (PyDict.keys c2)) /\
  (forall n, n <> METADATA -> PyDict.get n c1 = PyDict.get n c2) /\
  (forall n, meta_get n c1 = meta_get n c2).

(** The statement that the final store does not depend on the order of
    completion, for one batch and one initial store. *)
Definition completion_order_independent (w : world) (batch : list str)
    (pdf_cache : pdf_cache_t) : Prop :=
  forall order1 order2,
    Permutation batch order1 -> Permutation batch order2 ->
    same_store (process_pdfs_batch w order1 pdf_cache)
               (process_pdfs_batch w order2 pdf_cache).

(** The statement that a document that cannot be read leaves no trace in
    the store and is selected again by the next pass. *)
Definition failed_document_retried (w : world) (batch : list str)
    (pdf_cache : pdf_cache_t) (pdf_file_path : str) : Prop :=
  let after := process_pdfs_batch w batch pdf_cache in
  let file_name := OsPath.basename pdf_file_path in
  extract_pdf_text_pdfplumber w pdf_file_path = [] /\
  PyDict.get file_name after = PyDict.get file_name pdf_cache /\
  meta_get file_name after = meta_get file_name pdf_cache /\
  exists updated,
    check_for_updates w batch after = Some updated /\
    In pdf_file_path (updated ++ new_files batch after).

(** Two directories with a file of the same name, and a clock that
    advances. *)
Definition two_roots_world : world :=
  {| PDF_DIRECTORIES := [lit "/a"; lit "/b"];
     listdir := fun d =>
       if str_eqb d (lit "/a") then DirListing [lit "x.pdf"; lit "y.pdf"]
       else if str_eqb d (lit "/b") then DirListing [lit "x.pdf"]
       else DirMissing;
     abspath := fun p => p;
     getmtime := fun _ => Some 100%Z;
     pdf_open := fun p =>
       if str_eqb p (lit "/a/x.pdf")
       then Some [ExtractReturns (Some (lit "text of a"))]
       else if str_eqb p (lit "/b/x.pdf")
       then Some [ExtractReturns (Some (lit "text of b"))]
       else if str_eqb p (lit "/a/y.pdf")
       then Some [ExtractReturns (Some (lit "text of y"))]
       else None;
     now := fun k => match k with
                     | 0 => lit "2024-01-01T10:00:00"
                     | _ => lit "2024-01-01T10:00:07"
                     end |}.

(** A world whose only document cannot be opened. *)
Definition unreadable_world : world :=
  {| PDF_DIRECTORIES := [lit "/pdf"];
     listdir := fun _ => DirListing [lit "bad.pdf"];
     abspath := fun p => p;
     getmtime := fun _ => Some 100%Z;
     pdf_open := fun _ => None;
     now := fun _ => lit "2024-01-01T10:00:00" |}.

(** The statement that loading after saving gives the saved store back. *)
Definition round_trip (bytes : Type) (pickle_dumps : pdf_cache_t -> bytes)
    (pickle_loads : bytes -> option pdf_cache_t) (st : storage bytes)
    (data : pdf_cache_t) (cache_file : str) : Prop :=
  fst (load_cached_data pickle_loads
         (save_cache pickle_dumps st data cache_file) cache_file) = data.

(** A process that has just started: no cache file yet, nothing memoised.
    Its pickle writes the store itself. *)
Definition fresh_storage : storage pdf_cache_t :=
  {| content := fun _ => None;
     writable := fun _ => true;
     memo := [] |}.

(** The same process after its first [load_cached_data()]. *)
Definition storage_after_first_load : storage pdf_cache_t :=
  snd (load_cached_data (@Some pdf_cache_t) fresh_storage CACHE_FILE).

(** A case-insensitive occurrence of [keyword] at offset [q] of [text]. *)
Definition occurs_at (keyword text : str) (q : nat) : bool :=
  match_at (lower keyword) (lower text) q.

(** Consecutive matches: each starts at or after the end of the one
    before. *)
Fixpoint spaced (klen pos : nat) (ms : list nat) : Prop :=
  match ms with
  | [] => True
  | m :: ms' => pos <= m /\ spaced klen (m + klen) ms'
  end.

(** A keyword as [smart_search] passes it on: not empty, and neither its
    first nor its last character is white space. *)
Definition trimmed (keyword : str) : bool :=
  match keyword with
  | [] => false
  | c :: _ => negb (isspace c) && negb (isspace (last keyword c))
  end.




(** A page on which the matches of ["a a"] found from the start of the
    page and those found from the start of a window are out of step. *)
Definition a_a_page : str :=
  concat (repeat (lit "a ") 120) ++ lit "a".

(** A store that has x.pdf at the live time of [two_roots_world] and has
    no record of y.pdf. *)
Definition x_cached : pdf_cache_t :=
  [ (lit "x.pdf", Pages [lit "text of a"]);
    (METADATA,
     Metadata [(lit "x.pdf",
                {| mtime := Some 100%Z;
                   processed_at := Some (lit "2024-01-01T10:00:00") |})]) ].

(** A directory listing holds names, not paths. *)
Definition listing_ok (w : world) : Prop :=
  forall d names f,
    listdir w d = DirListing names -> In f names -> ~ In OsPath.sep f.

(** The record that [search_single_page] builds for one context. *)
Definition record_of (file_path_cache : PyDict.dict str)
    (pdf_file page_text : str) (page_number : nat) (context : str)
    : match_record :=
  {| file := pdf_file;
     page_number := page_number + 1;
     context := context;
     full_text := page_text;
     full_path := get_pdf_path file_path_cache pdf_file |}.

(** A world whose directory no longer lists the cached old.pdf. *)
Definition deleted_world : world :=
  {| PDF_DIRECTORIES := [lit "/pdf"];
     listdir := fun d =>
       if str_eqb d (lit "/pdf") then DirListing [lit "new.pdf"]
       else DirMissing;
     abspath := fun p => p;
     getmtime := fun _ => Some 100%Z;
     pdf_open := fun _ => Some [ExtractReturns (Some (lit "brand new text"))];
     now := fun _ => lit "2024-01-01T10:00:00" |}.

Definition old_cached : pdf_cache_t :=
  [ (lit "old.pdf", Pages [lit "an old hello"; lit "nothing"]);
    (METADATA,
     Metadata [(lit "old.pdf",
                {| mtime := Some 50%Z;
                   processed_at := Some (lit "2023-01-01T10:00:00") |})]) ].

(** A page that holds U+0000 before the word it is searched for, and a
    store with that page. *)
Definition nul_page : str := lit "ab" ++ [zero] ++ lit " hello there".

Definition nul_cache : pdf_cache_t :=
  [ (lit "nul.pdf", Pages [nul_page]);
    (lit "ok.pdf", Pages [lit "x hello y"]);
    (METADATA, Metadata []) ].

(** No U+0000 in a text, and in the pages of an entry. *)
Definition nul_free (s : str) : Prop := ~ In zero s.

Definition nul_free_pages (pages : list str) : Prop :=
  forall page, In page pages -> nul_free page.




(** The occurrences of [K] in [T] chosen from left to right, an
    occurrence being chosen when no chosen occurrence before it overlaps
    it; [ms] lists them in ascending order. *)
Definition greedy_scan (K T : str) (ms : list nat) : Prop :=
  StronglySorted lt ms /\
  forall q, In q ms <->
    occurs_at K T q = true /\
    forall q', In q' ms -> q' < q -> q' + length K <= q.

(** The occurrence at [q] is wrapped: its text stands unchanged between
    the opening and the closing tag, after the highlighting of the text
    before it and before the highlighting of the text after it. *)
Definition wrapped_at (K ctx : str) (q : nat) : Prop :=
  highlight K ctx =
  highlight K (firstn q ctx) ++ SPAN_OPEN
    ++ firstn (length K) (skipn q ctx) ++ SPAN_CLOSE
    ++ highlight K (skipn (q + length K) ctx).

(* ================================================================== *)
(** ** More of the program: the selection and the linear view of [main] *)

(** The documents of the store: every item but the reserved record. *)
Definition documents (pdf_cache : pdf_cache_t) : list (str * cache_value) :=
  filter (fun kv => negb (str_eqb (fst kv) METADATA)) pdf_cache.

(** [files_to_process] of [main], before [list(set(...))] removes the
    duplicates and forgets the order. *)
Definition files_to_process (w : world) (pdf_files : list str)
    (pdf_cache : pdf_cache_t) : option (list str) :=
  match check_for_updates w pdf_files pdf_cache with
  | Some updated => Some (updated ++ new_files pdf_files pdf_cache)
  | None => None
  end.

(** [list(set(l))]: the members of [l], each once, in an order that the
    program does not control. *)
Definition list_set (l r : list str) : Prop :=
  NoDup r /\ forall x, In x r <-> In x l.

(** [all_results] of the linear view: the groups one after the other. *)
Definition all_results (file_groups : PyDict.dict (list match_record))
    : list match_record :=
  flat_map (fun g => snd g) file_groups.

(** The pagination of the linear view; Python's [//] is the floor
    division of [Z]. *)
Definition results_per_page : Z := 20.

Definition total_pages (n : nat) : Z :=
  ((Z.of_nat n - 1) / results_per_page + 1)%Z.

Definition start_idx (page_num : Z) : Z :=
  ((page_num - 1) * results_per_page)%Z.

Definition end_idx (n : nat) (page_num : Z) : Z :=
  Z.min (start_idx page_num + results_per_page) (Z.of_nat n).

(** [all_results[start_idx:end_idx]], for [0 <= start_idx]. *)
Definition page_of_results (all : list match_record) (page_num : Z)
    : list match_record :=
  firstn (Z.to_nat (end_idx (length all) page_num - start_idx page_num))
         (skipn (Z.to_nat (start_idx page_num)) all).

(** The page numbers that [st.number_input] lets through. *)
Definition page_numbers (n : nat) : list Z :=
  map (fun k => (Z.of_nat k + 1)%Z) (seq 0 (Z.to_nat (total_pages n))).

(** The last configured directory whose listing holds [filename]. *)
Definition lists_file (w : world) (filename pdf_dir : str) : bool :=
  match listdir w pdf_dir with
  | DirListing names => existsb (str_eqb filename) names
  | DirMissing => false
  | DirDenied => false
  end.

Definition last_listing_dir (w : world) (filename : str) : option str :=
  find (lists_file w filename) (rev (PDF_DIRECTORIES w)).

(** Characters that are white space only as single separating spaces. *)
Fixpoint single_spaced (in_run : bool) (s : str) : bool :=
  match s with
  | [] => true
  | c :: t =>
      if isspace c
      then (if ascii_dec c " "%char then negb in_run else false)
           && single_spaced true t
      else single_spaced false t
  end.

(* ================================================================== *)
(** ** The network edition ([flask_stream_network.py]) *)

Module Network.

Definition NETWORK_RETRY_COUNT : nat := 3.
Definition NETWORK_RETRY_DELAY : nat := 2.

(** What one call of the retried function does: it returns, raises one
    of [PermissionError], [OSError], [IOError], or raises something
    else. *)
Inductive outcome (A : Type) : Type :=
| Returns (a : A)
| NetworkError
| OtherError.

Arguments Returns {A} a.
Arguments NetworkError {A}.
Arguments OtherError {A}.

Inductive retry_result (A : Type) : Type :=
| Returned (a : A)
| RaisedNetwork
| RaisedOther
| FellThrough.          (* the loop ends: the function returns None *)

Arguments Returned {A} a.
Arguments RaisedNetwork {A}.
Arguments RaisedOther {A}.
Arguments FellThrough {A}.

(** The loop of [retry_network_operation] over the attempts left;
    [func k] is what the call of attempt [k] does.  The result comes with
    the waits handed to [time.sleep], in seconds. *)
Fixpoint retry_loop (A : Type) (func : nat -> outcome A)
    (attempts : list nat) : retry_result A * list nat :=
  match attempts with
  | [] => (FellThrough, [])
  | attempt :: rest =>
      match func attempt with
      | Returns a => (Returned a, [])
      | OtherError => (RaisedOther, [])
      | NetworkError =>
          if attempt <? NETWORK_RETRY_COUNT - 1 then
            let wait_time := NETWORK_RETRY_DELAY * 2 ^ attempt in
            let (r, sleeps) := retry_loop func rest in
            (r, wait_time :: sleeps)
          else (RaisedNetwork, [])
      end
  end.

Definition retry_network_operation (A : Type) (func : nat -> outcome A)
    : retry_result A * list nat :=
  retry_loop func (seq 0 NETWORK_RETRY_COUNT).

(** The network share: what the call of attempt [k] of
    [os.path.getmtime(path)] does. *)
Definition share : Type := str -> nat -> outcome Z.

Definition get_file_modification_time (sh : share) (file_path : str)
    : retry_result Z :=
  fst (retry_network_operation (sh file_path)).

(** [check_for_updates] of the network edition: the body of the loop is
    in a [try] whose [except Exception] warns and goes on. *)
Fixpoint check_for_updates_loop (sh : share)
    (cache_metadata : option (PyDict.dict meta_record))
    (pdf_files : list str) : list str :=
  match pdf_files with
  | [] => []
  | pdf_file_path :: rest =>
      let file_name := OsPath.basename pdf_file_path in
      match get_file_modification_time sh pdf_file_path, cache_metadata with
      | Returned current_mtime, Some md =>
          if Z.ltb (cached_mtime_of md file_name) current_mtime
          then pdf_file_path :: check_for_updates_loop sh cache_metadata rest
          else check_for_updates_loop sh cache_metadata rest
      | _, _ => check_for_updates_loop sh cache_metadata rest
      end
  end.

Definition check_for_updates (sh : share) (pdf_files : list str)
    (pdf_cache : pdf_cache_t) : list str :=
  check_for_updates_loop sh (cache_metadata_of pdf_cache) pdf_files.

End Network.

(** A disk on which gone.pdf can no longer be stat'ed, and the same disk
    seen as a network share. *)
Definition vanished_world : world :=
  {| PDF_DIRECTORIES := [lit "/pdf"];
     listdir := fun _ => DirListing [lit "new.pdf"; lit "gone.pdf"];
     abspath := fun p => p;
     getmtime := fun p =>
       if str_eqb p (lit "/pdf/gone.pdf") then None else Some 100%Z;
     pdf_open := fun _ => Some [ExtractReturns (Some (lit "brand new text"))];
     now := fun _ => lit "2024-01-01T10:00:00" |}.

Definition vanished_share : Network.share :=
  fun p _ =>
    if str_eqb p (lit "/pdf/gone.pdf") then Network.NetworkError
    else Network.Returns 100%Z.

(** A share on which every first call fails and every second returns. *)
Definition flaky_share : Network.share :=
  fun _ k => if k =? 0 then Network.NetworkError else Network.Returns 100%Z.

(** The documents of a store hold no U+0000. *)
Definition nul_free_store (pdf_cache : pdf_cache_t) : Prop :=
  forall f v, PyDict.get f pdf_cache = Some v -> f <> METADATA ->
              nul_free_pages (as_pages v).

(** A text cut into pieces, each a stretch of text followed by a copy of
    the keyword, and a tail; and the same text with every copy between
    the tags of the span. *)
Definition plain_text (pieces : list (str * str)) (tail : str) : str :=
  concat (map (fun gm => fst gm ++ snd gm) pieces) ++ tail.

Definition marked_text (pieces : list (str * str)) (tail : str) : str :=
  concat (map (fun gm => fst gm ++ SPAN_OPEN ++ snd gm ++ SPAN_CLOSE)
              pieces) ++ tail.

(** The second part of a piece is the keyword up to case, and the
    leftmost occurrence of the keyword in the piece. *)
Definition leftmost_copy (keyword : str) (gm : str * str) : Prop :=
  lower (snd gm) = lower keyword /\
  forall q, q < length (fst gm) ->
            occurs_at keyword (fst gm ++ snd gm) q = false.

(* ================================================================== *)
(** * Properties *)

Unset Implicit Arguments.

(** ** Strings *)

Section StrFacts.

Lemma str_eqb_refl (a : str) : str_eqb a a = true.
Proof. unfold str_eqb. destruct (str_eq_dec a a); congruence. Qed.

Lemma str_eqb_eq (a b : str) : str_eqb a b = true <-> a = b.
Proof. unfold str_eqb. destruct (str_eq_dec a b); split; congruence. Qed.

Lemma str_eqb_neq (a b : str) : str_eqb a b = false <-> a <> b.
Proof. unfold str_eqb. destruct (str_eq_dec a b); split; congruence. Qed.

Lemma startswith_iff (p s : str) :
  startswith p s = true <-> exists r, s = p ++ r.
Proof.
  revert s. induction p as [|a p IH]; intros s; simpl.
  - split; [intros _; now exists s | reflexivity].
  - destruct s as [|b s].
    + split; [discriminate | intros [r Hr]; discriminate].
    + destruct (ascii_dec a b) as [->|Hab].
      * rewrite IH. split; intros [r Hr]; exists r.
        -- now rewrite Hr.
        -- now inversion Hr.
      * split; [discriminate | intros [r Hr]; inversion Hr; congruence].
Qed.

Lemma startswith_app (p r : str) : startswith p (p ++ r) = true.
Proof. apply startswith_iff. now exists r. Qed.

Lemma startswith_length (p s : str) :
  startswith p s = true -> length p <= length s.
Proof.
  intros H. apply startswith_iff in H as [r ->]. rewrite length_app. lia.
Qed.

Lemma str_in_iff (sub s : str) :
  str_in sub s = true <-> exists a b, s = a ++ sub ++ b.
Proof.
  induction s as [|c s IH]; simpl.
  - rewrite orb_false_r, startswith_iff. split.
    + intros [r Hr]. now exists [], r.
    + intros (a & b & H). destruct a; [now exists b | discriminate].
  - rewrite orb_true_iff, IH, startswith_iff. split.
    + intros [[r Hr] | (a & b & H)].
      * now exists [], r.
      * exists (c :: a), b. now rewrite H.
    + intros ([|c' a] & b & H).
      * left. now exists b.
      * right. exists a, b. now inversion H.
Qed.

Lemma lower_app (a b : str) : lower (a ++ b) = lower a ++ lower b.
Proof. apply map_app. Qed.

Lemma lower_length (s : str) : length (lower s) = length s.
Proof. apply length_map. Qed.


Lemma join_member (sep x : str) (xs : list str) :
  In x xs -> exists a b, join sep xs = a ++ x ++ b.
Proof.
  induction xs as [|y ys IH]; [contradiction|].
  intros [->|Hin].
  - destruct ys as [|z zs].
    + exists [], []. simpl. now rewrite app_nil_r.
    + exists [], (sep ++ join sep (z :: zs)). reflexivity.
  - destruct ys as [|z zs]; [contradiction|].
    destruct (IH Hin) as (a & b & E).
    exists (y ++ sep ++ a), b.
    change (join sep (y :: z :: zs)) with (y ++ sep ++ join sep (z :: zs)).
    rewrite E. now rewrite <- !app_assoc.
Qed.

(** A substring of one element is a substring of the joined text. *)
Lemma str_in_join (sep sub x : str) (xs : list str) :
  In x xs -> str_in sub x = true -> str_in sub (join sep xs) = true.
Proof.
  intros Hin Hsub.
  apply str_in_iff in Hsub as (a & b & ->).
  destruct (join_member sep _ _ Hin) as (a' & b' & E).
  apply str_in_iff. exists (a' ++ a), (b ++ b').
  rewrite E. now rewrite <- !app_assoc.
Qed.

Lemma lstrip_blank (s : str) : forallb isspace s = true -> lstrip s = [].
Proof.
  induction s as [|c s IH]; simpl; [reflexivity|].
  intros H. apply andb_true_iff in H as [Hc Hs]. now rewrite Hc, IH.
Qed.

Lemma strip_blank (s : str) : forallb isspace s = true -> strip s = [].
Proof. intros H. unfold strip. now rewrite (lstrip_blank _ H). Qed.

End StrFacts.

(** ** Dictionaries *)

Section DictFacts.
Variable V : Type.
Implicit Types (d : PyDict.dict V) (k : str) (v : V).

Lemma get_set_same k v d : PyDict.get k (PyDict.set k v d) = Some v.
Proof.
  induction d as [|[k' v'] d IH]; simpl.
  - destruct (str_eq_dec k k); congruence.
  - destruct (str_eq_dec k k') as [->|Hk]; simpl.
    + destruct (str_eq_dec k' k'); congruence.
    + destruct (str_eq_dec k k'); congruence.
Qed.

Lemma get_set_other k k' v d :
  k' <> k -> PyDict.get k' (PyDict.set k v d) = PyDict.get k' d.
Proof.
  intros Hne. induction d as [|[k0 v0] d IH]; simpl.
  - destruct (str_eq_dec k' k); congruence.
  - destruct (str_eq_dec k k0) as [->|Hk]; simpl.
    + destruct (str_eq_dec k' k0); congruence.
    + destruct (str_eq_dec k' k0); congruence.
Qed.

Lemma get_None_keys k d : PyDict.get k d = None <-> ~ In k (PyDict.keys d).
Proof.
  induction d as [|[k' v'] d IH]; simpl.
  - tauto.
  - destruct (str_eq_dec k k') as [->|Hk].
    + split; [discriminate | intros H; exfalso; apply H; now left].
    + rewrite IH. split; intros H; [intros [E|E]; [congruence|tauto] | tauto].
Qed.

Lemma get_Some_keys k v d : PyDict.get k d = Some v -> In k (PyDict.keys d).
Proof.
  intros H. destruct (in_dec str_eq_dec k (PyDict.keys d)) as [|Hn]; auto.
  apply get_None_keys in Hn. congruence.
Qed.

Lemma get_Some_In k v d : PyDict.get k d = Some v -> In (k, v) d.
Proof.
  induction d as [|[k' v'] d IH]; simpl; [discriminate|].
  destruct (str_eq_dec k k') as [->|Hk].
  - intros [= ->]. now left.
  - intros H. right. auto.
Qed.

Lemma In_get k v d : PyDict.wf d -> In (k, v) d -> PyDict.get k d = Some v.
Proof.
  unfold PyDict.wf. induction d as [|[k' v'] d IH]; simpl; [contradiction|].
  intros Hnd [E|Hin].
  - inversion E; subst. destruct (str_eq_dec k k); congruence.
  - inversion Hnd as [|? ? Hni Hnd']; subst.
    destruct (str_eq_dec k k') as [->|Hk].
    + exfalso. apply Hni. apply (in_map fst) in Hin. exact Hin.
    + auto.
Qed.

(** A new key goes to the end; an existing key stays where it is. *)
Lemma keys_set k v d :
  PyDict.keys (PyDict.set k v d) =
  if PyDict.contains k d then PyDict.keys d else PyDict.keys d ++ [k].
Proof.
  unfold PyDict.contains.
  induction d as [|[k' v'] d IH]; simpl; [reflexivity|].
  destruct (str_eq_dec k k') as [->|Hk]; simpl; [reflexivity|].
  rewrite IH. now destruct (PyDict.get k d).
Qed.

Lemma set_new k v d :
  PyDict.get k d = None -> PyDict.set k v d = d ++ [(k, v)].
Proof.
  induction d as [|[k' v'] d IH]; simpl; [reflexivity|].
  destruct (str_eq_dec k k'); [discriminate|].
  intros H. now rewrite IH.
Qed.

Lemma In_keys_set k k' v d :
  In k' (PyDict.keys (PyDict.set k v d)) <-> k' = k \/ In k' (PyDict.keys d).
Proof.
  rewrite keys_set. unfold PyDict.contains.
  destruct (PyDict.get k d) eqn:E.
  - split; [tauto|]. intros [->|H]; [|assumption].
    now apply get_Some_keys in E.
  - rewrite in_app_iff. simpl. intuition congruence.
Qed.

Lemma wf_set k v d : PyDict.wf d -> PyDict.wf (PyDict.set k v d).
Proof.
  unfold PyDict.wf. intros H. rewrite keys_set. unfold PyDict.contains.
  destruct (PyDict.get k d) eqn:E; [assumption|].
  apply get_None_keys in E.
  apply NoDup_app; [assumption | repeat constructor; simpl; tauto |].
  intros x Hx [<-|[]]. contradiction.
Qed.

Lemma contains_true k d :
  PyDict.contains k d = true <-> In k (PyDict.keys d).
Proof.
  unfold PyDict.contains. destruct (PyDict.get k d) eqn:E.
  - split; [intros _; eapply get_Some_keys; eauto | reflexivity].
  - split; [discriminate|]. intros H. apply get_None_keys in E. contradiction.
Qed.

End DictFacts.

Create HintDb pydict.
#[local] Hint Resolve wf_set get_Some_keys In_get : pydict.

(* ================================================================== *)
(** ** Extraction: per-page fault isolation *)

Lemma normalize_nil : normalize [] = [].
Proof. reflexivity. Qed.


Lemma extract_page_text (o : page_outcome) : extract_page o = page_text_of o.
Proof. destruct o as [|[[|c t]|]]; reflexivity. Qed.

(** C6. A document that opens with [n] pages yields exactly [n] page
    texts in page order: the empty string in the slot of every page
    whose extraction raises or yields no text, and the normalised
    extracted text in every other slot. *)
Theorem extract_fault_isolation (w : world) (pdf_path : str)
    (doc : list page_outcome) :
  pdf_open w pdf_path = Some doc ->
  length (extract_pdf_text_pdfplumber w pdf_path) = length doc /\
  (forall i o, nth_error doc i = Some o ->
     nth_error (extract_pdf_text_pdfplumber w pdf_path) i =
       Some (page_text_of o)) /\
  (forall i, nth_error doc i = Some ExtractRaises ->
     nth_error (extract_pdf_text_pdfplumber w pdf_path) i = Some []).
Proof.
  intros Hopen. unfold extract_pdf_text_pdfplumber. rewrite Hopen.
  split; [apply length_map|].
  assert (H : forall i o, nth_error doc i = Some o ->
              nth_error (map extract_page doc) i = Some (page_text_of o)).
  { intros i o Hi. rewrite nth_error_map, Hi. simpl.
    now rewrite extract_page_text. }
  split; [exact H|]. intros i Hi. apply (H i _ Hi).
Qed.


Example extract_five_pages :
  extract_pdf_text_pdfplumber five_page_world (lit "/pdf/five.pdf") =
  [lit "first page"; lit "second page"; []; lit "fourth page";
   lit "fifth page"].
Proof. reflexivity. Qed.

Lemma extract_fault_isolation_witness :
  pdf_open five_page_world (lit "/pdf/five.pdf") = Some five_pages /\
  (length (extract_pdf_text_pdfplumber five_page_world (lit "/pdf/five.pdf"))
     = length five_pages /\
   (forall i o, nth_error five_pages i = Some o ->
      nth_error (extract_pdf_text_pdfplumber five_page_world
                   (lit "/pdf/five.pdf")) i = Some (page_text_of o)) /\
   (forall i, nth_error five_pages i = Some ExtractRaises ->
      nth_error (extract_pdf_text_pdfplumber five_page_world
                   (lit "/pdf/five.pdf")) i = Some [])).
Proof.
  split; [reflexivity|].
  apply (@extract_fault_isolation five_page_world (lit "/pdf/five.pdf")
           five_pages).
  reflexivity.
Defined.

(* ================================================================== *)
(** ** Staleness *)

Lemma cached_mtime_absent (md : PyDict.dict meta_record) (n : str) :
  PyDict.get n md = None -> cached_mtime_of md n = 0%Z.
Proof. unfold cached_mtime_of. now intros ->. Qed.

Lemma cached_mtime_no_field (md : PyDict.dict meta_record) (n : str)
    (r : meta_record) :
  PyDict.get n md = Some r -> mtime r = None -> cached_mtime_of md n = 0%Z.
Proof. unfold cached_mtime_of. now intros -> ->. Qed.

Lemma cached_mtime_present (md : PyDict.dict meta_record) (n : str)
    (r : meta_record) (t : Z) :
  PyDict.get n md = Some r -> mtime r = Some t -> cached_mtime_of md n = t.
Proof. unfold cached_mtime_of. now intros -> ->. Qed.

Lemma check_for_updates_loop_spec (w : world)
    (md : PyDict.dict meta_record) (pdf_files : list str) :
  (forall f, In f pdf_files -> getmtime w f <> None) ->
  exists updated,
    check_for_updates_loop w (Some md) pdf_files = Some updated /\
    forall F, In F updated <->
      In F pdf_files /\
      exists m, getmtime w F = Some m /\
                (cached_mtime_of md (OsPath.basename F) < m)%Z.
Proof.
  induction pdf_files as [|p rest IH]; intros Hstat.
  - exists []. split; [reflexivity|]. simpl. intros F. split; [tauto|].
    intros [[] _].
  - destruct IH as (upd & Hupd & Hspec).
    { intros f Hf. apply Hstat. now right. }
    simpl. unfold get_file_modification_time.
    destruct (getmtime w p) as [m|] eqn:Hm.
    2:{ exfalso. apply (Hstat p); [now left | assumption]. }
    rewrite Hupd. eexists. split; [reflexivity|].
    intros F. destruct (Z.ltb_spec (cached_mtime_of md (OsPath.basename p)) m)
      as [Hlt|Hge].
    + simpl. rewrite Hspec. split.
      * intros [<-|[Hin Hex]]; [|tauto].
        split; [now left|]. now exists m.
      * intros [[<-|Hin] Hex]; [now left | right; tauto].
    + rewrite Hspec. split.
      * intros [Hin Hex]. split; [now right | assumption].
      * intros [[<-|Hin] Hex]; [|tauto].
        destruct Hex as (m' & Hm' & Hlt). rewrite Hm in Hm'.
        injection Hm' as <-. lia.
Qed.

(** C3. With the metadata dictionary of the store (empty when the store has
    none) and files whose modification time can be read,
    [check_for_updates] returns a list that contains a file [F] exactly
    when [F] is one of the files given and its live modification time is
    strictly greater than the cached one, which counts as 0 when the
    file name or its ['mtime'] field is missing. *)
Theorem check_for_updates_staleness (w : world) (pdf_files : list str)
    (pdf_cache : pdf_cache_t) (md : PyDict.dict meta_record) :
  cache_metadata_of pdf_cache = Some md ->
  (forall f, In f pdf_files -> getmtime w f <> None) ->
  exists updated,
    check_for_updates w pdf_files pdf_cache = Some updated /\
    (forall F, In F updated <->
       In F pdf_files /\
       exists m, getmtime w F = Some m /\
                 (cached_mtime_of md (OsPath.basename F) < m)%Z) /\
    (forall F m, In F pdf_files -> getmtime w F = Some m ->
       (m <= cached_mtime_of md (OsPath.basename F))%Z -> ~ In F updated) /\
    (forall n, cached_mtime_of md n =
       match PyDict.get n md with
       | Some {| mtime := Some t |} => t
       | _ => 0%Z
       end).
Proof.
  intros Hmd Hstat. unfold check_for_updates. rewrite Hmd.
  destruct (check_for_updates_loop_spec w md pdf_files Hstat)
    as (upd & Hupd & Hspec).
  exists upd. split; [assumption|]. split; [assumption|]. split.
  - intros F m Hin Hm Hle Hc. apply Hspec in Hc as [_ (m' & Hm' & Hlt)].
    rewrite Hm in Hm'. injection Hm' as <-. lia.
  - intros n. unfold cached_mtime_of.
    destruct (PyDict.get n md) as [[[t|] pa]|]; reflexivity.
Qed.

Lemma check_for_updates_staleness_witness :
  exists updated,
    check_for_updates two_roots_world [lit "/a/x.pdf"; lit "/a/y.pdf"]
      x_cached = Some updated /\
    (In (lit "/a/y.pdf") updated /\ ~ In (lit "/a/x.pdf") updated).
Proof.
  destruct (check_for_updates_staleness two_roots_world
              [lit "/a/x.pdf"; lit "/a/y.pdf"] x_cached
              [(lit "x.pdf",
                {| mtime := Some 100%Z;
                   processed_at := Some (lit "2024-01-01T10:00:00") |})]
              eq_refl)
    as (updated & Hupd & Hiff & Hle & _).
  { intros f _. discriminate. }
  exists updated. split; [exact Hupd|]. split.
  - apply Hiff. split; [right; now left|].
    exists 100%Z. split; [reflexivity|]. vm_compute. reflexivity.
  - apply (Hle (lit "/a/x.pdf") 100%Z); [now left | reflexivity|].
    vm_compute. discriminate.
Defined.

Example check_for_updates_equal_time :
  check_for_updates two_roots_world [lit "/a/x.pdf"; lit "/a/y.pdf"] x_cached
  = Some [lit "/a/y.pdf"].
Proof. reflexivity. Qed.

(* ================================================================== *)
(** ** Empty keyword *)

(** C9. For a keyword that is empty or made of white space only,
    [smart_search] returns the empty list as a normal result, whatever the
    store, the index and the path cache are, and makes no access: it does
    not query the index and reads no cache entry. *)
Theorem smart_search_blank_keyword (db : index_db)
    (file_path_cache : PyDict.dict str) (keyword : str)
    (pdf_cache : pdf_cache_t) :
  forallb isspace keyword = true ->
  smart_search db file_path_cache keyword pdf_cache = ([], Some []).
Proof.
  intros H. unfold smart_search. now rewrite (strip_blank _ H).
Qed.

Lemma smart_search_blank_keyword_witness :
  forallb isspace (lit "   ") = true /\
  smart_search (DbTable []) [] (lit "   ")
    [(lit "a.pdf", Pages [lit "hello world"])] = ([], Some []).
Proof.
  split; [reflexivity|].
  apply (@smart_search_blank_keyword (DbTable []) [] (lit "   ")
           [(lit "a.pdf", Pages [lit "hello world"])]).
  reflexivity.
Defined.

Example smart_search_empty_keyword (db : index_db)
    (fpc : PyDict.dict str) (pdf_cache : pdf_cache_t) :
  smart_search db fpc [] pdf_cache = ([], Some []).
Proof. reflexivity. Qed.

(* ================================================================== *)
(** ** Aggregation *)

Section Aggregation.

Implicit Types (g : PyDict.dict (list match_record)) (r : match_record).

Lemma get_append_result g r f :
  PyDict.get f (append_result g r) =
  if str_eq_dec f (file r)
  then Some (match PyDict.get f g with Some l => l | None => [] end ++ [r])
  else PyDict.get f g.
Proof.
  unfold append_result. destruct (str_eq_dec f (file r)) as [->|Hne].
  - destruct (PyDict.get (file r) g); now rewrite get_set_same.
  - destruct (PyDict.get (file r) g); now rewrite get_set_other.
Qed.

Lemma keys_append_result g r :
  PyDict.keys (append_result g r) =
  if PyDict.contains (file r) g then PyDict.keys g
  else PyDict.keys g ++ [file r].
Proof.
  unfold append_result, PyDict.contains.
  destruct (PyDict.get (file r) g) eqn:E; rewrite keys_set;
    unfold PyDict.contains; now rewrite E.
Qed.

Lemma get_fold_append rs : forall g f,
  PyDict.get f (fold_left append_result rs g) =
  match PyDict.get f g, records_of f rs with
  | None, [] => None
  | Some l, more => Some (l ++ more)
  | None, more => Some more
  end.
Proof.
  induction rs as [|r rs IH]; intros g f; simpl.
  - destruct (PyDict.get f g); [now rewrite app_nil_r | reflexivity].
  - rewrite IH, get_append_result. unfold records_of. simpl.
    destruct (str_eq_dec f (file r)) as [->|Hne].
    + rewrite str_eqb_refl.
      destruct (PyDict.get (file r) g); simpl; [now rewrite <- app_assoc|].
      reflexivity.
    + assert (E : str_eqb (file r) f = false) by (apply str_eqb_neq; congruence).
      now rewrite E.
Qed.

(** Every group holds the records of its file, in input order. *)
Lemma get_file_groups rs f :
  PyDict.get f (file_groups rs) =
  match records_of f rs with [] => None | l => Some l end.
Proof. unfold file_groups. rewrite get_fold_append. reflexivity. Qed.

Lemma filter_andb (A : Type) (p q : A -> bool) (l : list A) :
  filter (fun x => q x && p x) l = filter p (filter q l).
Proof.
  induction l as [|x l IH]; simpl; [reflexivity|].
  destruct (q x); simpl; [|assumption].
  destruct (p x); now rewrite IH.
Qed.

Lemma contains_append_result g r f :
  PyDict.contains f (append_result g r) =
  str_eqb f (file r) || PyDict.contains f g.
Proof.
  unfold PyDict.contains at 1. rewrite get_append_result.
  unfold PyDict.contains, str_eqb.
  destruct (str_eq_dec f (file r)) as [->|]; reflexivity.
Qed.

Lemma keys_fold_append rs : forall g,
  PyDict.keys (fold_left append_result rs g) =
  PyDict.keys g ++
  filter (fun f => negb (PyDict.contains f g)) (first_seen (map file rs)).
Proof.
  induction rs as [|r rs IH]; intros g; simpl.
  - now rewrite app_nil_r.
  - rewrite IH, keys_append_result.
    rewrite (filter_ext (fun f => negb (PyDict.contains f (append_result g r)))
               (fun f => negb (str_eqb f (file r))
                         && negb (PyDict.contains f g))).
    2:{ intros f. now rewrite contains_append_result, negb_orb. }
    rewrite filter_andb.
    destruct (PyDict.contains (file r) g); simpl; [reflexivity|].
    now rewrite <- app_assoc.
Qed.

(** The groups are keyed in the order in which the files first occur. *)
Lemma keys_file_groups rs :
  PyDict.keys (file_groups rs) = first_seen (map file rs).
Proof.
  unfold file_groups. rewrite keys_fold_append. simpl.
  induction (first_seen (map file rs)) as [|x l IH]; simpl; congruence.
Qed.

Lemma first_seen_In (l : list str) x : In x (first_seen l) <-> In x l.
Proof.
  induction l as [|y l IH]; simpl; [tauto|].
  rewrite filter_In, IH, negb_true_iff, str_eqb_neq.
  destruct (str_eq_dec x y); intuition congruence.
Qed.

Lemma NoDup_filter (A : Type) (p : A -> bool) (l : list A) :
  NoDup l -> NoDup (filter p l).
Proof.
  induction 1 as [|x l Hx Hl IH]; simpl; [constructor|].
  destruct (p x); [constructor; [rewrite filter_In; tauto | assumption]
                  | assumption].
Qed.

Lemma first_seen_NoDup (l : list str) : NoDup (first_seen l).
Proof.
  induction l as [|y l IH]; simpl; constructor.
  - rewrite filter_In, negb_true_iff, str_eqb_neq. tauto.
  - now apply NoDup_filter.
Qed.

Lemma wf_file_groups rs : PyDict.wf (file_groups rs).
Proof. unfold PyDict.wf. rewrite keys_file_groups. apply first_seen_NoDup. Qed.

(** *** The stable descending sort *)

Implicit Types (x y : str * list match_record)
               (l : list (str * list match_record)).

Lemma insert_by_len_perm x l : Permutation (x :: l) (insert_by_len x l).
Proof.
  induction l as [|y l IH]; simpl; [reflexivity|].
  destruct (length (snd x) <? length (snd y)); [|reflexivity].
  rewrite perm_swap. now constructor.
Qed.

Lemma sorted_by_len_desc_perm l : Permutation l (sorted_by_len_desc l).
Proof.
  induction l as [|x l IH]; simpl; [constructor|].
  rewrite <- insert_by_len_perm. now constructor.
Qed.

Lemma insert_by_len_sorted x l :
  StronglySorted size_ge l -> StronglySorted size_ge (insert_by_len x l).
Proof.
  induction 1 as [|y l Hl IH Hy]; simpl.
  - repeat constructor.
  - destruct (Nat.ltb_spec (length (snd x)) (length (snd y))) as [Hlt|Hge].
    + constructor; [assumption|].
      rewrite Forall_forall in *. intros z Hz.
      apply Permutation_in with (l' := x :: l) in Hz;
        [|symmetry; apply insert_by_len_perm].
      destruct Hz as [<-|Hz]; [unfold size_ge, group_size; lia | auto].
    + constructor; [now constructor|].
      constructor; [exact Hge|].
      rewrite Forall_forall in *. intros z Hz. specialize (Hy z Hz).
      unfold size_ge, group_size in *. lia.
Qed.

Lemma sorted_by_len_desc_sorted l :
  StronglySorted size_ge (sorted_by_len_desc l).
Proof.
  induction l as [|x l IH]; simpl; [constructor|].
  now apply insert_by_len_sorted.
Qed.

(** Stability: the items of any one size keep their relative order. *)
Lemma insert_by_len_stable n x l :
  filter (has_size n) (insert_by_len x l) = filter (has_size n) (x :: l).
Proof.
  induction l as [|y l IH]; [reflexivity|].
  simpl insert_by_len.
  destruct (Nat.ltb_spec (length (snd x)) (length (snd y))) as [Hlt|Hge];
    [|reflexivity].
  simpl in *. rewrite IH. unfold has_size, group_size.
  destruct (Nat.eqb_spec (length (snd x)) n), (Nat.eqb_spec (length (snd y)) n);
    try reflexivity.
  lia.
Qed.

Lemma sorted_by_len_desc_stable n l :
  filter (has_size n) (sorted_by_len_desc l) = filter (has_size n) l.
Proof.
  induction l as [|x l IH]; [reflexivity|].
  simpl sorted_by_len_desc. rewrite insert_by_len_stable. simpl. now rewrite IH.
Qed.

Lemma dict_of_app (V : Type) (pairs acc : list (str * V)) :
  NoDup (map fst (acc ++ pairs)) ->
  fold_left (fun d (kv : str * V) => PyDict.set (fst kv) (snd kv) d) pairs acc
  = acc ++ pairs.
Proof.
  revert acc. induction pairs as [|[k v] pairs IH]; intros acc Hnd; simpl.
  - now rewrite app_nil_r.
  - rewrite set_new.
    + rewrite IH; rewrite <- app_assoc; [reflexivity | exact Hnd].
    + apply get_None_keys. unfold PyDict.keys.
      rewrite map_app in Hnd. simpl in Hnd.
      apply NoDup_remove_2 in Hnd. rewrite in_app_iff in Hnd.
      tauto.
Qed.

(** A list of pairs with distinct keys is its own dictionary. *)
Lemma dict_of_nodup (V : Type) (pairs : list (str * V)) :
  NoDup (map fst pairs) -> dict_of pairs = pairs.
Proof. intros H. unfold dict_of. now rewrite dict_of_app. Qed.

Lemma group_results_sorted rs :
  group_results_by_file rs = sorted_by_len_desc (file_groups rs).
Proof.
  unfold group_results_by_file. apply dict_of_nodup.
  eapply Permutation_NoDup.
  - apply Permutation_map. apply sorted_by_len_desc_perm.
  - apply wf_file_groups.
Qed.

(** C8. [group_results_by_file] returns the groups ordered by descending
    size, groups of equal size in the order in which their files first
    occur among the records: its keys are the distinct files of the
    records, each group holds the records of its file in input order, the
    sizes never increase along the result, and the groups of any one size
    are in the order of the unsorted grouping. *)
Theorem group_results_by_file_order (results : list match_record) :
  let grouped := group_results_by_file results in
  PyDict.wf grouped /\
  Permutation (PyDict.keys grouped) (first_seen (map file results)) /\
  (forall f, PyDict.get f grouped =
     match records_of f results with [] => None | l => Some l end) /\
  StronglySorted size_ge grouped /\
  (forall n, filter (has_size n) grouped =
             filter (has_size n) (file_groups results)) /\
  PyDict.keys (file_groups results) = first_seen (map file results).
Proof.
  simpl. rewrite group_results_sorted.
  assert (Hp : Permutation (PyDict.keys (sorted_by_len_desc (file_groups results)))
                 (first_seen (map file results))).
  { rewrite <- keys_file_groups. symmetry.
    apply Permutation_map, sorted_by_len_desc_perm. }
  assert (Hwf : PyDict.wf (sorted_by_len_desc (file_groups results))).
  { unfold PyDict.wf. eapply Permutation_NoDup; [symmetry; exact Hp|].
    apply first_seen_NoDup. }
  repeat split.
  - exact Hwf.
  - exact Hp.
  - intros f. rewrite <- get_file_groups.
    destruct (PyDict.get f (file_groups results)) as [l|] eqn:E.
    + apply In_get; [exact Hwf|].
      eapply Permutation_in; [apply sorted_by_len_desc_perm|].
      now apply get_Some_In.
    + apply get_None_keys. apply get_None_keys in E. intros Hin. apply E.
      eapply Permutation_in; [|exact Hin].
      symmetry. apply Permutation_map, sorted_by_len_desc_perm.
  - apply sorted_by_len_desc_sorted.
  - intros n. apply sorted_by_len_desc_stable.
  - apply keys_file_groups.
Qed.

(** Match counts A: 5, B: 9, C: 2 give the key order B, A, C. *)
Example group_results_abc :
  PyDict.keys (group_results_by_file abc_results) = [lit "B"; lit "A"; lit "C"]
  /\ map group_size (group_results_by_file abc_results) = [9; 5; 2].
Proof. split; vm_compute; reflexivity. Qed.

End Aggregation.

(* ================================================================== *)
(** ** The prefilter *)

Section Prefilter.

Lemma like_match_percent_nil (pat : str) :
  like_match ("%"%char :: pat) [] = like_match pat [].
Proof. simpl. apply orb_false_r. Qed.

Lemma like_match_percent_cons (pat : str) (c : ascii) (t : str) :
  like_match ("%"%char :: pat) (c :: t) =
  like_match pat (c :: t) || like_match ("%"%char :: pat) t.
Proof. reflexivity. Qed.

Lemma like_match_char (p : ascii) (pat : str) (c : ascii) (t : str) :
  p <> "%"%char ->
  like_match (p :: pat) (c :: t) =
  (if ascii_dec p "_"%char then true
   else if ascii_dec (sql_fold p) (sql_fold c) then true else false)
  && like_match pat t.
Proof.
  intros H. simpl. destruct (ascii_dec p "%"); [contradiction|reflexivity].
Qed.

(** A leading [%] skips any prefix. *)
Lemma like_match_skip (pat a b : str) :
  like_match pat b = true -> like_match ("%"%char :: pat) (a ++ b) = true.
Proof.
  intros H. induction a as [|c a IH].
  - destruct b as [|c b].
    + now rewrite like_match_percent_nil.
    + simpl app. now rewrite like_match_percent_cons, H.
  - simpl app. rewrite like_match_percent_cons, IH. apply orb_true_r.
Qed.

Lemma like_match_trailing (b : str) : like_match (lit "%") b = true.
Proof.
  rewrite <- (app_nil_r b). apply like_match_skip. reflexivity.
Qed.

(** Every text matches itself followed by [%], wildcards included. *)
Lemma like_match_self (k b : str) :
  like_match (k ++ lit "%") (k ++ b) = true.
Proof.
  induction k as [|p k IH].
  - apply like_match_trailing.
  - change (like_match (p :: (k ++ lit "%")) (p :: (k ++ b)) = true).
    destruct (ascii_dec p "%"%char) as [->|Hp].
    + apply (like_match_skip (k ++ lit "%") ["%"%char] (k ++ b)). exact IH.
    + rewrite (like_match_char p (k ++ lit "%") p (k ++ b) Hp), IH.
      destruct (ascii_dec p "_"); [reflexivity|].
      destruct (ascii_dec (sql_fold p) (sql_fold p)); [reflexivity|congruence].
Qed.

(** Containment implies the match of the pattern built from it. *)
Lemma like_match_contains (k text : str) :
  str_in k text = true -> like_match (lit "%" ++ k ++ lit "%") text = true.
Proof.
  intros H. apply str_in_iff in H as (a & b & ->).
  apply (like_match_skip (k ++ lit "%") a (k ++ b)). apply like_match_self.
Qed.

(** A text without U+0000 is read whole. *)
Lemma c_string_nul_free (s : str) : nul_free s -> c_string s = s.
Proof.
  unfold nul_free. induction s as [|c s IH]; intros H; simpl; [reflexivity|].
  destruct (ascii_dec c zero) as [->|Hc].
  - exfalso. apply H. now left.
  - rewrite IH; [reflexivity|]. intros Hin. apply H. now right.
Qed.

Lemma c_string_has_no_nul (s : str) : nul_free (c_string s).
Proof.
  unfold nul_free. induction s as [|c s IH]; simpl; [tauto|].
  destruct (ascii_dec c zero) as [->|Hc]; simpl; [tauto|].
  intros [E|H]; [congruence | tauto].
Qed.

Lemma nul_free_app (a b : str) :
  nul_free (a ++ b) <-> nul_free a /\ nul_free b.
Proof. unfold nul_free. rewrite in_app_iff. tauto. Qed.

Lemma lower_char_zero (c : ascii) : lower_char c = zero -> c = zero.
Proof.
  destruct c as [[] [] [] [] [] [] [] []]; vm_compute; congruence.
Qed.

Lemma lower_nul_free (s : str) : nul_free s -> nul_free (lower s).
Proof.
  unfold nul_free, lower. intros H Hin.
  apply in_map_iff in Hin as (c & Hc & Hin).
  apply lower_char_zero in Hc. subst c. contradiction.
Qed.

Lemma join_nul_free (pages : list str) :
  nul_free_pages pages -> nul_free (join (lit " ") pages).
Proof.
  unfold nul_free_pages. induction pages as [|x rest IH]; intros H.
  - intros [].
  - destruct rest as [|y rest'].
    + apply H. now left.
    + change (join (lit " ") (x :: y :: rest'))
        with (x ++ lit " " ++ join (lit " ") (y :: rest')).
      apply nul_free_app. split; [apply H; now left|].
      apply nul_free_app. split.
      * intros [E|[]]. discriminate E.
      * apply IH. intros page Hp. apply H. now right.
Qed.

(** Containment in what [LIKE] reads of the text implies the [LIKE] of
    the pattern built from the keyword. *)
Lemma sql_like_contains (k text : str) :
  str_in k (c_string text) = true ->
  sql_like (lit "%" ++ k ++ lit "%") text = true.
Proof.
  intros H. unfold sql_like.
  assert (Hk : nul_free k).
  { apply str_in_iff in H as (a & b & E).
    pose proof (c_string_has_no_nul text) as Hn. rewrite E in Hn.
    apply nul_free_app in Hn as [_ Hn]. now apply nul_free_app in Hn as [Hn _]. }
  rewrite (c_string_nul_free (lit "%" ++ k ++ lit "%")).
  - now apply like_match_contains.
  - apply nul_free_app. split; [intros [E|[]]; discriminate E|].
    apply nul_free_app. split; [assumption|]. intros [E|[]]. discriminate E.
Qed.

(** The answer of the query, when there is one, is the list of the rows
    that match. *)
Lemma search_text_index_Some (rows : list index_row) (K : str)
    (cands : list str) :
  search_text_index (DbTable rows) K = Some cands ->
  cands = map filename
            (filter (fun r => sql_like (keyword_pattern K) (row_full_text r))
                    rows).
Proof.
  unfold search_text_index. destruct rows as [|r rows].
  - now intros [= <-].
  - destruct (N.ltb _ _); [discriminate|]. now intros [= <-].
Qed.

(** A pattern that is refused makes the query unavailable, unless the
    table is empty. *)
Lemma search_text_index_answers (rows : list index_row) (K : str) :
  search_text_index (DbTable rows) K <> None <->
  rows = [] \/
  (utf8_length (keyword_pattern K) <= SQLITE_MAX_LIKE_PATTERN_LENGTH)%N.
Proof.
  unfold search_text_index. destruct rows as [|r rows].
  - split; [now left | discriminate].
  - destruct (N.ltb_spec SQLITE_MAX_LIKE_PATTERN_LENGTH
                         (utf8_length (keyword_pattern K))) as [Hlt|Hge].
    + split; [congruence|]. intros [E|H]; [discriminate E | lia].
    + split; [now right | discriminate].
Qed.

Lemma In_insert_or_replace (r r' : index_row) (rows : list index_row) :
  In r (insert_or_replace r' rows) <->
  r = r' \/ (In r rows /\ filename r <> filename r').
Proof.
  unfold insert_or_replace. rewrite in_app_iff, filter_In, negb_true_iff,
    str_eqb_neq. simpl. intuition congruence.
Qed.

Lemma index_rows_fold (items : pdf_cache_t) : forall acc D v,
  D <> METADATA ->
  NoDup (map fst items) ->
  (In (D, v) items \/
   (In (row_of D v) acc /\ ~ In D (map fst items))) ->
  In (row_of D v)
     (fold_left
        (fun rows (item : str * cache_value) =>
           let (pdf_file, pages) := item in
           if str_eqb pdf_file METADATA then rows
           else insert_or_replace (row_of pdf_file pages) rows)
        items acc).
Proof.
  induction items as [|[k v0] items IH]; intros acc D v HD Hnd H; simpl.
  - destruct H as [[]|[H _]]. exact H.
  - inversion Hnd as [|? ? Hk Hnd']; subst.
    apply IH; [assumption | assumption |].
    destruct H as [[E|Hin]|[Hacc Hni]].
    + inversion E; subst. right. split.
      * assert (Ef : str_eqb D METADATA = false) by now apply str_eqb_neq.
        rewrite Ef. apply In_insert_or_replace. now left.
      * exact Hk.
    + now left.
    + right. simpl in Hni. split; [|tauto].
      destruct (str_eqb k METADATA); [assumption|].
      apply In_insert_or_replace. right. split; [assumption|].
      simpl. intros E. apply Hni. now left.
Qed.

(** Every document of the store has its row in the rebuilt index. *)
Lemma index_rows_complete (pdf_cache : pdf_cache_t) (D : str)
    (v : cache_value) :
  PyDict.wf pdf_cache -> D <> METADATA ->
  PyDict.get D pdf_cache = Some v ->
  In (row_of D v) (index_rows pdf_cache).
Proof.
  intros Hwf HD Hget. unfold index_rows.
  apply (index_rows_fold pdf_cache [] D v HD Hwf).
  left. now apply get_Some_In.
Qed.

(** The row of a document whose pages hold no U+0000 matches the pattern
    of every keyword that one of its pages contains. *)
Lemma row_matches_page (K : str) (v : cache_value) (page : str) :
  nul_free_pages (as_pages v) ->
  In page (as_pages v) ->
  str_in (lower K) (lower page) = true ->
  sql_like (keyword_pattern K) (lower (join (lit " ") (as_pages v))) = true.
Proof.
  intros Hnul Hpage Hin. unfold keyword_pattern. apply sql_like_contains.
  rewrite c_string_nul_free
    by (apply lower_nul_free; now apply join_nul_free).
  apply str_in_iff in Hin as (a & b & E).
  destruct (join_member (lit " ") _ _ Hpage) as (a' & b' & J).
  apply str_in_iff. exists (lower a' ++ a), (b ++ lower b').
  rewrite J, !lower_app, E. now rewrite <- !app_assoc.
Qed.

(** The candidates of an index rebuilt from the store include every
    document without U+0000 that has a page with the keyword. *)
Lemma candidates_complete (pdf_cache : pdf_cache_t) (K D : str)
    (v : cache_value) (page : str) (cands : list str) :
  PyDict.wf pdf_cache -> D <> METADATA ->
  PyDict.get D pdf_cache = Some v ->
  nul_free_pages (as_pages v) ->
  In page (as_pages v) ->
  str_in (lower K) (lower page) = true ->
  search_text_index (DbTable (index_rows pdf_cache)) K = Some cands ->
  In D cands.
Proof.
  intros Hwf HD Hget Hnul Hpage Hin Hq.
  apply search_text_index_Some in Hq. subst cands.
  apply in_map_iff. exists (row_of D v). split; [reflexivity|].
  apply filter_In. split; [now apply index_rows_complete|].
  change (row_full_text (row_of D v))
    with (lower (join (lit " ") (as_pages v))).
  now apply (row_matches_page K v page).
Qed.

(** C1. The prefilter does exclude a document that contains the keyword:
    in a store with a page ["ab<U+0000> hello there"] in nul.pdf, the
    per-page test finds ["hello"] on that page, the index rebuilt from
    the store answers the query for ["hello"], and its answer names
    ok.pdf only, since [LIKE] reads the text of nul.pdf up to U+0000.
    The search without an index returns the record of nul.pdf, the
    search with the index does not. *)
Theorem prefilter_misses_nul_page :
  PyDict.get (lit "nul.pdf") nul_cache = Some (Pages [nul_page]) /\
  str_in (lower (lit "hello")) (lower nul_page) = true /\
  create_text_index_db DbAbsent nul_cache
    = Some (DbTable (index_rows nul_cache)) /\
  search_text_index (DbTable (index_rows nul_cache)) (lit "hello")
    = Some [lit "ok.pdf"] /\
  option_map (map (fun r => (file r, page_number r)))
    (snd (smart_search DbAbsent [] (lit "hello") nul_cache))
    = Some [(lit "nul.pdf", 1); (lit "ok.pdf", 1)] /\
  option_map (map (fun r => (file r, page_number r)))
    (snd (smart_search (DbTable (index_rows nul_cache)) []
            (lit "hello") nul_cache))
    = Some [(lit "ok.pdf", 1)].
Proof. repeat split; vm_compute; reflexivity. Qed.

Lemma NoDup_str_dec (l : list str) : {NoDup l} + {~ NoDup l}.
Proof.
  induction l as [|x l [IH|IH]].
  - left. constructor.
  - destruct (in_dec str_eq_dec x l) as [Hin|Hni].
    + right. intros H. inversion H; contradiction.
    + left. now constructor.
  - right. intros H. inversion H; contradiction.
Defined.

End Prefilter.

(* ================================================================== *)
(** ** Batch processing *)

Section Batch.

Variable w : world.

Ltac dict_simpl :=
  repeat (rewrite get_set_same || rewrite get_set_other by congruence).

#[local] Abbreviation bn := OsPath.basename.

Lemma task_pages_view (k : nat) (c : pdf_cache_t) (p n : str) :
  bn p <> METADATA -> n <> METADATA ->
  PyDict.get n (complete_task w k c p) =
  if str_eq_dec n (bn p) then Some (Pages (extract_pdf_text_pdfplumber w p))
  else PyDict.get n c.
Proof.
  intros Hp Hn. unfold complete_task, get_file_modification_time.
  destruct (getmtime w p);
    [destruct (PyDict.get METADATA _) as [[|md]|]|];
    destruct (str_eq_dec n (bn p)) as [->|Hne]; now dict_simpl.
Qed.

Lemma task_meta_frame (k : nat) (c : pdf_cache_t) (p n : str) :
  bn p <> METADATA -> n <> bn p ->
  meta_get n (complete_task w k c p) = meta_get n c.
Proof.
  intros Hp Hn. unfold meta_get, complete_task, get_file_modification_time.
  destruct (getmtime w p).
  - rewrite (get_set_other _ (bn p) METADATA) by congruence.
    destruct (PyDict.get METADATA c) as [[|md]|] eqn:E; dict_simpl;
      rewrite ?E; reflexivity.
  - now dict_simpl.
Qed.

Lemma task_typed (k : nat) (c : pdf_cache_t) (p : str) :
  bn p <> METADATA -> typed c -> typed (complete_task w k c p).
Proof.
  intros Hp [md E]. unfold typed, complete_task, get_file_modification_time.
  destruct (getmtime w p).
  - rewrite (get_set_other _ (bn p) METADATA) by congruence. rewrite E.
    eexists. now dict_simpl.
  - exists md. now dict_simpl.
Qed.

Lemma task_mtime_view (k : nat) (c : pdf_cache_t) (p n : str) :
  bn p <> METADATA -> typed c ->
  mtime_view (complete_task w k c p) n =
  if str_eq_dec n (bn p)
  then match getmtime w p with
       | Some m => Some (Some m)
       | None => mtime_view c n
       end
  else mtime_view c n.
Proof.
  intros Hp [md E].
  destruct (str_eq_dec n (bn p)) as [->|Hne].
  2:{ unfold mtime_view. now rewrite task_meta_frame. }
  unfold mtime_view, meta_get, complete_task, get_file_modification_time.
  destruct (getmtime w p).
  - rewrite (get_set_other _ (bn p) METADATA) by congruence. rewrite E.
    now dict_simpl.
  - now dict_simpl.
Qed.

(** The record written for a completed task. *)
Lemma task_meta_self (k : nat) (c : pdf_cache_t) (p : str) (m : Z) :
  bn p <> METADATA -> typed c -> getmtime w p = Some m ->
  meta_get (bn p) (complete_task w k c p) =
  Some {| mtime := Some m; processed_at := Some (now w k) |}.
Proof.
  intros Hp [md E] Hm.
  unfold meta_get, complete_task, get_file_modification_time. rewrite Hm.
  rewrite (get_set_other _ (bn p) METADATA) by congruence. rewrite E.
  now dict_simpl.
Qed.

Lemma same_entries_refl (c : pdf_cache_t) : typed c -> same_entries c c.
Proof. intros H. repeat split; auto. Qed.

Lemma same_entries_trans (c1 c2 c3 : pdf_cache_t) :
  same_entries c1 c2 -> same_entries c2 c3 -> same_entries c1 c3.
Proof.
  intros (T1 & T2 & P12 & M12) (_ & T3 & P23 & M23).
  repeat split; auto.
  - intros n Hn. now rewrite P12, P23.
  - intros n. now rewrite M12, M23.
Qed.

(** The same task on two agreeing stores, at different times. *)
Lemma task_same_entries (k1 k2 : nat) (c1 c2 : pdf_cache_t) (p : str) :
  bn p <> METADATA -> same_entries c1 c2 ->
  same_entries (complete_task w k1 c1 p) (complete_task w k2 c2 p).
Proof.
  intros Hp (T1 & T2 & P & M).
  split; [now apply task_typed|]. split; [now apply task_typed|]. split.
  - intros n Hn. rewrite !task_pages_view by assumption.
    destruct (str_eq_dec n (bn p)); auto.
  - intros n. rewrite !task_mtime_view by assumption.
    destruct (str_eq_dec n (bn p)); [destruct (getmtime w p)|]; auto.
Qed.

(** Two tasks for different file names commute. *)
Lemma task_swap (k1 k2 k3 k4 : nat) (c1 c2 : pdf_cache_t) (x y : str) :
  bn x <> METADATA -> bn y <> METADATA -> bn x <> bn y ->
  same_entries c1 c2 ->
  same_entries (complete_task w k2 (complete_task w k1 c1 y) x)
               (complete_task w k4 (complete_task w k3 c2 x) y).
Proof.
  intros Hx Hy Hxy (T1 & T2 & P & M).
  split; [now repeat apply task_typed|].
  split; [now repeat apply task_typed|]. split.
  - intros n Hn. rewrite !task_pages_view by assumption.
    destruct (str_eq_dec n (bn x)), (str_eq_dec n (bn y)); auto; congruence.
  - intros n. rewrite !task_mtime_view by (try apply task_typed; assumption).
    destruct (str_eq_dec n (bn x)), (str_eq_dec n (bn y));
      try congruence; repeat destruct (getmtime w _); auto.
Qed.

Lemma complete_all_same_list (ps : list str) :
  forall k1 k2 c1 c2,
    ~ In METADATA (map bn ps) -> same_entries c1 c2 ->
    same_entries (complete_all w k1 ps c1) (complete_all w k2 ps c2).
Proof.
  induction ps as [|p ps IH]; intros k1 k2 c1 c2 Hm H; simpl; [assumption|].
  simpl in Hm. apply IH; [tauto|]. apply task_same_entries; [|assumption].
  intros E. apply Hm. left. assumption.
Qed.

(** Completion order does not matter for file names that are pairwise
    distinct. *)
Lemma complete_all_perm (ps1 ps2 : list str) :
  Permutation ps1 ps2 ->
  NoDup (map bn ps1) -> ~ In METADATA (map bn ps1) ->
  forall k1 k2 c1 c2,
    same_entries c1 c2 ->
    same_entries (complete_all w k1 ps1 c1) (complete_all w k2 ps2 c2).
Proof.
  induction 1 as [|x l l' Hperm IH|x y l|l l' l'' H1 IH1 H2 IH2];
    intros Hnd Hm k1 k2 c1 c2 H.
  - assumption.
  - simpl in *. inversion Hnd; subst. apply IH; [assumption | tauto |].
    apply task_same_entries; [|assumption]. intros E. apply Hm. now left.
  - simpl in *. inversion Hnd as [|? ? Hy Hnd']; subst.
    inversion Hnd' as [|? ? Hx Hnd'']; subst.
    apply complete_all_same_list; [tauto|].
    apply task_swap; try assumption.
    + intros E. apply Hm. right. now left.
    + intros E. apply Hm. now left.
    + intros E. apply Hy. left. assumption.
  - assert (Hnd' : NoDup (map bn l')).
    { eapply Permutation_NoDup; [apply Permutation_map; exact H1 | exact Hnd]. }
    assert (Hm' : ~ In METADATA (map bn l')).
    { intros Hin. apply Hm. eapply Permutation_in; [|exact Hin].
      symmetry. now apply Permutation_map. }
    eapply same_entries_trans.
    + apply (IH1 Hnd Hm k1 k1 c1 c2 H).
    + apply (IH2 Hnd' Hm' k1 k2 c2 c2). apply same_entries_refl. apply H.
Qed.

(** What the batch touches: nothing outside the names of its files. *)
Lemma complete_all_frame (ps : list str) : forall k c n,
  ~ In METADATA (map bn ps) -> ~ In n (map bn ps) ->
  (n <> METADATA -> PyDict.get n (complete_all w k ps c) = PyDict.get n c) /\
  meta_get n (complete_all w k ps c) = meta_get n c.
Proof.
  induction ps as [|p ps IH]; intros k c n Hm Hn; simpl; [tauto|].
  simpl in Hm, Hn.
  destruct (IH (S k) (complete_task w k c p) n) as [IHp IHm]; [tauto|tauto|].
  split.
  - intros Hne. rewrite IHp by assumption.
    rewrite task_pages_view by tauto.
    destruct (str_eq_dec n (bn p)); [subst; tauto | reflexivity].
  - rewrite IHm. apply task_meta_frame; [tauto|].
    intros E. apply Hn. left. congruence.
Qed.

Lemma complete_all_typed (ps : list str) : forall k c,
  ~ In METADATA (map bn ps) -> typed c -> typed (complete_all w k ps c).
Proof.
  induction ps as [|p ps IH]; intros k c Hm T; simpl; [assumption|].
  simpl in Hm. apply IH; [tauto|]. apply task_typed; [tauto | assumption].
Qed.

(** The entry of a task of the batch, when no other task has its name. *)
Lemma complete_all_self (ps : list str) : forall k c p,
  In p ps -> NoDup (map bn ps) -> ~ In METADATA (map bn ps) -> typed c ->
  PyDict.get (bn p) (complete_all w k ps c) =
    Some (Pages (extract_pdf_text_pdfplumber w p)) /\
  (forall m, getmtime w p = Some m ->
     mtime_view (complete_all w k ps c) (bn p) = Some (Some m)).
Proof.
  induction ps as [|q ps IH]; intros k c p Hin Hnd Hm T; [contradiction|].
  simpl in *. inversion Hnd as [|? ? Hq Hnd']; subst.
  assert (Hqm : bn q <> METADATA) by tauto.
  assert (Hpm : bn p <> METADATA).
  { destruct Hin as [->|Hin]; [assumption|].
    intros E. apply Hm. right. rewrite <- E. now apply in_map. }
  destruct (in_dec str_eq_dec p ps) as [Hps|Hps].
  - apply IH; try assumption; [tauto | now apply task_typed].
  - destruct Hin as [->|Hin]; [|contradiction].
    destruct (complete_all_frame ps (S k) (complete_task w k c p) (bn p))
      as [Fp Fm]; [tauto | assumption |].
    split.
    + rewrite Fp by assumption. rewrite task_pages_view by assumption.
      destruct (str_eq_dec (bn p) (bn p)); congruence.
    + intros m Hmt. unfold mtime_view. rewrite Fm.
      now rewrite (task_meta_self k c p m).
Qed.

(** The store on which the loop starts. *)
Lemma batch_start_typed (c : pdf_cache_t) (md : PyDict.dict meta_record) :
  cache_metadata_of c = Some md ->
  typed (if PyDict.contains METADATA c then c
         else PyDict.set METADATA (Metadata []) c).
Proof.
  unfold cache_metadata_of, PyDict.contains, typed.
  destruct (PyDict.get METADATA c) as [[|md']|] eqn:E; intros H.
  - discriminate.
  - now exists md'.
  - exists []. now dict_simpl.
Qed.

Lemma batch_start_frame (c : pdf_cache_t) (n : str) :
  let c0 := if PyDict.contains METADATA c then c
            else PyDict.set METADATA (Metadata []) c in
  (n <> METADATA -> PyDict.get n c0 = PyDict.get n c) /\
  meta_get n c0 = meta_get n c.
Proof.
  simpl. unfold PyDict.contains, meta_get.
  destruct (PyDict.get METADATA c) as [v|] eqn:E.
  - split; [reflexivity | now rewrite ?E].
  - split; [intros Hn; now dict_simpl|]. now dict_simpl.
Qed.

End Batch.

Section BatchTheorems.

Variable w : world.

#[local] Abbreviation bn := OsPath.basename.

Lemma complete_task_wf (k : nat) (c : pdf_cache_t) (p : str) :
  PyDict.wf c -> PyDict.wf (complete_task w k c p).
Proof.
  intros H. unfold complete_task.
  destruct (get_file_modification_time w p);
    [destruct (PyDict.get METADATA _) as [[|md]|]|]; auto with pydict.
Qed.

Lemma complete_all_wf (ps : list str) : forall k c,
  PyDict.wf c -> PyDict.wf (complete_all w k ps c).
Proof.
  induction ps as [|p ps IH]; intros k c H; simpl; [assumption|].
  apply IH. now apply complete_task_wf.
Qed.

Lemma process_pdfs_batch_wf (ps : list str) (c : pdf_cache_t) :
  PyDict.wf c -> PyDict.wf (process_pdfs_batch w ps c).
Proof.
  intros H. destruct ps as [|p ps]; [assumption|].
  unfold process_pdfs_batch. apply complete_all_wf.
  destruct (PyDict.contains METADATA c); auto with pydict.
Qed.

Lemma same_entries_keys (c1 c2 : pdf_cache_t) :
  same_entries c1 c2 ->
  forall n, In n (PyDict.keys c1) <-> In n (PyDict.keys c2).
Proof.
  intros ([md1 T1] & [md2 T2] & P & _) n.
  destruct (str_eq_dec n METADATA) as [->|Hn].
  - split; intros _; eapply get_Some_keys; eauto.
  - specialize (P n Hn).
    destruct (in_dec str_eq_dec n (PyDict.keys c1)) as [H1|H1],
             (in_dec str_eq_dec n (PyDict.keys c2)) as [H2|H2]; try tauto.
    + apply get_None_keys in H2. rewrite <- P in H2.
      apply get_None_keys in H2. tauto.
    + apply get_None_keys in H1. rewrite P in H1.
      apply get_None_keys in H1. tauto.
Qed.

Lemma process_pdfs_batch_perm (order1 order2 : list str) (c : pdf_cache_t)
    (md0 : PyDict.dict meta_record) :
  Permutation order1 order2 ->
  order1 <> [] ->
  NoDup (map bn order1) -> ~ In METADATA (map bn order1) ->
  cache_metadata_of c = Some md0 ->
  same_entries (process_pdfs_batch w order1 c) (process_pdfs_batch w order2 c).
Proof.
  intros Hperm Hne Hnd Hm Hmd.
  destruct order1 as [|p1 o1]; [congruence|].
  destruct order2 as [|p2 o2].
  { apply Permutation_sym, Permutation_nil in Hperm. discriminate. }
  unfold process_pdfs_batch.
  apply complete_all_perm; try assumption.
  apply same_entries_refl. eapply batch_start_typed; eauto.
Qed.

(** The record written for the task that completes at position [i]. *)
Lemma complete_all_record (ps : list str) : forall k c i p m,
  nth_error ps i = Some p ->
  NoDup (map bn ps) -> ~ In METADATA (map bn ps) -> typed c ->
  getmtime w p = Some m ->
  meta_get (bn p) (complete_all w k ps c) =
  Some {| mtime := Some m; processed_at := Some (now w (k + i)) |}.
Proof.
  induction ps as [|q ps IH]; intros k c i p m Hi Hnd Hm T Hmt.
  - destruct i; discriminate Hi.
  - cbn [map] in Hnd, Hm. apply NoDup_cons_iff in Hnd as [Hq Hnd].
    assert (Hqm : bn q <> METADATA) by (intros E; apply Hm; now left).
    assert (Hm' : ~ In METADATA (map bn ps))
      by (intros H; apply Hm; now right).
    cbn [complete_all]. destruct i as [|i].
    + injection Hi as ->. rewrite Nat.add_0_r.
      rewrite (proj2 (complete_all_frame w ps (S k) (complete_task w k c p)
                        (bn p) Hm' Hq)).
      now apply task_meta_self.
    + cbn [nth_error] in Hi.
      rewrite (IH (S k) (complete_task w k c q) i p m Hi Hnd Hm'
                 (task_typed w k c q Hqm T) Hmt).
      now rewrite Nat.add_succ_r.
Qed.

(** A name for which no task reads a modification time keeps its
    record. *)
Lemma complete_all_keeps_record (ps : list str) (n : str) : forall k c,
  ~ In METADATA (map bn ps) ->
  (forall p, In p ps -> bn p = n -> getmtime w p = None) ->
  meta_get n (complete_all w k ps c) = meta_get n c.
Proof.
  induction ps as [|q ps IH]; intros k c Hm Hn; [reflexivity|].
  cbn [map] in Hm. cbn [complete_all].
  rewrite IH.
  - destruct (str_eq_dec n (bn q)) as [E|E].
    + unfold complete_task, get_file_modification_time.
      rewrite (Hn q (or_introl eq_refl) (eq_sym E)).
      unfold meta_get. rewrite get_set_other; [reflexivity|].
      intros E'. apply Hm. left. now rewrite E'.
    + apply task_meta_frame; [|assumption].
      intros E'. apply Hm. now left.
  - intros H. apply Hm. now right.
  - intros p Hp. apply Hn. now right.
Qed.

(** C5. For a batch whose files have pairwise distinct names, none of them
    the reserved key, and a store whose metadata is a dictionary or
    missing, any two completion orders of [process_pdfs_batch] end in
    stores with the same keys, the same page sequences and the same
    recorded modification time for every file name.  In every completion
    order, the record of a file whose modification time can be read
    holds that time and, as [processed_at], the clock reading at the
    completion of its own task, which depends on the order; the record
    of every other name is the one the store had. *)
Theorem batch_order_independent (batch order1 order2 : list str)
    (pdf_cache : pdf_cache_t) (md0 : PyDict.dict meta_record) :
  Permutation batch order1 -> Permutation batch order2 ->
  NoDup (map bn batch) -> ~ In METADATA (map bn batch) ->
  PyDict.wf pdf_cache ->
  cache_metadata_of pdf_cache = Some md0 ->
  let c1 := process_pdfs_batch w order1 pdf_cache in
  let c2 := process_pdfs_batch w order2 pdf_cache in
  Permutation (PyDict.keys c1) (PyDict.keys c2) /\
  (forall n, n <> METADATA -> PyDict.get n c1 = PyDict.get n c2) /\
  (forall n, mtime_view c1 n = mtime_view c2 n) /\
  (forall order i p m,
     Permutation batch order ->
     nth_error order i = Some p -> getmtime w p = Some m ->
     meta_get (bn p) (process_pdfs_batch w order pdf_cache)
     = Some {| mtime := Some m; processed_at := Some (now w i) |}) /\
  (forall order n,
     Permutation batch order ->
     (forall p, In p batch -> bn p = n -> getmtime w p = None) ->
     meta_get n (process_pdfs_batch w order pdf_cache)
     = meta_get n pdf_cache).
Proof.
  intros H1 H2 Hnd Hm Hwf Hmd c1 c2. subst c1 c2.
  assert (Hany : forall order, Permutation batch order ->
            NoDup (map bn order) /\ ~ In METADATA (map bn order)).
  { intros order Ho. split.
    - eapply Permutation_NoDup; [apply Permutation_map; exact Ho | exact Hnd].
    - intros Hin. apply Hm. eapply Permutation_in; [|exact Hin].
      symmetry. now apply Permutation_map. }
  assert (Hrec : forall order i p m,
            Permutation batch order ->
            nth_error order i = Some p -> getmtime w p = Some m ->
            meta_get (bn p) (process_pdfs_batch w order pdf_cache)
            = Some {| mtime := Some m; processed_at := Some (now w i) |}).
  { intros order i p m Ho Hi Hmt. destruct (Hany order Ho) as [Hndo Hmo].
    destruct order as [|q order']; [destruct i; discriminate Hi|].
    unfold process_pdfs_batch.
    now rewrite (complete_all_record (q :: order') 0 _ i p m Hi Hndo Hmo
                   (batch_start_typed pdf_cache md0 Hmd) Hmt). }
  assert (Hkeep : forall order n,
            Permutation batch order ->
            (forall p, In p batch -> bn p = n -> getmtime w p = None) ->
            meta_get n (process_pdfs_batch w order pdf_cache)
            = meta_get n pdf_cache).
  { intros order n Ho Hn. destruct (Hany order Ho) as [_ Hmo].
    destruct order as [|q order']; [reflexivity|].
    unfold process_pdfs_batch.
    rewrite (complete_all_keeps_record (q :: order') n 0 _ Hmo).
    - apply (batch_start_frame pdf_cache n).
    - intros p Hp. apply Hn. eapply Permutation_in; [|exact Hp].
      now symmetry. }
  destruct batch as [|p batch'] eqn:Eb.
  { apply Permutation_nil in H1, H2. subst. simpl.
    repeat split; auto. }
  rewrite <- Eb in *.
  assert (H12 : Permutation order1 order2)
    by (etransitivity; [symmetry; exact H1 | exact H2]).
  assert (Hne : order1 <> []).
  { intros ->. apply Permutation_sym, Permutation_nil in H1. congruence. }
  destruct (Hany order1 H1) as [Hnd1 Hm1].
  pose proof (process_pdfs_batch_perm order1 order2 pdf_cache md0
                H12 Hne Hnd1 Hm1 Hmd) as HS.
  split; [|split; [apply HS | split; [apply HS | split; assumption]]].
  apply NoDup_Permutation.
  - now apply process_pdfs_batch_wf.
  - now apply process_pdfs_batch_wf.
  - now apply same_entries_keys.
Qed.

Lemma typed_metadata (c : pdf_cache_t) :
  typed c ->
  exists md, cache_metadata_of c = Some md /\
             forall n, meta_get n c = PyDict.get n md.
Proof.
  intros [md E]. exists md. unfold cache_metadata_of, meta_get.
  now rewrite E.
Qed.

(** Whatever [check_for_updates] selects is strictly newer than its
    record. *)
Lemma check_for_updates_loop_sound (md : PyDict.dict meta_record)
    (pdf_files : list str) : forall updated F,
  check_for_updates_loop w (Some md) pdf_files = Some updated ->
  In F updated ->
  In F pdf_files /\
  exists m, getmtime w F = Some m /\ (cached_mtime_of md (bn F) < m)%Z.
Proof.
  induction pdf_files as [|p rest IH]; intros updated F; simpl.
  - intros [= <-] [].
  - unfold get_file_modification_time.
    destruct (getmtime w p) as [m|] eqn:Hm; [|discriminate].
    destruct (check_for_updates_loop w (Some md) rest) as [upd|];
      [|discriminate].
    intros [= <-] Hin.
    destruct (Z.ltb_spec (cached_mtime_of md (bn p)) m) as [Hlt|Hge].
    + destruct Hin as [<-|Hin].
      * split; [now left | now exists m].
      * destruct (IH upd F eq_refl Hin). split; [now right | assumption].
    + destruct (IH upd F eq_refl Hin). split; [now right | assumption].
Qed.

Lemma process_pdfs_batch_self (completed : list str) (c : pdf_cache_t)
    (md0 : PyDict.dict meta_record) (p : str) :
  In p completed ->
  NoDup (map bn completed) -> ~ In METADATA (map bn completed) ->
  cache_metadata_of c = Some md0 ->
  let after := process_pdfs_batch w completed c in
  typed after /\
  PyDict.get (bn p) after = Some (Pages (extract_pdf_text_pdfplumber w p)) /\
  (forall m, getmtime w p = Some m -> mtime_view after (bn p) = Some (Some m)).
Proof.
  intros Hin Hnd Hm Hmd. simpl.
  destruct completed as [|q ps]; [contradiction|].
  unfold process_pdfs_batch.
  assert (T : typed (if PyDict.contains METADATA c then c
                     else PyDict.set METADATA (Metadata []) c))
    by (eapply batch_start_typed; eauto).
  split; [now apply complete_all_typed|].
  now apply complete_all_self.
Qed.

(** C2. A document that cannot be read yields the empty sequence, and
    the batch stores it like any other result: after the batch (file
    names pairwise distinct, modification time readable) the store holds
    the empty page list under its name and the metadata records its live
    modification time, so the next pass selects it neither as updated nor
    as new. *)
Theorem failed_document_is_cached (completed : list str)
    (pdf_cache : pdf_cache_t) (md0 : PyDict.dict meta_record)
    (p : str) (m : Z) :
  pdf_open w p = None ->
  getmtime w p = Some m ->
  In p completed ->
  NoDup (map bn completed) -> ~ In METADATA (map bn completed) ->
  cache_metadata_of pdf_cache = Some md0 ->
  let after := process_pdfs_batch w completed pdf_cache in
  extract_pdf_text_pdfplumber w p = [] /\
  PyDict.get (bn p) after = Some (Pages []) /\
  mtime_view after (bn p) = Some (Some m) /\
  (forall files updated,
     check_for_updates w files after = Some updated -> ~ In p updated) /\
  (forall files, ~ In p (new_files files after)).
Proof.
  intros Hopen Hmt Hin Hnd Hm Hmd after.
  assert (Hex : extract_pdf_text_pdfplumber w p = []).
  { unfold extract_pdf_text_pdfplumber. now rewrite Hopen. }
  destruct (process_pdfs_batch_self completed pdf_cache md0 p Hin Hnd Hm Hmd)
    as (T & Hget & Hview).
  fold after in T, Hget, Hview. rewrite Hex in Hget.
  specialize (Hview m Hmt).
  repeat split; try assumption.
  - intros files updated Hupd Hp.
    destruct (typed_metadata after T) as (md & Emd & Eget).
    unfold check_for_updates in Hupd. rewrite Emd in Hupd.
    destruct (check_for_updates_loop_sound md files updated p Hupd Hp)
      as (_ & m' & Hm' & Hlt).
    rewrite Hmt in Hm'. injection Hm' as <-.
    unfold mtime_view in Hview. rewrite Eget in Hview.
    unfold cached_mtime_of in Hlt.
    destruct (PyDict.get (bn p) md) as [r|]; [|discriminate].
    simpl in Hview. injection Hview as Hr. rewrite Hr in Hlt. lia.
  - intros files Hp. unfold new_files in Hp. apply filter_In in Hp as [_ Hc].
    unfold PyDict.contains in Hc. now rewrite Hget in Hc.
Qed.

End BatchTheorems.

Lemma failed_document_is_cached_witness :
  PyDict.get (lit "bad.pdf")
    (process_pdfs_batch unreadable_world [lit "/pdf/bad.pdf"] [])
  = Some (Pages []).
Proof.
  apply (failed_document_is_cached unreadable_world [lit "/pdf/bad.pdf"] []
           [] (lit "/pdf/bad.pdf") 100%Z).
  - reflexivity.
  - reflexivity.
  - now left.
  - repeat constructor. simpl. tauto.
  - simpl. intros [H|[]]. discriminate H.
  - reflexivity.
Defined.

(** The store after a batch with an unreadable document does hold an
    entry for it: the statement that it leaves no trace fails. *)
Lemma failed_document_not_retried :
  ~ failed_document_retried unreadable_world [lit "/pdf/bad.pdf"] []
      (lit "/pdf/bad.pdf").
Proof.
  intros (_ & H & _). vm_compute in H. discriminate H.
Qed.

Example unreadable_next_pass :
  let after := process_pdfs_batch unreadable_world [lit "/pdf/bad.pdf"] [] in
  after = [ (METADATA,
             Metadata [(lit "bad.pdf",
                        {| mtime := Some 100%Z;
                           processed_at := Some (lit "2024-01-01T10:00:00") |})]);
            (lit "bad.pdf", Pages []) ]
  /\ check_for_updates unreadable_world [lit "/pdf/bad.pdf"] after = Some []
  /\ new_files [lit "/pdf/bad.pdf"] after = [].
Proof. cbv zeta. split; [|split]; vm_compute; reflexivity. Qed.

Lemma batch_order_independent_witness :
  let c1 := process_pdfs_batch two_roots_world
              [lit "/a/x.pdf"; lit "/a/y.pdf"] [] in
  let c2 := process_pdfs_batch two_roots_world
              [lit "/a/y.pdf"; lit "/a/x.pdf"] [] in
  (Permutation (PyDict.keys c1) (PyDict.keys c2) /\
   (forall n, n <> METADATA -> PyDict.get n c1 = PyDict.get n c2) /\
   (forall n, mtime_view c1 n = mtime_view c2 n)) /\
  meta_get (lit "x.pdf") c1
    = Some {| mtime := Some 100%Z;
              processed_at := Some (now two_roots_world 0) |} /\
  meta_get (lit "x.pdf") c2
    = Some {| mtime := Some 100%Z;
              processed_at := Some (now two_roots_world 1) |}.
Proof.
  destruct (batch_order_independent two_roots_world
              [lit "/a/x.pdf"; lit "/a/y.pdf"]
              [lit "/a/x.pdf"; lit "/a/y.pdf"]
              [lit "/a/y.pdf"; lit "/a/x.pdf"] [] [])
    as (Hk & Hp & Hv & Hrec & _).
  - apply Permutation_refl.
  - apply perm_swap.
  - repeat constructor; simpl; [intros [H|[]]; discriminate H | tauto].
  - simpl. intros [H|[H|[]]]; discriminate H.
  - constructor.
  - reflexivity.
  - cbv zeta. split; [split; [exact Hk | split; [exact Hp | exact Hv]]|].
    split.
    + apply (Hrec [lit "/a/x.pdf"; lit "/a/y.pdf"] 0 (lit "/a/x.pdf") 100%Z);
        [apply Permutation_refl | reflexivity | reflexivity].
    + apply (Hrec [lit "/a/y.pdf"; lit "/a/x.pdf"] 1 (lit "/a/x.pdf") 100%Z);
        [apply perm_swap | reflexivity | reflexivity].
Defined.

(** Completion order does matter: for two files of the same name the last
    one to complete wins, and the time stamp of a record is the clock
    reading at completion. *)
Lemma batch_order_dependent :
  ~ completion_order_independent two_roots_world
      [lit "/a/x.pdf"; lit "/b/x.pdf"] [] /\
  ~ completion_order_independent two_roots_world
      [lit "/a/x.pdf"; lit "/a/y.pdf"] [].
Proof.
  split; intros H.
  - specialize (H [lit "/a/x.pdf"; lit "/b/x.pdf"]
                  [lit "/b/x.pdf"; lit "/a/x.pdf"]
                  (Permutation_refl _) (perm_swap _ _ _)).
    destruct H as (_ & H & _).
    specialize (H (lit "x.pdf")). vm_compute in H.
    assert (E : Some (Pages (lit "text of b" :: nil))
                = Some (Pages (lit "text of a" :: nil))).
    { apply H. discriminate. }
    vm_compute in E. discriminate E.
  - specialize (H [lit "/a/x.pdf"; lit "/a/y.pdf"]
                  [lit "/a/y.pdf"; lit "/a/x.pdf"]
                  (Permutation_refl _) (perm_swap _ _ _)).
    destruct H as (_ & _ & H).
    specialize (H (lit "x.pdf")). vm_compute in H. discriminate H.
Qed.

(* ================================================================== *)
(** ** Cache persistence *)

Section PersistenceFacts.

Variable bytes : Type.
Variable pickle_dumps : pdf_cache_t -> bytes.
Variable pickle_loads : bytes -> option pdf_cache_t.

(** The contract of the pickle library. *)
Hypothesis pickle_round_trip :
  forall data, pickle_loads (pickle_dumps data) = Some data.

Lemma save_cache_content (st : storage bytes) (data : pdf_cache_t)
    (cache_file : str) :
  writable st cache_file = true ->
  content (save_cache pickle_dumps st data cache_file) cache_file
  = Some (pickle_dumps data).
Proof.
  intros Hw. unfold save_cache. rewrite Hw. simpl.
  destruct (str_eq_dec cache_file cache_file); congruence.
Qed.

Lemma save_cache_memo (st : storage bytes) (data : pdf_cache_t)
    (cache_file : str) :
  memo (save_cache pickle_dumps st data cache_file) = memo st.
Proof. unfold save_cache. now destruct (writable st cache_file). Qed.

Lemma load_body_after_save (st : storage bytes) (data : pdf_cache_t)
    (cache_file : str) :
  writable st cache_file = true ->
  load_cached_data_body pickle_loads
    (save_cache pickle_dumps st data cache_file) cache_file = data.
Proof.
  intros Hw. unfold load_cached_data_body.
  now rewrite save_cache_content, pickle_round_trip.
Qed.

(** C7. When the cache file can be written and [st.cache_data] holds no
    memoised result of [load_cached_data] for it, loading after saving
    returns the saved store, whatever the store is; and the load
    memoises that store. *)
Theorem load_after_save (st : storage bytes) (data : pdf_cache_t)
    (cache_file : str) :
  writable st cache_file = true ->
  PyDict.get cache_file (memo st) = None ->
  let (loaded, st') :=
    load_cached_data pickle_loads
      (save_cache pickle_dumps st data cache_file) cache_file in
  loaded = data /\ PyDict.get cache_file (memo st') = Some data.
Proof.
  intros Hw Hmemo. unfold load_cached_data.
  rewrite save_cache_memo, Hmemo.
  rewrite load_body_after_save by assumption.
  split; [reflexivity|]. simpl. apply get_set_same.
Qed.

(** A memoised result is returned whatever the file holds. *)
Lemma load_memoised (st : storage bytes) (old data : pdf_cache_t)
    (cache_file : str) :
  PyDict.get cache_file (memo st) = Some old ->
  fst (load_cached_data pickle_loads
         (save_cache pickle_dumps st data cache_file) cache_file) = old.
Proof.
  intros Hmemo. unfold load_cached_data. now rewrite save_cache_memo, Hmemo.
Qed.

End PersistenceFacts.

Lemma load_after_save_witness :
  let (loaded, st') :=
    load_cached_data (@Some pdf_cache_t)
      (save_cache (fun d => d) fresh_storage alpha_beta_cache CACHE_FILE)
      CACHE_FILE in
  loaded = alpha_beta_cache /\
  PyDict.get CACHE_FILE (memo st') = Some alpha_beta_cache.
Proof.
  apply (load_after_save pdf_cache_t (fun d => d) (@Some pdf_cache_t)
           (fun d => eq_refl) fresh_storage alpha_beta_cache CACHE_FILE).
  - reflexivity.
  - reflexivity.
Defined.

(** In a process that has already called [load_cached_data()], the call
    after [save_cache] returns the result memoised by the first call, not
    the store that was saved. *)
Lemma load_after_save_stale :
  ~ round_trip (fun d => d) (@Some pdf_cache_t) storage_after_first_load
      alpha_beta_cache CACHE_FILE.
Proof. unfold round_trip. vm_compute. discriminate. Qed.

(* ================================================================== *)
(** ** Scanning for matches *)

Section Scanning.

Variable pat : str.

Lemma match_at_0 (s : str) : match_at pat s 0 = startswith pat s.
Proof. reflexivity. Qed.

Lemma match_at_S (c : ascii) (s : str) (j : nat) :
  match_at pat (c :: s) (S j) = match_at pat s j.
Proof. reflexivity. Qed.

Lemma match_at_nil (j : nat) :
  pat <> [] -> match_at pat [] j = false.
Proof.
  intros Hp. unfold match_at. destruct j; simpl; [|reflexivity].
  destruct pat; [congruence | reflexivity].
Qed.

Lemma match_at_bound (s : str) (q : nat) :
  match_at pat s q = true -> q + length pat <= length s.
Proof.
  unfold match_at. intros H. apply andb_true_iff in H as [Hq Hs].
  apply Nat.leb_le in Hq. apply startswith_length in Hs.
  rewrite length_skipn in Hs. lia.
Qed.

(** Every reported offset is an occurrence. *)
Lemma finditer_from_sound (s : str) : forall pos skip q,
  In q (finditer_from pat s pos skip) ->
  pos + skip <= q /\ match_at pat s (q - pos) = true.
Proof.
  induction s as [|c t IH]; intros pos skip q; simpl.
  - destruct skip; [|contradiction].
    destruct (startswith pat []) eqn:E; [|contradiction].
    intros [<-|[]]. rewrite Nat.sub_diag, match_at_0. split; [lia|exact E].
  - destruct skip as [|k].
    + destruct (startswith pat (c :: t)) eqn:E.
      * intros [<-|Hin].
        -- rewrite Nat.sub_diag, match_at_0. split; [lia|exact E].
        -- apply IH in Hin as [Hle Hm]. split; [lia|].
           replace (q - pos) with (S (q - S pos)) by lia.
           now rewrite match_at_S.
      * intros Hin. apply IH in Hin as [Hle Hm]. split; [lia|].
        replace (q - pos) with (S (q - S pos)) by lia.
        now rewrite match_at_S.
    + intros Hin. apply IH in Hin as [Hle Hm]. split; [lia|].
      replace (q - pos) with (S (q - S pos)) by lia.
      now rewrite match_at_S.
Qed.

Lemma finditer_sound (s : str) (q : nat) :
  In q (finditer pat s) -> match_at pat s q = true.
Proof.
  intros H. apply finditer_from_sound in H as [_ H].
  now rewrite Nat.sub_0_r in H.
Qed.

Lemma spaced_weaken (klen a b : nat) (ms : list nat) :
  b <= a -> spaced klen a ms -> spaced klen b ms.
Proof. destruct ms; simpl; [tauto|]. intros H [H1 H2]. split; [lia|assumption]. Qed.

(** The reported matches do not overlap. *)
Lemma finditer_from_spaced (s : str) : forall pos skip,
  spaced (length pat) (pos + skip) (finditer_from pat s pos skip).
Proof.
  induction s as [|c t IH]; intros pos skip; simpl.
  - destruct skip; simpl; [|exact I].
    destruct (startswith pat []); simpl; [split; [lia|exact I] | exact I].
  - destruct skip as [|k].
    + destruct (startswith pat (c :: t)); simpl.
      * split; [lia|].
        eapply spaced_weaken; [|apply (IH (S pos) (length pat - 1))]. lia.
      * eapply spaced_weaken; [|apply (IH (S pos) 0)]. lia.
    + eapply spaced_weaken; [|apply (IH (S pos) k)]. lia.
Qed.

(** The leftmost occurrence is always reported. *)
Lemma finditer_from_nonempty (s : str) : forall pos,
  str_in pat s = true -> finditer_from pat s pos 0 <> [].
Proof.
  induction s as [|c t IH]; intros pos; simpl.
  - rewrite orb_false_r. intros ->. discriminate.
  - destruct (startswith pat (c :: t)); simpl; [discriminate|].
    intros H. now apply IH.
Qed.

(** Two occurrences less than [length pat] apart make a border. *)
Lemma overlap_border (s : str) (d : nat) :
  startswith pat s = true -> startswith pat (skipn d s) = true ->
  d < length pat -> startswith (skipn d pat) pat = true.
Proof.
  intros H0 Hd Hlt.
  apply startswith_iff in H0 as [r ->].
  rewrite skipn_app in Hd. replace (d - length pat) with 0 in Hd by lia.
  simpl in Hd. apply startswith_iff in Hd as [r' E].
  apply startswith_iff.
  apply app_eq_app in E as [l [[E1 E2]|[E1 E2]]].
  - assert (Hl : length (skipn d pat) = length pat + length l)
      by (rewrite E1 at 1; apply length_app).
    rewrite length_skipn in Hl.
    destruct l; [|simpl in Hl; lia].
    exists []. rewrite app_nil_r in *. now rewrite E1.
  - now exists l.
Qed.

Lemma unbordered_spec (d : nat) :
  unbordered pat = true -> 0 < d < length pat ->
  startswith (skipn d pat) pat = false.
Proof.
  unfold unbordered. rewrite forallb_forall. intros H Hd.
  apply negb_true_iff. apply H. apply in_seq. lia.
Qed.

(** When occurrences cannot overlap, every occurrence is reported. *)
Lemma finditer_from_complete (s : str) :
  pat <> [] -> unbordered pat = true ->
  forall pos skip j,
    (forall i, i < skip -> match_at pat s i = false) ->
    match_at pat s j = true ->
    In (pos + j) (finditer_from pat s pos skip).
Proof.
  intros Hne Hub. induction s as [|c t IH]; intros pos skip j Hskip Hj.
  - now rewrite match_at_nil in Hj.
  - simpl. destruct skip as [|k].
    + destruct (startswith pat (c :: t)) eqn:E.
      * destruct j as [|j]; [left; lia|]. right.
        replace (pos + S j) with (S pos + j) by lia.
        apply IH; [|now rewrite match_at_S in Hj].
        intros i Hi. destruct (match_at pat t i) eqn:Em; [|reflexivity].
        exfalso. unfold match_at in Em. apply andb_true_iff in Em as [_ Em].
        assert (Hb : startswith (skipn (S i) pat) pat = true).
        { apply (overlap_border (c :: t) (S i)); [exact E | exact Em | lia]. }
        rewrite unbordered_spec in Hb by (assumption || lia). discriminate.
      * destruct j as [|j]; [rewrite match_at_0 in Hj; congruence|].
        replace (pos + S j) with (S pos + j) by lia.
        apply IH; [intros i Hi; lia | now rewrite match_at_S in Hj].
    + destruct j as [|j].
      * rewrite Hskip in Hj by lia. discriminate.
      * replace (pos + S j) with (S pos + j) by lia.
        apply IH; [|now rewrite match_at_S in Hj].
        intros i Hi. rewrite <- (match_at_S c). apply Hskip. lia.
Qed.

Lemma finditer_complete (s : str) (q : nat) :
  pat <> [] -> unbordered pat = true ->
  match_at pat s q = true -> In q (finditer pat s).
Proof.
  intros Hne Hub H. unfold finditer.
  apply (finditer_from_complete s Hne Hub 0 0 q); [intros i Hi; lia | exact H].
Qed.

End Scanning.

(* ================================================================== *)
(** ** Context windows *)

Section Windows.


Lemma snap_start_S (text : str) (k : nat) :
  snap_start text (S k) =
  match nth_error text (S k) with
  | None => None
  | Some c => if is_boundary c then Some (S k) else snap_start text k
  end.
Proof. reflexivity. Qed.

(** The first loop stops at a boundary character or at the start. *)
Lemma snap_start_spec (text : str) : forall start,
  start = 0 \/ start < length text ->
  exists s, snap_start text start = Some s /\ s <= start /\
            (s = 0 \/ exists c, nth_error text s = Some c /\
                                is_boundary c = true).
Proof.
  induction start as [|k IH]; intros H.
  - exists 0. simpl. auto.
  - destruct H as [H|H]; [discriminate|].
    rewrite snap_start_S.
    destruct (nth_error text (S k)) as [c|] eqn:E.
    2:{ apply nth_error_None in E. lia. }
    destruct (is_boundary c) eqn:Hb.
    + exists (S k). split; [reflexivity|]. split; [lia|].
      right. now exists c.
    + destruct IH as (s & Hs & Hle & Hedge); [lia|].
      exists s. split; [assumption|]. split; [lia | assumption].
Qed.

(** The second loop stops at a boundary character or at the end. *)
Lemma scan_to_boundary_spec (rest : str) : forall e,
  let e' := scan_to_boundary rest e in
  e <= e' <= e + length rest /\
  (e' = e + length rest \/
   exists c, nth_error rest (e' - e) = Some c /\ is_boundary c = true).
Proof.
  induction rest as [|c t IH]; intros e; simpl.
  - split; [lia|]. left. lia.
  - destruct (is_boundary c) eqn:Hb.
    + split; [lia|]. right. exists c. now rewrite Nat.sub_diag.
    + destruct (IH (S e)) as [Hr Hedge]. split; [lia|].
      destruct Hedge as [He|(c' & Hn & Hc')]; [left; lia|].
      right. exists c'. split; [|assumption].
      replace (scan_to_boundary t (S e) - e)
        with (S (scan_to_boundary t (S e) - S e)) by lia.
      exact Hn.
Qed.

Lemma snap_end_spec (text : str) (e : nat) :
  e <= length text ->
  let e' := snap_end text e in
  e <= e' <= length text /\
  (e' = length text \/
   exists c, nth_error text e' = Some c /\ is_boundary c = true).
Proof.
  intros He. unfold snap_end.
  destruct (scan_to_boundary_spec (skipn e text) e) as [Hr Hedge].
  rewrite length_skipn in Hr, Hedge. simpl. split; [lia|].
  destruct Hedge as [H|(c & Hn & Hc)]; [left; lia|].
  right. exists c. split; [|assumption].
  rewrite nth_error_skipn in Hn.
  replace (e + (scan_to_boundary (skipn e text) e - e))
    with (scan_to_boundary (skipn e text) e) in Hn by lia.
  exact Hn.
Qed.

(** The window of a reported match: both loops succeed and the window
    covers the match. *)
Lemma context_bounds_spec (keyword text : str) (pos : nat) :
  pos + length keyword <= length text ->
  exists s e,
    context_bounds keyword text text pos = Some (s, e) /\
    s <= pos - CONTEXT_CHARS /\
    Nat.min (length text) (pos + length keyword + CONTEXT_CHARS) <= e /\
    s <= pos /\ pos + length keyword <= e <= length text /\
    (s = 0 \/ exists c, nth_error text s = Some c /\ is_boundary c = true) /\
    (e = length text \/
     exists c, nth_error text e = Some c /\ is_boundary c = true).
Proof.
  intros Hpos. unfold context_bounds.
  assert (HC : CONTEXT_CHARS = 150) by reflexivity.
  destruct (snap_start_spec text (Nat.max 0 (pos - CONTEXT_CHARS)))
    as (s & Hs & Hle & Hedge); [lia|].
  rewrite Hs.
  destruct (snap_end_spec text
              (Nat.min (length text) (pos + length keyword + CONTEXT_CHARS)))
    as [Hr He]; [lia|].
  eexists s, _. split; [reflexivity|].
  repeat split; try assumption; lia.
Qed.

Lemma for_each_total (A B : Type) (f : A -> option B) (l : list A) :
  (forall x, In x l -> f x <> None) ->
  exists ys, for_each f l = Some ys /\ length ys = length l.
Proof.
  induction l as [|x l IH]; intros H; simpl.
  - now exists [].
  - destruct (f x) as [y|] eqn:E; [|exfalso; apply (H x); [now left | exact E]].
    destruct IH as (ys & Hys & Hlen); [intros z Hz; apply H; now right|].
    rewrite Hys. exists (y :: ys). split; [reflexivity|]. simpl. now rewrite Hlen.
Qed.

Lemma for_each_In (A B : Type) (f : A -> option B) (l : list A)
    (ys : list B) (x : A) :
  for_each f l = Some ys -> In x l ->
  exists y, f x = Some y /\ In y ys.
Proof.
  revert ys. induction l as [|a l IH]; intros ys; simpl; [intros _ []|].
  destruct (f a) as [y|] eqn:E; [|discriminate].
  destruct (for_each f l) as [ys'|]; [|discriminate].
  intros [= <-] [->|Hin].
  - exists y. split; [assumption | now left].
  - destruct (IH ys' eq_refl Hin) as (y' & Hy & Hin'). exists y'.
    split; [assumption | now right].
Qed.

(** On a page, [search_with_context] raises nothing and returns one
    context per reported match. *)
Lemma search_with_context_total (keyword text : str) :
  exists contexts,
    search_with_context keyword text text = Some contexts /\
    length contexts = length (finditer (lower keyword) (lower text)).
Proof.
  unfold search_with_context. apply for_each_total.
  intros pos Hin. apply finditer_sound, match_at_bound in Hin.
  rewrite !lower_length in Hin.
  destruct (context_bounds_spec keyword text pos Hin) as (s & e & Hb & _).
  unfold context_of. rewrite Hb. discriminate.
Qed.

End Windows.

(* ================================================================== *)
(** ** Trimming *)

Section Trimming.

Lemma lstrip_decomp (s : str) :
  exists ws, s = ws ++ lstrip s /\ forallb isspace ws = true /\
             match lstrip s with
             | [] => True
             | c :: _ => isspace c = false
             end.
Proof.
  induction s as [|c t (ws & E & Hws & Hhd)]; simpl.
  - exists []. auto.
  - destruct (isspace c) eqn:Hc.
    + exists (c :: ws). simpl. rewrite Hc, Hws. split; [congruence | auto].
    + exists []. simpl. rewrite Hc. auto.
Qed.

Lemma forallb_rev (A : Type) (p : A -> bool) (l : list A) :
  forallb p (rev l) = forallb p l.
Proof.
  induction l as [|x l IH]; simpl; [reflexivity|].
  rewrite forallb_app, IH. simpl. rewrite andb_true_r. apply andb_comm.
Qed.

Lemma rstrip_decomp (s : str) :
  exists ws, s = rstrip s ++ ws /\ forallb isspace ws = true /\
             (rstrip s = [] \/
              exists r c, rstrip s = r ++ [c] /\ isspace c = false).
Proof.
  unfold rstrip. destruct (lstrip_decomp (rev s)) as (ws & E & Hws & Hhd).
  exists (rev ws). split; [|split].
  - rewrite <- rev_app_distr, <- E. symmetry. apply rev_involutive.
  - now rewrite forallb_rev.
  - destruct (lstrip (rev s)) as [|c t]; [now left|].
    right. exists (rev t), c. split; [reflexivity | assumption].
Qed.

Lemma lstrip_app_nonspace (l : str) (c : ascii) :
  isspace c = false -> lstrip (l ++ [c]) = lstrip l ++ [c].
Proof.
  intros Hc. induction l as [|a l IH]; simpl.
  - now rewrite Hc.
  - destruct (isspace a); [assumption | reflexivity].
Qed.

Lemma rstrip_cons_nonspace (c : ascii) (t : str) :
  isspace c = false -> rstrip (c :: t) = c :: rstrip t.
Proof.
  intros Hc. unfold rstrip. simpl rev.
  rewrite lstrip_app_nonspace by assumption.
  rewrite rev_app_distr. reflexivity.
Qed.

(** [strip] removes white space at both ends, and nothing else. *)
Lemma strip_decomp (s : str) :
  exists w1 w2, s = w1 ++ strip s ++ w2 /\
                forallb isspace w1 = true /\ forallb isspace w2 = true /\
                (strip s = [] \/ trimmed (strip s) = true).
Proof.
  unfold strip.
  destruct (lstrip_decomp s) as (w1 & E1 & H1 & Hhd).
  destruct (rstrip_decomp (lstrip s)) as (w2 & E2 & H2 & Hlast).
  exists w1, w2. split; [now rewrite <- E2|]. split; [assumption|].
  split; [assumption|].
  destruct (lstrip s) as [|c t] eqn:EL; [now left|].
  right. destruct Hlast as [Hl|(r & cl & Er & Hcl)].
  - rewrite rstrip_cons_nonspace in Hl by assumption. discriminate.
  - assert (Elast : last (rstrip (c :: t)) c = cl)
      by (rewrite Er; apply last_last).
    rewrite rstrip_cons_nonspace in * by assumption.
    unfold trimmed. now rewrite Hhd, Elast, Hcl.
Qed.

(** The keyword that [smart_search] passes on is trimmed. *)
Lemma strip_trimmed (keyword : str) :
  strip keyword <> [] -> trimmed (strip keyword) = true.
Proof.
  intros H. destruct (strip_decomp keyword) as (_ & _ & _ & _ & _ & [E|E]);
    [contradiction | assumption].
Qed.

Lemma trimmed_first (K : str) :
  trimmed K = true -> exists c r, K = c :: r /\ isspace c = false.
Proof.
  destruct K as [|c r]; [discriminate|]. unfold trimmed. intros H.
  apply andb_true_iff in H as [H _]. apply negb_true_iff in H.
  now exists c, r.
Qed.

Lemma trimmed_last (K : str) :
  trimmed K = true -> exists r c, K = r ++ [c] /\ isspace c = false.
Proof.
  destruct K as [|c0 r0] eqn:EK; [discriminate|]. unfold trimmed. intros H.
  apply andb_true_iff in H as [_ H]. apply negb_true_iff in H.
  exists (removelast (c0 :: r0)), (last (c0 :: r0) c0).
  split; [apply app_removelast_last; discriminate | assumption].
Qed.

End Trimming.

(* ================================================================== *)
(** ** Highlighting *)

Section Highlighting.

Lemma spaced_In (klen pos m : nat) (ms : list nat) :
  spaced klen pos ms -> In m ms -> pos <= m.
Proof.
  revert pos. induction ms as [|m0 ms IH]; intros pos; simpl; [tauto|].
  intros [Hle Hsp] [<-|Hin]; [assumption|].
  specialize (IH _ Hsp Hin). lia.
Qed.

(** Every match of the list is replaced by the span around the matched
    text, which is copied unchanged. *)
Lemma wrap_matches_member (klen : nat) (ms : list nat) : forall pos s m,
  spaced klen pos ms -> In m ms ->
  exists pre post,
    wrap_matches klen ms pos s =
    pre ++ SPAN_OPEN ++ firstn klen (skipn (m - pos) s) ++ SPAN_CLOSE ++ post.
Proof.
  induction ms as [|m0 ms IH]; intros pos s m Hsp Hin; [contradiction|].
  simpl in Hsp. destruct Hsp as [Hle Hsp].
  destruct Hin as [->|Hin].
  - eexists _, _. reflexivity.
  - pose proof (spaced_In _ _ _ _ Hsp Hin) as Hm.
    destruct (IH (m0 + klen) (skipn (m0 - pos + klen) s) m Hsp Hin)
      as (pre & post & E).
    simpl wrap_matches. rewrite E.
    rewrite skipn_skipn.
    replace (m - (m0 + klen) + (m0 - pos + klen)) with (m - pos) by lia.
    exists (firstn (m0 - pos) s ++ SPAN_OPEN
            ++ firstn klen (skipn (m0 - pos) s) ++ SPAN_CLOSE ++ pre), post.
    now rewrite <- !app_assoc.
Qed.

Lemma startswith_app_short (p x y : str) :
  length p <= length x -> startswith p (x ++ y) = true ->
  startswith p x = true.
Proof.
  intros Hlen H. apply startswith_iff in H as [r E].
  apply startswith_iff. symmetry in E.
  apply app_eq_app in E as [l [[E1 E2]|[E1 E2]]].
  - assert (Hl : length p = length x + length l)
      by (rewrite E1; apply length_app).
    destruct l; [|simpl in Hl; lia].
    exists []. now rewrite app_nil_r in *.
  - now exists l.
Qed.






End Highlighting.

(* ================================================================== *)
(** ** The scan, the spans and the window, exactly *)

Section Greedy.

Variable pat : str.

Lemma finditer_from_greedy (s : str) :
  pat <> [] ->
  forall pos skip j,
    match_at pat s j = true -> skip <= j ->
    (forall q', In q' (finditer_from pat s pos skip) -> q' < pos + j ->
                q' + length pat <= pos + j) ->
    In (pos + j) (finditer_from pat s pos skip).
Proof.
  intros Hne. induction s as [|c t IH]; intros pos skip j Hj Hskip Hfree.
  - now rewrite match_at_nil in Hj.
  - cbn [finditer_from] in *. destruct skip as [|k].
    + destruct (startswith pat (c :: t)) eqn:E.
      * destruct j as [|j]; [left; lia|]. right.
        replace (pos + S j) with (S pos + j) by lia.
        assert (Hlen : length pat <= S j).
        { specialize (Hfree pos (or_introl eq_refl)). lia. }
        apply IH; [now rewrite match_at_S in Hj | lia |].
        intros q' Hq' Hlt. specialize (Hfree q' (or_intror Hq')). lia.
      * destruct j as [|j]; [rewrite match_at_0 in Hj; congruence|].
        replace (pos + S j) with (S pos + j) by lia.
        apply IH; [now rewrite match_at_S in Hj | lia |].
        intros q' Hq' Hlt. specialize (Hfree q' Hq'). lia.
    + destruct j as [|j]; [lia|].
      replace (pos + S j) with (S pos + j) by lia.
      apply IH; [now rewrite match_at_S in Hj | lia |].
      intros q' Hq' Hlt. specialize (Hfree q' Hq'). lia.
Qed.

Lemma spaced_apart (klen : nat) (ms : list nat) : forall pos a b,
  spaced klen pos ms -> In a ms -> In b ms -> a < b -> a + klen <= b.
Proof.
  induction ms as [|m ms IH]; intros pos a b Hsp Ha Hb Hlt; [contradiction|].
  cbn [spaced] in Hsp. destruct Hsp as [Hle Hsp].
  destruct Ha as [->|Ha], Hb as [->|Hb].
  - lia.
  - apply (spaced_In _ _ _ _ Hsp Hb).
  - pose proof (spaced_In _ _ _ _ Hsp Ha). lia.
  - now apply (IH _ a b Hsp).
Qed.

Lemma spaced_sorted (klen : nat) (ms : list nat) : forall pos,
  0 < klen -> spaced klen pos ms -> StronglySorted lt ms.
Proof.
  induction ms as [|m ms IH]; intros pos Hk Hsp; [constructor|].
  cbn [spaced] in Hsp. destruct Hsp as [Hle Hsp].
  constructor; [now apply (IH (m + klen))|].
  apply Forall_forall. intros x Hx.
  pose proof (spaced_In _ _ _ _ Hsp Hx). lia.
Qed.

Lemma finditer_greedy (s : str) (q : nat) :
  pat <> [] ->
  (In q (finditer pat s) <->
   match_at pat s q = true /\
   forall q', In q' (finditer pat s) -> q' < q -> q' + length pat <= q).
Proof.
  intros Hne. split.
  - intros Hq. split; [now apply finditer_sound|].
    intros q' Hq' Hlt.
    apply (spaced_apart (length pat) (finditer pat s) 0 q' q); auto.
    apply (finditer_from_spaced pat s 0 0).
  - intros [Hm Hfree]. unfold finditer.
    apply (finditer_from_greedy s Hne 0 0 q Hm); [lia | exact Hfree].
Qed.

Hypothesis Hne : pat <> [].

Lemma startswith_prefix (x y : str) :
  startswith pat x = true -> startswith pat (x ++ y) = true.
Proof.
  intros H. apply startswith_iff in H as [r ->]. rewrite <- app_assoc.
  apply startswith_app.
Qed.

Lemma startswith_nil_false : startswith pat [] = false.
Proof. destruct pat; [congruence | reflexivity]. Qed.

(** A scan that reports a match at the end of [a] has scanned [a] as if
    nothing followed it. *)
Lemma finditer_from_split (a b : str) : forall pos skip,
  In (pos + length a) (finditer_from pat (a ++ b) pos skip) ->
  finditer_from pat (a ++ b) pos skip =
  finditer_from pat a pos skip ++ finditer_from pat b (pos + length a) 0.
Proof.
  induction a as [|c a IH]; intros pos skip Hin.
  - cbn [app length] in *. rewrite Nat.add_0_r in *.
    destruct skip as [|k].
    + cbn [finditer_from]. now rewrite startswith_nil_false.
    + apply finditer_from_sound in Hin. lia.
  - cbn [app length] in *.
    replace (pos + S (length a)) with (S pos + length a) in * by lia.
    cbn [finditer_from] in *. destruct skip as [|k].
    + destruct (startswith pat (c :: a ++ b)) eqn:E.
      * destruct Hin as [Hin|Hin]; [lia|].
        pose proof (finditer_from_sound _ _ _ _ _ Hin) as [Hle _].
        assert (Hp : 0 < length pat) by (destruct pat; [congruence|simpl; lia]).
        assert (E' : startswith pat (c :: a) = true).
        { apply (startswith_app_short pat (c :: a) b); [simpl; lia | exact E]. }
        rewrite E'. cbn [app]. f_equal. now apply IH.
      * assert (E' : startswith pat (c :: a) = false).
        { destruct (startswith pat (c :: a)) eqn:E'; [|reflexivity].
          apply (startswith_prefix _ b) in E'. cbn [app] in E'. congruence. }
        rewrite E'. now apply IH.
    + now apply IH.
Qed.

Lemma finditer_from_skip (skip : nat) : forall s pos,
  skip <= length s ->
  finditer_from pat s pos skip =
  finditer_from pat (skipn skip s) (pos + skip) 0.
Proof.
  induction skip as [|k IH]; intros s pos Hle.
  - now rewrite Nat.add_0_r.
  - destruct s as [|c t]; [simpl in Hle; lia|].
    cbn [finditer_from skipn]. rewrite IH by (simpl in Hle; lia).
    f_equal. lia.
Qed.

Lemma finditer_from_match (s : str) (pos : nat) :
  startswith pat s = true ->
  finditer_from pat s pos 0 =
  pos :: finditer_from pat (skipn (length pat) s) (pos + length pat) 0.
Proof.
  intros E. pose proof (startswith_length _ _ E) as Hlen.
  assert (Hp : 0 < length pat) by (destruct pat; [congruence|simpl; lia]).
  destruct s as [|c t]; [simpl in Hlen; lia|].
  cbn [finditer_from]. rewrite E. f_equal.
  rewrite finditer_from_skip by (simpl in Hlen; lia).
  replace (length pat) with (S (length pat - 1)) at 2 3 by lia.
  cbn [skipn]. f_equal. lia.
Qed.

Lemma finditer_from_shift (d : nat) (s : str) : forall pos skip,
  finditer_from pat s (d + pos) skip =
  map (Nat.add d) (finditer_from pat s pos skip).
Proof.
  induction s as [|c t IH]; intros pos skip; cbn [finditer_from].
  - destruct skip; [|reflexivity]. now destruct (startswith pat []).
  - replace (S (d + pos)) with (d + S pos) by lia.
    destruct skip as [|k]; [|apply IH].
    destruct (startswith pat (c :: t)); cbn [map]; [f_equal|]; apply IH.
Qed.

End Greedy.

Section Spans.

Lemma firstn_app_le (A : Type) (n : nat) (a b : list A) :
  n <= length a -> firstn n (a ++ b) = firstn n a.
Proof.
  intros H. rewrite firstn_app. replace (n - length a) with 0 by lia.
  simpl. apply app_nil_r.
Qed.

Lemma skipn_app_le (A : Type) (n : nat) (a b : list A) :
  n <= length a -> skipn n (a ++ b) = skipn n a ++ b.
Proof.
  intros H. rewrite skipn_app. replace (n - length a) with 0 by lia.
  reflexivity.
Qed.

Lemma firstn_app_ge (A : Type) (n : nat) (a b : list A) :
  length a <= n -> firstn n (a ++ b) = a ++ firstn (n - length a) b.
Proof.
  intros H. rewrite firstn_app. now rewrite firstn_all2 by lia.
Qed.

Lemma skipn_app_ge (A : Type) (n : nat) (a b : list A) :
  length a <= n -> skipn n (a ++ b) = skipn (n - length a) b.
Proof.
  intros H. rewrite skipn_app. now rewrite skipn_all2 by lia.
Qed.

(** Text before the first match is copied. *)
Lemma wrap_matches_after (klen : nat) (ms : list nat) (pos : nat)
    (a b : str) :
  spaced klen (pos + length a) ms ->
  wrap_matches klen ms pos (a ++ b) =
  a ++ wrap_matches klen ms (pos + length a) b.
Proof.
  destruct ms as [|m ms]; [reflexivity|]. intros [Hle _].
  cbn [wrap_matches].
  rewrite firstn_app_ge, !skipn_app_ge by lia.
  rewrite <- app_assoc.
  replace (m - pos - length a) with (m - (pos + length a)) by lia.
  replace (m - pos + klen - length a) with (m - (pos + length a) + klen)
    by lia.
  reflexivity.
Qed.

(** Matches that lie in [a] are wrapped in [a]. *)
Lemma wrap_matches_app (klen : nat) (ms1 ms2 : list nat) (b : str) :
  forall pos a,
    spaced klen pos ms1 ->
    (forall m, In m ms1 -> m + klen <= pos + length a) ->
    spaced klen (pos + length a) ms2 ->
    wrap_matches klen (ms1 ++ ms2) pos (a ++ b) =
    wrap_matches klen ms1 pos a ++ wrap_matches klen ms2 (pos + length a) b.
Proof.
  induction ms1 as [|m ms1 IH]; intros pos a Hsp Hin Hsp2.
  - now apply wrap_matches_after.
  - cbn [spaced] in Hsp. destruct Hsp as [Hle Hsp].
    pose proof (Hin m (or_introl eq_refl)) as Hm.
    cbn [app wrap_matches].
    rewrite firstn_app_le by lia.
    rewrite (skipn_app_le _ (m - pos)) by lia.
    rewrite (firstn_app_le _ klen) by (rewrite length_skipn; lia).
    rewrite (skipn_app_le _ (m - pos + klen)) by lia.
    rewrite (IH (m + klen) (skipn (m - pos + klen) a)).
    + rewrite length_skipn.
      replace (m + klen + (length a - (m - pos + klen)))
        with (pos + length a) by lia.
      now rewrite <- !app_assoc.
    + exact Hsp.
    + intros m' Hm'. rewrite length_skipn.
      specialize (Hin m' (or_intror Hm')). lia.
    + rewrite length_skipn.
      replace (m + klen + (length a - (m - pos + klen)))
        with (pos + length a) by lia.
      exact Hsp2.
Qed.

Lemma wrap_matches_shift (klen d : nat) (ms : list nat) : forall pos s,
  wrap_matches klen (map (Nat.add d) ms) (d + pos) s =
  wrap_matches klen ms pos s.
Proof.
  induction ms as [|m ms IH]; intros pos s; [reflexivity|].
  cbn [map wrap_matches].
  replace (d + m - (d + pos)) with (m - pos) by lia.
  replace (d + m + klen) with (d + (m + klen)) by lia.
  now rewrite IH.
Qed.

(** A reported match cuts the scan in two: the scan of the text before
    it and the scan of the text after it. *)
Lemma highlight_matches_split (K c : str) (q : nat) :
  K <> [] -> In q (highlight_matches K c) ->
  highlight_matches K c =
  highlight_matches K (firstn q c)
  ++ q :: map (Nat.add (q + length K))
              (highlight_matches K (skipn (q + length K) c)).
Proof.
  intros HK Hq. unfold highlight_matches in *.
  assert (Hk : lower K <> []) by (destruct K; [congruence | discriminate]).
  pose proof (finditer_sound _ _ _ Hq) as Hm.
  set (a := firstn q c). set (b := skipn q c).
  assert (Ec : c = a ++ b) by (symmetry; apply firstn_skipn).
  pose proof (match_at_bound _ _ _ Hm) as Hb. rewrite !lower_length in Hb.
  assert (La : length a = q) by (unfold a; rewrite length_firstn; lia).
  assert (Hsb : startswith (lower K) (lower b) = true).
  { unfold match_at in Hm. apply andb_true_iff in Hm as [_ Hm].
    unfold b, lower. rewrite <- skipn_map. exact Hm. }
  replace (skipn (q + length K) c) with (skipn (length K) b)
    by (unfold b; rewrite skipn_skipn; f_equal; lia).
  unfold finditer. rewrite Ec at 1. rewrite lower_app.
  rewrite (finditer_from_split (lower K) Hk (lower a) (lower b) 0 0).
  - rewrite lower_length, La. cbn [Nat.add]. f_equal.
    rewrite (finditer_from_match (lower K) Hk (lower b) q Hsb).
    f_equal. rewrite lower_length.
    rewrite <- (Nat.add_0_r (q + length K)) at 1.
    rewrite finditer_from_shift. unfold lower. now rewrite skipn_map.
  - rewrite lower_length, La. cbn [Nat.add].
    rewrite <- lower_app, <- Ec. exact Hq.
Qed.

(** The span of a wrapped occurrence separates the highlighting of the
    text before it from the highlighting of the text after it. *)
Lemma highlight_split (K c : str) (q : nat) :
  K <> [] -> In q (highlight_matches K c) -> wrapped_at K c q.
Proof.
  intros HK Hq. unfold wrapped_at, highlight.
  rewrite (highlight_matches_split K c q HK Hq).
  unfold highlight_matches in *.
  pose proof (finditer_sound _ _ _ Hq) as Hm.
  pose proof (match_at_bound _ _ _ Hm) as Hb. rewrite !lower_length in Hb.
  assert (La : length (firstn q c) = q) by (rewrite length_firstn; lia).
  transitivity
    (wrap_matches (length K)
       (finditer (lower K) (lower (firstn q c))
        ++ q :: map (Nat.add (q + length K))
                    (finditer (lower K) (lower (skipn (q + length K) c))))
       0 (firstn q c ++ skipn q c)).
  { now rewrite firstn_skipn. }
  rewrite (wrap_matches_app (length K) _ _ (skipn q c) 0 (firstn q c)).
  - f_equal. rewrite La. cbn [Nat.add wrap_matches].
    rewrite Nat.sub_diag. cbn [firstn skipn app Nat.add].
    f_equal. f_equal. f_equal.
    rewrite <- (wrap_matches_shift (length K) (q + length K) _ 0
                  (skipn (q + length K) c)).
    rewrite Nat.add_0_r, skipn_skipn.
    now replace (length K + q) with (q + length K) by lia.
  - pose proof (finditer_from_spaced (lower K) (lower (firstn q c)) 0 0)
      as H.
    now rewrite lower_length in H.
  - intros m Hm'. apply finditer_sound, match_at_bound in Hm'.
    rewrite !lower_length in Hm'. lia.
  - rewrite La. cbn [Nat.add spaced]. split; [lia|].
    pose proof (finditer_from_spaced (lower K)
                  (lower (skipn (q + length K) c)) (q + length K) 0) as H.
    rewrite lower_length, Nat.add_0_r in H.
    unfold finditer.
    rewrite <- (finditer_from_shift (lower K) (q + length K)
                  (lower (skipn (q + length K) c)) 0 0).
    now rewrite Nat.add_0_r.
Qed.





End Spans.

(* ================================================================== *)
(** ** Context windows *)

Section ContextWindow.



(** The occurrences wrapped in a text are the greedy choice. *)
Lemma highlight_matches_greedy (K c : str) :
  K <> [] -> greedy_scan K c (highlight_matches K c).
Proof.
  intros HK. unfold greedy_scan, highlight_matches, occurs_at.
  assert (Hk : lower K <> []) by (destruct K; [congruence | discriminate]).
  split.
  - apply (spaced_sorted (length (lower K)) _ 0).
    + rewrite lower_length. destruct K; [congruence | simpl; lia].
    + apply (finditer_from_spaced (lower K) (lower c) 0 0).
  - intros q. rewrite <- (lower_length K).
    now apply finditer_greedy.
Qed.



End ContextWindow.


Example context_window_fox :
  search_with_context (lit "fox") (lit "the quick brown FOX jumps over")
    (lit "the quick brown FOX jumps over")
  = Some [lit "the quick brown " ++ SPAN_OPEN ++ lit "FOX" ++ SPAN_CLOSE
          ++ lit " jumps over"].
Proof. reflexivity. Qed.


(** Even a reported match can be left without a span of its own when the
    keyword overlaps itself: the scan of the page and the scan of the
    window start at different offsets. *)
Example context_window_out_of_step :
  existsb (Nat.eqb 200) (finditer (lower (lit "a a")) (lower a_a_page)) = true
  /\ context_bounds (lit "a a") a_a_page a_a_page 200 = Some (49, 241)
  /\ strip (slice a_a_page 49 241) = slice a_a_page 50 241
  /\ existsb (Nat.eqb (200 - 50))
       (highlight_matches (lit "a a") (slice a_a_page 50 241)) = false.
Proof. repeat split; vm_compute; reflexivity. Qed.

(* ================================================================== *)
(** ** Paths and listings *)

Section Paths.

#[local] Abbreviation bn := OsPath.basename.

Lemma until_sep_no_sep (s : str) :
  ~ In OsPath.sep s -> OsPath.until_sep s = s.
Proof.
  induction s as [|c s IH]; simpl; [reflexivity|].
  intros H. destruct (ascii_dec c OsPath.sep) as [->|Hc]; [tauto|].
  rewrite IH; tauto.
Qed.

Lemma until_sep_app (s r : str) :
  ~ In OsPath.sep s -> OsPath.until_sep (s ++ OsPath.sep :: r) = s.
Proof.
  induction s as [|c s IH]; simpl.
  - intros _. destruct (ascii_dec OsPath.sep OsPath.sep); congruence.
  - intros H. destruct (ascii_dec c OsPath.sep) as [->|Hc]; [tauto|].
    rewrite IH; tauto.
Qed.

Lemma basename_no_sep (f : str) : ~ In OsPath.sep f -> bn f = f.
Proof.
  intros H. unfold OsPath.basename. rewrite until_sep_no_sep.
  - apply rev_involutive.
  - now rewrite <- in_rev.
Qed.

Lemma basename_app_sep (d f : str) :
  ~ In OsPath.sep f -> bn (d ++ [OsPath.sep] ++ f) = f.
Proof.
  intros H. unfold OsPath.basename.
  rewrite !rev_app_distr. simpl. rewrite <- app_assoc. simpl.
  rewrite until_sep_app by now rewrite <- in_rev.
  apply rev_involutive.
Qed.

(** The name of a listed file is the base name of its joined path. *)
Lemma basename_join (d f : str) :
  ~ In OsPath.sep f -> bn (OsPath.join d f) = f.
Proof.
  intros H. unfold OsPath.join.
  destruct (startswith [OsPath.sep] f) eqn:E1.
  { apply startswith_iff in E1 as [r ->]. exfalso. apply H. now left. }
  destruct (endswith [OsPath.sep] d) eqn:E2.
  { unfold endswith in E2. apply startswith_iff in E2 as [r Er].
    simpl in Er. apply (f_equal (@rev ascii)) in Er.
    rewrite rev_involutive in Er. simpl in Er. rewrite Er.
    rewrite <- app_assoc. now apply basename_app_sep. }
  destruct d as [|c d]; [now apply basename_no_sep|].
  now apply basename_app_sep.
Qed.

Variable w : world.
Hypothesis Hlist : listing_ok w.

Lemma keys_add_listing (pdf_dir : str) (names : list str) :
  forall cache k,
    In k (PyDict.keys (add_listing w pdf_dir names cache)) ->
    In k (PyDict.keys cache) \/ (In k names /\ is_pdf k = true).
Proof.
  unfold add_listing. induction names as [|f names IH]; intros cache k; simpl.
  - tauto.
  - intros H. apply IH in H as [H|[H1 H2]]; [|tauto].
    destruct (is_pdf f) eqn:E; [|tauto].
    apply In_keys_set in H as [->|H]; tauto.
Qed.

Lemma keys_build_from (dirs : list str) : forall cache k,
  In k (PyDict.keys
          (fold_left
             (fun cache pdf_dir =>
                match listdir w pdf_dir with
                | DirListing names => add_listing w pdf_dir names cache
                | DirMissing => cache
                | DirDenied => cache
                end) dirs cache)) ->
  In k (PyDict.keys cache) \/
  exists d names, In d dirs /\ listdir w d = DirListing names /\
                  In k names /\ is_pdf k = true.
Proof.
  induction dirs as [|d dirs IH]; intros cache k; simpl; [tauto|].
  intros H. apply IH in H as [H|(d' & names & Hd & Hl & Hk)].
  - destruct (listdir w d) as [| |names] eqn:E; try tauto.
    apply keys_add_listing in H as [H|H]; [tauto|].
    right. exists d, names. tauto.
  - right. exists d', names. tauto.
Qed.

(** Every listed PDF name is the base name of a path of
    [get_all_pdf_files]. *)
Lemma get_all_pdf_files_names (dirs : list str) : forall files,
  get_all_pdf_files_in w dirs = Some files ->
  forall d names k,
    In d dirs -> listdir w d = DirListing names ->
    In k names -> is_pdf k = true -> In k (map bn files).
Proof.
  induction dirs as [|d0 dirs IH]; intros files Hf d names k Hd Hl Hk Hp;
    [contradiction|].
  simpl in Hf. destruct Hd as [->|Hd].
  - rewrite Hl in Hf.
    destruct (get_all_pdf_files_in w dirs) as [more|]; [|discriminate].
    injection Hf as <-. rewrite map_app, map_map. apply in_or_app. left.
    apply in_map_iff. exists k. split.
    + apply basename_join. eapply Hlist; eauto.
    + apply filter_In. tauto.
  - destruct (listdir w d0) as [| |names0] eqn:E0; [eauto | discriminate |].
    destruct (get_all_pdf_files_in w dirs) as [more|]; [|discriminate].
    injection Hf as <-. rewrite map_app. apply in_or_app. right.
    eapply IH; eauto.
Qed.

(** Every path of [get_all_pdf_files] has the base name of a PDF. *)
Lemma get_all_pdf_files_pdf (dirs : list str) : forall files p,
  get_all_pdf_files_in w dirs = Some files -> In p files ->
  is_pdf (bn p) = true.
Proof.
  induction dirs as [|d0 dirs IH]; intros files p Hf Hp; simpl in Hf.
  - injection Hf as <-. contradiction.
  - destruct (listdir w d0) as [| |names0] eqn:E0; [eauto | discriminate |].
    destruct (get_all_pdf_files_in w dirs) as [more|] eqn:Em; [|discriminate].
    injection Hf as <-. apply in_app_or in Hp as [Hp|Hp]; [|eauto].
    apply in_map_iff in Hp as (f & <- & Hf). apply filter_In in Hf as [Hf Hpdf].
    rewrite basename_join; [assumption|]. eapply Hlist; eauto.
Qed.

(** A name that is not listed has no path. *)
Lemma unlisted_has_no_path (files : list str) (n : str) :
  get_all_pdf_files w = Some files ->
  ~ In n (map bn files) -> bn n = n ->
  get_pdf_path (build_file_path_cache w) n = None.
Proof.
  intros Hf Hn Hb.
  assert (Hget : PyDict.get n (build_file_path_cache w) = None).
  { apply get_None_keys. intros Hk.
    apply keys_build_from in Hk as [[]|(d & names & Hd & Hl & Hk & Hp)].
    apply Hn. eapply get_all_pdf_files_names; eauto. }
  unfold get_pdf_path. now rewrite Hb, Hget.
Qed.

End Paths.

(* ================================================================== *)
(** ** The search over the store *)

Section Search.

Variable file_path_cache : PyDict.dict str.

Lemma combine_seq_In (A : Type) (l : list A) : forall a i (x : A),
  In (i, x) (combine (seq a (length l)) l) <->
  a <= i /\ nth_error l (i - a) = Some x.
Proof.
  induction l as [|y l IH]; intros a i x; simpl.
  - split; [tauto|]. intros [_ H]. destruct (i - a); discriminate.
  - rewrite IH. split.
    + intros [E|[Hle Hn]].
      * injection E as <- <-. rewrite Nat.sub_diag. auto.
      * split; [lia|]. replace (i - a) with (S (i - S a)) by lia. exact Hn.
    + intros [Hle Hn]. destruct (Nat.eq_dec a i) as [<-|Hne].
      * rewrite Nat.sub_diag in Hn. simpl in Hn. left. congruence.
      * right. split; [lia|].
        replace (i - a) with (S (i - S a)) in Hn by lia. exact Hn.
Qed.

Lemma enumerate_In (A : Type) (l : list A) (i : nat) (x : A) :
  In (i, x) (enumerate l) <-> nth_error l i = Some x.
Proof.
  unfold enumerate. rewrite combine_seq_In, Nat.sub_0_r.
  split; [tauto | split; [lia | assumption]].
Qed.

(** One page: nothing raises; a page without the keyword gives nothing,
    any other page one record per context. *)
Lemma search_single_page_spec (pdf_file keyword : str) (i : nat)
    (page : str) :
  exists contexts,
    search_with_context keyword page page = Some contexts /\
    (str_in (lower keyword) (lower page) = true -> contexts <> []) /\
    search_single_page file_path_cache pdf_file keyword (i, page) =
    Some (if str_in (lower keyword) (lower page)
          then map (record_of file_path_cache pdf_file page i) contexts
          else []).
Proof.
  destruct (search_with_context_total keyword page) as (contexts & Hc & Hlen).
  exists contexts. split; [assumption|]. split.
  - intros Hin ->. simpl in Hlen. symmetry in Hlen.
    apply length_zero_iff_nil in Hlen.
    now apply (finditer_from_nonempty (lower keyword) (lower page) 0).
  - unfold search_single_page. rewrite Hc.
    destruct (str_in (lower keyword) (lower page)); reflexivity.
Qed.

Lemma extend_all_spec (A B : Type) (f : A -> option (list B)) (l : list A) :
  (forall x, In x l -> exists ys, f x = Some ys) ->
  exists r, extend_all f l = Some r /\
            forall y, In y r <->
                      exists x ys, In x l /\ f x = Some ys /\ In y ys.
Proof.
  induction l as [|a l IH]; intros H; simpl.
  - exists []. split; [reflexivity|]. intros y. split; [intros []|].
    intros (x & ys & [] & _).
  - destruct (H a (or_introl eq_refl)) as (ys & Hys).
    destruct IH as (r & Hr & Hspec); [intros x Hx; apply H; now right|].
    rewrite Hys, Hr. exists (ys ++ r). split; [reflexivity|].
    intros y. rewrite in_app_iff, Hspec. split.
    + intros [Hy|(x & ys' & Hx & Hf & Hy)].
      * exists a, ys. auto.
      * exists x, ys'. auto.
    + intros (x & ys' & [<-|Hx] & Hf & Hy).
      * left. congruence.
      * right. exists x, ys'. auto.
Qed.

(** One document: nothing raises, and the records are those of the pages
    that contain the keyword, one per context. *)
Lemma search_pages_parallel_spec (pdf_file : str) (pages : list str)
    (keyword : str) :
  exists recs,
    search_pages_parallel file_path_cache pdf_file pages keyword = Some recs /\
    forall r, In r recs <->
      exists i page contexts c,
        nth_error pages i = Some page /\
        str_in (lower keyword) (lower page) = true /\
        search_with_context keyword page page = Some contexts /\
        In c contexts /\
        r = record_of file_path_cache pdf_file page i c.
Proof.
  destruct (extend_all_spec _ _
              (search_single_page file_path_cache pdf_file keyword)
              (enumerate pages)) as (recs & Hr & Hspec).
  { intros [i page] _.
    destruct (search_single_page_spec pdf_file keyword i page)
      as (contexts & _ & _ & E).
    eexists. exact E. }
  exists recs. split.
  { unfold search_pages_parallel. now destruct (20 <? length pages). }
  intros r. rewrite Hspec. split.
  - intros ([i page] & ys & Hin & Hf & Hy).
    apply enumerate_In in Hin.
    destruct (search_single_page_spec pdf_file keyword i page)
      as (contexts & Hc & _ & E).
    rewrite E in Hf. injection Hf as <-.
    destruct (str_in (lower keyword) (lower page)) eqn:Es; [|contradiction].
    apply in_map_iff in Hy as (c & <- & Hc').
    exists i, page, contexts, c. auto.
  - intros (i & page & contexts & c & Hn & Hs & Hc & Hin & ->).
    destruct (search_single_page_spec pdf_file keyword i page)
      as (contexts' & Hc' & _ & E).
    rewrite Hs in E. rewrite Hc in Hc'. injection Hc' as <-.
    eexists (i, page), _. split; [now apply enumerate_In|].
    split; [exact E|]. now apply in_map.
Qed.

(** The loop over the candidates: nothing raises, and the records of
    every candidate that is in the store are in the result. *)
Lemma search_candidates_spec (keyword : str) (pdf_cache : pdf_cache_t)
    (candidate_files : list str) :
  exists log results,
    search_candidates file_path_cache keyword pdf_cache candidate_files
    = (log, Some results) /\
    forall f v recs,
      In f candidate_files -> PyDict.get f pdf_cache = Some v ->
      search_pages_parallel file_path_cache f (as_pages v) keyword = Some recs ->
      incl recs results.
Proof.
  induction candidate_files as [|f0 rest (log & results & E & Hspec)]; simpl.
  - exists [], []. split; [reflexivity|]. intros f v recs [].
  - rewrite E. destruct (PyDict.get f0 pdf_cache) as [v0|] eqn:G.
    + destruct (search_pages_parallel_spec f0 (as_pages v0) keyword)
        as (recs0 & Hr0 & _).
      rewrite Hr0. eexists _, _. split; [reflexivity|].
      intros f v recs [<-|Hin] Hg Hr.
      * rewrite G in Hg. injection Hg as <-. rewrite Hr0 in Hr.
        injection Hr as <-. apply incl_appl, incl_refl.
      * apply incl_appr. eapply Hspec; eauto.
    + eexists _, _. split; [reflexivity|].
      intros f v recs [<-|Hin] Hg Hr; [congruence|]. eapply Hspec; eauto.
Qed.

End Search.

Section BatchFrame.

Variable w : world.

#[local] Abbreviation bn := OsPath.basename.

Lemma process_pdfs_batch_frame (ps : list str) (c : pdf_cache_t) (n : str) :
  ~ In METADATA (map bn ps) -> ~ In n (map bn ps) ->
  (n <> METADATA ->
   PyDict.get n (process_pdfs_batch w ps c) = PyDict.get n c) /\
  meta_get n (process_pdfs_batch w ps c) = meta_get n c.
Proof.
  intros Hm Hn. destruct ps as [|p ps]; [split; reflexivity|].
  unfold process_pdfs_batch.
  destruct (complete_all_frame w (p :: ps) 0
              (if PyDict.contains METADATA c then c
               else PyDict.set METADATA (Metadata []) c) n Hm Hn)
    as [Fp Fm].
  destruct (batch_start_frame c n) as [Sp Sm].
  split.
  - intros Hne. rewrite Fp by assumption. now apply Sp.
  - now rewrite Fm.
Qed.

Lemma check_for_updates_loop_incl
    (cm : option (PyDict.dict meta_record)) (pdf_files : list str) :
  forall updated,
    check_for_updates_loop w cm pdf_files = Some updated ->
    incl updated pdf_files.
Proof.
  induction pdf_files as [|p rest IH]; intros updated; simpl.
  - intros [= <-]. apply incl_refl.
  - destruct (get_file_modification_time w p); [|discriminate].
    destruct cm as [md|]; [|discriminate].
    destruct (check_for_updates_loop w (Some md) rest) as [upd|];
      [|discriminate].
    intros [= <-]. specialize (IH upd eq_refl).
    destruct (Z.ltb _ _).
    + apply incl_cons; [now left | now apply incl_tl].
    + now apply incl_tl.
Qed.

End BatchFrame.

(* ================================================================== *)
(** ** Documents that are no longer listed *)

Section DeletedDocuments.

Variable w : world.

#[local] Abbreviation bn := OsPath.basename.

Lemma smart_search_unfold (db : index_db) (fpc : PyDict.dict str)
    (keyword : str) (pdf_cache : pdf_cache_t) :
  strip keyword <> [] ->
  smart_search db fpc keyword pdf_cache =
  let K := strip keyword in
  let (log0, candidate_files) :=
    match search_text_index db K with
    | Some files => ([QueryIndex K], files)
    | None =>
        ([QueryIndex K; ListCacheKeys],
         filter (fun k => negb (str_eqb k METADATA)) (PyDict.keys pdf_cache))
    end in
  let (log, results) := search_candidates fpc K pdf_cache candidate_files in
  (log0 ++ log, results).
Proof.
  intros H. unfold smart_search. destruct (strip keyword); [contradiction|].
  reflexivity.
Qed.

(** X18. A cache entry whose file name is not among the files listed in
    the scanned directories is never selected by [check_for_updates] nor
    as a new file; a batch over listed files leaves its pages and its
    metadata record as they are; and [smart_search] on texts of the
    model's characters, with the index unavailable, or rebuilt from the
    store when the pages of the entry hold no U+0000, still returns one
    record per match on its cached pages, each with no resolved path. *)
Theorem deleted_document_persists (files completed : list str)
    (pdf_cache : pdf_cache_t) (N : str) (pages : list str) (keyword : str)
    (db : index_db) :
  listing_ok w ->
  get_all_pdf_files w = Some files ->
  PyDict.wf pdf_cache ->
  PyDict.get N pdf_cache = Some (Pages pages) ->
  N <> METADATA -> bn N = N ->
  ~ In N (map bn files) ->
  incl completed files ->
  strip keyword <> [] ->
  (search_text_index db (strip keyword) = None \/
   (db = DbTable (index_rows (process_pdfs_batch w completed pdf_cache)) /\
    nul_free_pages pages)) ->
  let after := process_pdfs_batch w completed pdf_cache in
  let fpc := build_file_path_cache w in
  let K := strip keyword in
  (forall updated, check_for_updates w files pdf_cache = Some updated ->
     ~ In N (map bn updated)) /\
  ~ In N (map bn (new_files files pdf_cache)) /\
  PyDict.get N after = Some (Pages pages) /\
  meta_get N after = meta_get N pdf_cache /\
  get_pdf_path fpc N = None /\
  exists log results recs,
    smart_search db fpc keyword after = (log, Some results) /\
    search_pages_parallel fpc N pages K = Some recs /\
    incl recs results /\
    (forall r, In r recs -> file r = N /\ full_path r = None) /\
    (forall i page, nth_error pages i = Some page ->
       str_in (lower K) (lower page) = true ->
       exists r, In r recs /\ page_number r = i + 1 /\ full_text r = page).
Proof.
  intros Hlist Hfiles Hwf Hget HN Hbn Hunl Hincl Hkw Hdb after fpc K.
  assert (Hsub : forall l, incl l files -> ~ In N (map bn l)).
  { intros l Hl Hin. apply in_map_iff in Hin as (p & Hp & Hin).
    apply Hunl. apply in_map_iff. exists p. auto. }
  assert (Hmeta : ~ In METADATA (map bn completed)).
  { intros Hin. apply in_map_iff in Hin as (p & Hp & Hin).
    pose proof (get_all_pdf_files_pdf w Hlist _ files p Hfiles (Hincl p Hin))
      as Hpdf.
    rewrite Hp in Hpdf. discriminate Hpdf. }
  destruct (process_pdfs_batch_frame w completed pdf_cache N Hmeta
              (Hsub _ Hincl)) as [Fp Fm].
  assert (Hafter : PyDict.get N after = Some (Pages pages)).
  { unfold after. now rewrite Fp. }
  assert (Hpath : get_pdf_path fpc N = None).
  { now apply (unlisted_has_no_path w Hlist files N). }
  split.
  { intros updated Hupd. apply Hsub.
    now apply (check_for_updates_loop_incl w _ _ _ Hupd). }
  split.
  { apply Hsub. unfold new_files. intros p Hp.
    now apply filter_In in Hp as [Hp _]. }
  split; [exact Hafter|]. split; [exact Fm|]. split; [exact Hpath|].
  destruct (search_pages_parallel_spec fpc N pages K) as (recs & Hrecs & Hrs).
  assert (Hwf' : PyDict.wf after) by now apply process_pdfs_batch_wf.
  rewrite smart_search_unfold by assumption. cbv zeta. fold K.
  assert (Hcand : exists log0 cands,
            match search_text_index db K with
            | Some files => ([QueryIndex K], files)
            | None =>
                ([QueryIndex K; ListCacheKeys],
                 filter (fun k => negb (str_eqb k METADATA))
                        (PyDict.keys after))
            end = (log0, cands) /\
            (recs <> [] -> In N cands)).
  { destruct (search_text_index db K) as [cands|] eqn:Eq.
    - eexists _, cands. split; [reflexivity|]. intros Hne.
      destruct Hdb as [Hdb|[Hdb Hnul]]; [fold K in Hdb; congruence|].
      destruct recs as [|r recs']; [congruence|].
      destruct (proj1 (Hrs r) (or_introl eq_refl))
        as (i & page & contexts & c & Hn & Hs & _).
      fold after in Hdb. rewrite Hdb in Eq.
      exact (candidates_complete after K N (Pages pages) page cands
               Hwf' HN Hafter Hnul (nth_error_In _ _ Hn) Hs Eq).
    - eexists _, _. split; [reflexivity|]. intros _.
      apply filter_In. split.
      + eapply get_Some_keys; eauto.
      + apply negb_true_iff. now apply str_eqb_neq. }
  destruct Hcand as (log0 & cands & -> & HinN).
  destruct (search_candidates_spec fpc K after cands)
    as (log & results & Es & Hspec).
  rewrite Es. exists (log0 ++ log), results, recs.
  split; [reflexivity|]. split; [exact Hrecs|]. split; [|split].
  - destruct recs as [|r0 recs'] eqn:Er; [intros r []|].
    rewrite <- Er in *.
    apply (Hspec N (Pages pages) recs); try assumption.
    apply HinN. rewrite Er. discriminate.
  - intros r Hr. apply Hrs in Hr as (i & page & contexts & c & _ & _ & _ & _ & ->).
    split; [reflexivity | exact Hpath].
  - intros i page Hn Hs.
    destruct (search_single_page_spec fpc N K i page)
      as (contexts & Hc & Hne & _).
    destruct contexts as [|c cs]; [now specialize (Hne Hs)|].
    exists (record_of fpc N page i c). split; [|split; reflexivity].
    apply Hrs. exists i, page, (c :: cs), c.
    repeat split; try assumption. now left.
Qed.

End DeletedDocuments.

Lemma listing_ok_deleted_world : listing_ok deleted_world.
Proof.
  intros d names f Hl Hf. unfold deleted_world in Hl. cbn [listdir] in Hl.
  destruct (str_eqb d (lit "/pdf")); [|discriminate Hl].
  injection Hl as <-. destruct Hf as [<-|[]].
  intros H. vm_compute in H. intuition discriminate.
Qed.

Lemma deleted_document_persists_witness :
  exists log results,
    smart_search DbAbsent (build_file_path_cache deleted_world)
      (lit " hello ")
      (process_pdfs_batch deleted_world [lit "/pdf/new.pdf"] old_cached)
    = (log, Some results) /\
    exists r, In r results /\ file r = lit "old.pdf" /\ full_path r = None.
Proof.
  destruct (deleted_document_persists deleted_world
              [lit "/pdf/new.pdf"] [lit "/pdf/new.pdf"] old_cached
              (lit "old.pdf") [lit "an old hello"; lit "nothing"]
              (lit " hello ") DbAbsent)
    as (_ & _ & _ & _ & _ & log & results & recs & Hs & _ & Hincl & Hrec & Hpage).
  - exact listing_ok_deleted_world.
  - reflexivity.
  - unfold PyDict.wf.
    destruct (NoDup_str_dec (PyDict.keys old_cached)) as [H|H] eqn:E;
      [exact H | discriminate E].
  - reflexivity.
  - discriminate.
  - reflexivity.
  - simpl. intros [H|[]]. discriminate H.
  - apply incl_refl.
  - discriminate.
  - left. reflexivity.
  - exists log, results. split; [exact Hs|].
    destruct (Hpage 0 (lit "an old hello") eq_refl eq_refl) as (r & Hr & _).
    exists r. split; [now apply Hincl | now apply Hrec].
Defined.

Example deleted_document_search :
  let after :=
    process_pdfs_batch deleted_world [lit "/pdf/new.pdf"] old_cached in
  PyDict.keys after = [lit "old.pdf"; METADATA; lit "new.pdf"] /\
  option_map (map (fun r => (file r, page_number r, full_path r)))
    (snd (smart_search DbAbsent (build_file_path_cache deleted_world)
            (lit "hello") after))
  = Some [(lit "old.pdf", 1, None)].
Proof. split; vm_compute; reflexivity. Qed.


(* ================================================================== *)
(** ** The end-to-end scenario *)

(** Searching ["hello"] over alpha.pdf and beta.pdf gives one record for
    page 1 of each, with the index rebuilt from the store as well as
    without an index, and the grouping keeps both files. *)
Example end_to_end :
  let results db :=
    snd (smart_search db [] (lit "hello") alpha_beta_cache) in
  option_map (map (fun r => (file r, page_number r)))
    (results (DbTable (index_rows alpha_beta_cache)))
    = Some [(lit "alpha.pdf", 1); (lit "beta.pdf", 1)] /\
  results DbAbsent = results (DbTable (index_rows alpha_beta_cache)) /\
  option_map (fun rs => map (fun g => (fst g, group_size g))
                            (group_results_by_file rs))
    (results DbAbsent)
    = Some [(lit "alpha.pdf", 1); (lit "beta.pdf", 1)].
Proof. cbv zeta. repeat split; vm_compute; reflexivity. Qed.

(* ================================================================== *)
(** * Further properties of the program *)

(** ** Normalised page text *)

Section Normalised.

Lemma collapse_ws_single_spaced (s : str) : forall b,
  single_spaced b (collapse_ws b s) = true.
Proof.
  induction s as [|c t IH]; intros b; simpl; [reflexivity|].
  destruct (isspace c) eqn:Hc.
  - destruct b; [apply IH|]. simpl.
    destruct (ascii_dec " " " "); [|congruence]. now rewrite IH.
  - simpl. now rewrite Hc.
Qed.

Lemma collapse_ws_fixed (s : str) : forall b,
  single_spaced b s = true -> collapse_ws b s = s.
Proof.
  induction s as [|c t IH]; intros b; simpl; [reflexivity|].
  destruct (isspace c) eqn:Hc.
  - destruct (ascii_dec c " ") as [->|]; [|discriminate].
    destruct b; simpl; [discriminate|]. intros H. now rewrite IH.
  - intros H. now rewrite IH.
Qed.

Lemma collapse_ws_last (x : str) (l : ascii) : forall b,
  isspace l = false -> collapse_ws b (x ++ [l]) = collapse_ws b x ++ [l].
Proof.
  intros b Hl. revert b. induction x as [|c x IH]; intros b; simpl.
  - now rewrite Hl.
  - destruct (isspace c); [destruct b|]; now rewrite IH.
Qed.

Lemma collapse_ws_trimmed (s : str) :
  trimmed s = true -> trimmed (collapse_ws false s) = true.
Proof.
  intros H. destruct (trimmed_first s H) as (c & r & E & Hc).
  destruct (trimmed_last s H) as (x & l & El & Hl).
  assert (Elast : collapse_ws false s = collapse_ws false x ++ [l])
    by (rewrite El; now apply collapse_ws_last).
  assert (Efirst : exists r', collapse_ws false s = c :: r').
  { rewrite E. simpl. rewrite Hc. eauto. }
  destruct Efirst as (r' & Ef). unfold trimmed. rewrite Ef, Hc.
  rewrite <- Ef, Elast, last_last, Hl. reflexivity.
Qed.

Lemma lstrip_fixed (s : str) : trimmed s = true -> lstrip s = s.
Proof.
  intros H. destruct (trimmed_first s H) as (c & r & -> & Hc).
  simpl. now rewrite Hc.
Qed.

Lemma strip_fixed (s : str) : trimmed s = true -> strip s = s.
Proof.
  intros H. unfold strip. rewrite (lstrip_fixed s H).
  destruct (trimmed_last s H) as (x & l & -> & Hl).
  unfold rstrip. rewrite rev_app_distr. simpl. rewrite Hl.
  change (l :: rev x) with ([l] ++ rev x). rewrite rev_app_distr.
  now rewrite rev_involutive.
Qed.

Lemma single_spaced_chars (s : str) : forall b c,
  single_spaced b s = true -> In c s -> isspace c = true -> c = " "%char.
Proof.
  induction s as [|a t IH]; intros b c Hs Hin Hc; [contradiction|].
  simpl in Hs. destruct Hin as [->|Hin].
  - rewrite Hc in Hs. destruct (ascii_dec c " "); [assumption|discriminate].
  - destruct (isspace a).
    + apply andb_true_iff in Hs as [_ Hs]. eauto.
    + eauto.
Qed.

Lemma single_spaced_no_double (x y : str) : forall b,
  single_spaced b (x ++ " "%char :: " "%char :: y) = false.
Proof.
  induction x as [|a x IH]; intros b; simpl.
  - destruct b; reflexivity.
  - destruct (isspace a); [|apply IH].
    rewrite IH. apply andb_false_r.
Qed.

Lemma normalize_props (text : str) :
  (forall c, In c (normalize text) -> isspace c = true -> c = " "%char) /\
  (forall x y, normalize text <> x ++ " "%char :: " "%char :: y) /\
  (normalize text = [] \/ trimmed (normalize text) = true) /\
  normalize (normalize text) = normalize text.
Proof.
  unfold normalize.
  pose proof (collapse_ws_single_spaced (strip text) false) as Hss.
  assert (Htr : collapse_ws false (strip text) = [] \/
                trimmed (collapse_ws false (strip text)) = true).
  { destruct (strip_decomp text) as (_ & _ & _ & _ & _ & [E|E]).
    - left. now rewrite E.
    - right. now apply collapse_ws_trimmed. }
  split; [|split; [|split]].
  - intros c. now apply (single_spaced_chars _ false).
  - intros x y E. rewrite E in Hss.
    now rewrite single_spaced_no_double in Hss.
  - exact Htr.
  - destruct Htr as [E|E].
    + rewrite E. reflexivity.
    + rewrite (strip_fixed _ E). now apply collapse_ws_fixed.
Qed.

(** X1. Every page text that [extract_pdf_text_pdfplumber] returns is
    normalised: its only white space is the space character, it has no
    two spaces in a row, it neither starts nor ends with white space, and
    normalising it again changes nothing. *)
Theorem extracted_text_normalised (w : world) (pdf_path page : str) :
  In page (extract_pdf_text_pdfplumber w pdf_path) ->
  (forall c, In c page -> isspace c = true -> c = " "%char) /\
  (forall x y, page <> x ++ " "%char :: " "%char :: y) /\
  (page = [] \/ trimmed page = true) /\
  normalize page = page.
Proof.
  unfold extract_pdf_text_pdfplumber.
  destruct (pdf_open w pdf_path) as [doc|]; [|intros []].
  intros Hin. apply in_map_iff in Hin as (o & <- & _).
  rewrite extract_page_text.
  destruct o as [|[text|]]; simpl page_text_of;
    try apply normalize_props;
    (split; [intros c []|split; [intros [|? ?] y; discriminate|
                                 split; [now left | reflexivity]]]).
Qed.

End Normalised.

Lemma extracted_text_normalised_witness :
  normalize (lit "second page") = lit "second page".
Proof.
  apply (extracted_text_normalised five_page_world (lit "/pdf/five.pdf")
           (lit "second page")).
  right. now left.
Defined.

(* ================================================================== *)
(** ** The index and the search results *)

Section IndexAndSearch.

Lemma filter_all (A : Type) (p : A -> bool) (l : list A) :
  (forall x, In x l -> p x = true) -> filter p l = l.
Proof.
  induction l as [|x l IH]; intros H; simpl; [reflexivity|].
  rewrite (H x (or_introl eq_refl)), IH; [reflexivity|].
  intros y Hy. apply H. now right.
Qed.

Lemma filter_map_comm (A B : Type) (f : A -> B) (p : B -> bool)
    (l : list A) :
  filter p (map f l) = map f (filter (fun x => p (f x)) l).
Proof.
  induction l as [|x l IH]; simpl; [reflexivity|].
  destruct (p (f x)); simpl; now rewrite IH.
Qed.

Lemma insert_or_replace_new (r : index_row) (rows : list index_row) :
  ~ In (filename r) (map filename rows) ->
  insert_or_replace r rows = rows ++ [r].
Proof.
  intros H. unfold insert_or_replace. rewrite filter_all; [reflexivity|].
  intros r' Hr'. apply negb_true_iff, str_eqb_neq. intros E. apply H.
  rewrite <- E. now apply in_map.
Qed.

Lemma index_rows_from (items : pdf_cache_t) : forall acc,
  NoDup (map filename acc ++ map fst items) ->
  fold_left
    (fun rows (item : str * cache_value) =>
       let (pdf_file, pages) := item in
       if str_eqb pdf_file METADATA then rows
       else insert_or_replace (row_of pdf_file pages) rows)
    items acc
  = acc ++ map (fun kv => row_of (fst kv) (snd kv)) (documents items).
Proof.
  induction items as [|[k v] items IH]; intros acc Hnd; simpl.
  - now rewrite app_nil_r.
  - simpl in Hnd. destruct (str_eqb k METADATA) eqn:Ek; simpl.
    + apply IH. now apply NoDup_remove_1 in Hnd.
    + rewrite insert_or_replace_new.
      * rewrite IH.
        -- now rewrite <- app_assoc.
        -- rewrite map_app, <- app_assoc. exact Hnd.
      * apply NoDup_remove_2 in Hnd. simpl. intros Hin. apply Hnd.
        apply in_or_app. now left.
Qed.

(** The rebuilt table: one row per document, in the order of the store. *)
Lemma index_rows_documents (pdf_cache : pdf_cache_t) :
  PyDict.wf pdf_cache ->
  index_rows pdf_cache
  = map (fun kv => row_of (fst kv) (snd kv)) (documents pdf_cache).
Proof. intros H. unfold index_rows. now rewrite index_rows_from. Qed.

Lemma documents_get (pdf_cache : pdf_cache_t) (kv : str * cache_value) :
  PyDict.wf pdf_cache -> In kv (documents pdf_cache) ->
  fst kv <> METADATA /\ PyDict.get (fst kv) pdf_cache = Some (snd kv).
Proof.
  intros Hwf Hin. apply filter_In in Hin as [Hin Hne].
  apply negb_true_iff, str_eqb_neq in Hne. split; [assumption|].
  destruct kv as [k v]. now apply In_get.
Qed.

Lemma documents_keys (pdf_cache : pdf_cache_t) :
  map fst (documents pdf_cache)
  = filter (fun k => negb (str_eqb k METADATA)) (PyDict.keys pdf_cache).
Proof.
  unfold documents, PyDict.keys. now rewrite filter_map_comm.
Qed.

(** Dropping items of a dictionary keeps its keys distinct. *)
Lemma filter_keeps_keys_distinct (V : Type) (keep : str * V -> bool)
    (d : list (str * V)) :
  NoDup (map fst d) -> NoDup (map fst (filter keep d)).
Proof.
  intros Hd. induction d as [|kv d IH]; [constructor|].
  cbn [map] in Hd. apply NoDup_cons_iff in Hd as [Hkv Hd].
  cbn [filter]. destruct (keep kv); [|now apply IH].
  cbn [map]. apply NoDup_cons; [|now apply IH].
  intros Hin. apply Hkv. apply in_map_iff in Hin as (kv' & E & Hin).
  apply filter_In in Hin as [Hin _]. apply in_map_iff. now exists kv'.
Qed.

(** The candidates of the rebuilt index, computed on the store. *)
Lemma candidates_of_store (pdf_cache : pdf_cache_t) (K : str)
    (cands : list str) :
  PyDict.wf pdf_cache ->
  search_text_index (DbTable (index_rows pdf_cache)) K = Some cands ->
  cands = map fst
            (filter (fun kv => sql_like (keyword_pattern K)
                                 (lower (join (lit " ") (as_pages (snd kv)))))
                    (documents pdf_cache)).
Proof.
  intros Hwf Hq. apply search_text_index_Some in Hq. subst cands.
  rewrite index_rows_documents by assumption.
  rewrite filter_map_comm, map_map. reflexivity.
Qed.

(** X2. The table that [create_text_index_db] leaves holds exactly one
    row per document of the store, in the order of the store and none
    for the reserved key, whatever it held before.  On that table
    [search_text_index] is unavailable exactly when there is a document
    and the pattern has more than 50000 bytes; otherwise it returns,
    each once, the documents of the store whose joined lower-case text,
    read up to its first U+0000, matches the pattern, read up to its
    first U+0000. *)
Theorem index_reflects_store (db0 db : index_db) (pdf_cache : pdf_cache_t) :
  PyDict.wf pdf_cache ->
  create_text_index_db db0 pdf_cache = Some db ->
  db = DbTable (map (fun kv => row_of (fst kv) (snd kv))
                    (documents pdf_cache)) /\
  forall K,
    (search_text_index db K = None <->
     documents pdf_cache <> [] /\
     (SQLITE_MAX_LIKE_PATTERN_LENGTH < utf8_length (keyword_pattern K))%N) /\
    forall cands,
      search_text_index db K = Some cands ->
      NoDup cands /\
      forall f, In f cands <->
        f <> METADATA /\
        exists v, PyDict.get f pdf_cache = Some v /\
                  like_match (c_string (keyword_pattern K))
                    (c_string (lower (join (lit " ") (as_pages v)))) = true.
Proof.
  intros Hwf Hdb.
  assert (E : db = DbTable (index_rows pdf_cache))
    by (destruct db0; simpl in Hdb; congruence).
  subst db. split; [now rewrite index_rows_documents|].
  intros K. split.
  - rewrite index_rows_documents by assumption.
    unfold search_text_index.
    destruct (documents pdf_cache) as [|kv docs]; cbn [map].
    + split; [discriminate | intros [H _]; congruence].
    + destruct (N.ltb_spec SQLITE_MAX_LIKE_PATTERN_LENGTH
                           (utf8_length (keyword_pattern K))) as [Hlt|Hge].
      * split; [intros _; split; [discriminate | assumption] | reflexivity].
      * split; [discriminate | intros [_ H]; lia].
  - intros cands Hc.
    apply candidates_of_store in Hc; [|assumption]. subst cands. split.
    + apply filter_keeps_keys_distinct. unfold documents.
      apply filter_keeps_keys_distinct. exact Hwf.
    + intros f. split.
      * intros Hf. apply in_map_iff in Hf as (kv & <- & Hkv).
        apply filter_In in Hkv as [Hkv Hlike].
        destruct (documents_get pdf_cache kv Hwf Hkv) as [Hne Hget].
        split; [assumption|]. now exists (snd kv).
      * intros (Hne & v & Hget & Hlike).
        apply in_map_iff. exists (f, v). split; [reflexivity|].
        apply filter_In. split; [|exact Hlike].
        unfold documents. apply filter_In. split.
        -- now apply get_Some_In.
        -- now apply negb_true_iff, str_eqb_neq.
Qed.

(** X17. Without U+0000 the prefilter has no false negatives: when the
    index has been rebuilt from the store and some page of a document
    whose pages hold no U+0000 contains the keyword without regard to
    case, every list of candidates that [search_text_index] returns for
    the keyword contains the document. *)
Theorem prefilter_superset_without_nul (db0 db : index_db)
    (pdf_cache : pdf_cache_t) (K D : str) (pages : list str) (page : str)
    (cands : list str) :
  PyDict.wf pdf_cache ->
  D <> METADATA ->
  PyDict.get D pdf_cache = Some (Pages pages) ->
  nul_free_pages pages ->
  In page pages ->
  str_in (lower K) (lower page) = true ->
  create_text_index_db db0 pdf_cache = Some db ->
  search_text_index db K = Some cands ->
  In D cands.
Proof.
  intros Hwf HD Hget Hnul Hpage Hin Hdb Hq.
  assert (db = DbTable (index_rows pdf_cache)) as ->.
  { destruct db0; simpl in Hdb; congruence. }
  exact (candidates_complete pdf_cache K D (Pages pages) page cands
           Hwf HD Hget Hnul Hpage Hin Hq).
Qed.

Variable file_path_cache : PyDict.dict str.

(** A document without U+0000 that the pattern rejects has no record. *)
Lemma unlike_no_records (pdf_file K : str) (v : cache_value) :
  nul_free_pages (as_pages v) ->
  sql_like (keyword_pattern K) (lower (join (lit " ") (as_pages v))) = false ->
  search_pages_parallel file_path_cache pdf_file (as_pages v) K = Some [].
Proof.
  intros Hnul Hlike.
  destruct (search_pages_parallel_spec file_path_cache pdf_file (as_pages v) K)
    as (recs & Hr & Hspec).
  rewrite Hr. destruct recs as [|r recs]; [reflexivity|].
  exfalso.
  destruct (proj1 (Hspec r) (or_introl eq_refl))
    as (i & page & _ & _ & Hn & Hs & _).
  rewrite (row_matches_page K v page Hnul (nth_error_In _ _ Hn) Hs) in Hlike.
  discriminate.
Qed.

(** Dropping candidates that have no record does not change the
    result. *)
Lemma search_candidates_filter (K : str) (pdf_cache : pdf_cache_t)
    (P : str * cache_value -> bool) (items : list (str * cache_value)) :
  (forall kv, In kv items ->
     PyDict.get (fst kv) pdf_cache = Some (snd kv)) ->
  (forall kv, In kv items -> P kv = false ->
     search_pages_parallel file_path_cache (fst kv) (as_pages (snd kv)) K
     = Some []) ->
  snd (search_candidates file_path_cache K pdf_cache
         (map fst (filter P items)))
  = snd (search_candidates file_path_cache K pdf_cache (map fst items)).
Proof.
  induction items as [|[k v] items IH]; intros Hget Hno; [reflexivity|].
  assert (IH' := IH (fun kv H => Hget kv (or_intror H))
                    (fun kv H => Hno kv (or_intror H))).
  pose proof (Hget (k, v) (or_introl eq_refl)) as Hk. simpl in Hk.
  destruct (search_pages_parallel_spec file_path_cache k (as_pages v) K)
    as (recs & Hr & _).
  simpl filter. simpl map at 2.
  destruct (P (k, v)) eqn:EP.
  - simpl map. simpl search_candidates. rewrite Hk, Hr.
    destruct (search_candidates file_path_cache K pdf_cache
                (map fst (filter P items))) as [log1 r1].
    destruct (search_candidates file_path_cache K pdf_cache
                (map fst items)) as [log2 r2].
    simpl in *. now rewrite IH'.
  - rewrite IH'. simpl search_candidates. rewrite Hk.
    pose proof (Hno (k, v) (or_introl eq_refl) EP) as Hnil. simpl in Hnil.
    rewrite Hnil.
    destruct (search_candidates file_path_cache K pdf_cache
                (map fst items)) as [log2 r2].
    simpl. now destruct r2.
Qed.

(** With the rebuilt index, the result list is that of the full scan. *)
Lemma smart_search_same_with_index (db : index_db) (keyword : str)
    (pdf_cache : pdf_cache_t) :
  PyDict.wf pdf_cache ->
  nul_free_store pdf_cache ->
  search_text_index db (strip keyword) = None ->
  snd (smart_search (DbTable (index_rows pdf_cache)) file_path_cache keyword
         pdf_cache)
  = snd (smart_search db file_path_cache keyword pdf_cache).
Proof.
  intros Hwf Hnul Hnone.
  destruct (str_eq_dec (strip keyword) []) as [EK|Hne].
  { unfold smart_search. now rewrite EK. }
  rewrite !smart_search_unfold by assumption. cbv zeta.
  rewrite Hnone.
  destruct (search_text_index (DbTable (index_rows pdf_cache))
              (strip keyword)) as [cands|] eqn:Eq.
  2:{ now destruct (search_candidates file_path_cache (strip keyword)
                      pdf_cache _). }
  apply candidates_of_store in Eq; [|assumption]. subst cands.
  rewrite <- documents_keys.
  pose proof (search_candidates_filter (strip keyword) pdf_cache
                (fun kv => sql_like (keyword_pattern (strip keyword))
                             (lower (join (lit " ") (as_pages (snd kv)))))
                (documents pdf_cache)) as H.
  destruct (search_candidates file_path_cache (strip keyword) pdf_cache
              (map fst (filter _ (documents pdf_cache)))) as [log1 r1].
  destruct (search_candidates file_path_cache (strip keyword) pdf_cache
              (map fst (documents pdf_cache))) as [log2 r2].
  simpl in *. apply H.
  - intros kv Hkv. now apply documents_get.
  - intros kv Hkv Hlike. apply unlike_no_records; [|assumption].
    destruct (documents_get pdf_cache kv Hwf Hkv) as [Hne' Hget].
    exact (Hnul _ _ Hget Hne').
Qed.

(** X3. On a store (of texts of the model's characters) whose pages
    hold no U+0000 the prefilter does not change what a search returns:
    with the index rebuilt from the store, [smart_search] returns the
    same list of records, in the same order, as without any usable
    index. *)
Theorem prefilter_transparent (db : index_db) (keyword : str)
    (pdf_cache : pdf_cache_t) :
  PyDict.wf pdf_cache ->
  nul_free_store pdf_cache ->
  search_text_index db (strip keyword) = None ->
  snd (smart_search (DbTable (index_rows pdf_cache)) file_path_cache keyword
         pdf_cache)
  = snd (smart_search db file_path_cache keyword pdf_cache).
Proof. apply smart_search_same_with_index. Qed.

End IndexAndSearch.

Lemma wf_alpha_beta : PyDict.wf alpha_beta_cache.
Proof.
  unfold PyDict.wf.
  destruct (NoDup_str_dec (PyDict.keys alpha_beta_cache)) as [H|H] eqn:E;
    [exact H | discriminate E].
Defined.

Lemma nul_free_alpha_beta : nul_free_store alpha_beta_cache.
Proof.
  intros f v Hget _ page Hpage Hin.
  apply get_Some_In in Hget.
  destruct Hget as [E|[E|[E|[]]]]; injection E as <- <-;
    simpl in Hpage;
    repeat (destruct Hpage as [<-|Hpage];
            [vm_compute in Hin; intuition discriminate|]);
    exact Hpage.
Defined.

Lemma index_reflects_store_witness :
  DbTable (index_rows alpha_beta_cache)
  = DbTable (map (fun kv => row_of (fst kv) (snd kv))
               (documents alpha_beta_cache)).
Proof.
  apply (index_reflects_store DbAbsent (DbTable (index_rows alpha_beta_cache))
           alpha_beta_cache wf_alpha_beta eq_refl).
Defined.

Lemma prefilter_superset_without_nul_witness :
  In (lit "alpha.pdf")
     [lit "alpha.pdf"; lit "beta.pdf"].
Proof.
  apply (prefilter_superset_without_nul DbAbsent
           (DbTable (index_rows alpha_beta_cache)) alpha_beta_cache
           (lit "Hello") (lit "alpha.pdf")
           [lit "hello world"; lit "no match here"] (lit "hello world")).
  - exact wf_alpha_beta.
  - discriminate.
  - reflexivity.
  - intros page [<-|[<-|[]]] Hin; vm_compute in Hin; intuition discriminate.
  - now left.
  - reflexivity.
  - reflexivity.
  - reflexivity.
Defined.

Lemma prefilter_transparent_witness :
  snd (smart_search (DbTable (index_rows alpha_beta_cache)) []
         (lit "world") alpha_beta_cache)
  = snd (smart_search DbAbsent [] (lit "world") alpha_beta_cache).
Proof.
  apply (prefilter_transparent [] DbAbsent (lit "world") alpha_beta_cache
           wf_alpha_beta nul_free_alpha_beta eq_refl).
Defined.

Section SearchResults.

Variable file_path_cache : PyDict.dict str.

(** The records of the loop over the candidates are those of the
    candidates that are in the store, and no others. *)
Lemma search_candidates_members (K : str) (pdf_cache : pdf_cache_t)
    (candidate_files : list str) :
  exists log results,
    search_candidates file_path_cache K pdf_cache candidate_files
    = (log, Some results) /\
    forall r, In r results <->
      exists f v recs,
        In f candidate_files /\ PyDict.get f pdf_cache = Some v /\
        search_pages_parallel file_path_cache f (as_pages v) K = Some recs /\
        In r recs.
Proof.
  induction candidate_files as [|f0 rest (log & results & E & Hspec)]; simpl.
  - exists [], []. split; [reflexivity|]. intros r. split; [intros []|].
    intros (f & v & recs & [] & _).
  - rewrite E. destruct (PyDict.get f0 pdf_cache) as [v0|] eqn:G.
    + destruct (search_pages_parallel_spec file_path_cache f0 (as_pages v0) K)
        as (recs0 & Hr0 & _).
      rewrite Hr0. eexists _, _. split; [reflexivity|].
      intros r. rewrite in_app_iff, Hspec. split.
      * intros [Hr|(f & v & recs & Hf & Hg & Hs & Hr)].
        -- exists f0, v0, recs0. auto.
        -- exists f, v, recs. auto.
      * intros (f & v & recs & [<-|Hf] & Hg & Hs & Hr).
        -- left. congruence.
        -- right. exists f, v, recs. auto.
    + eexists _, _. split; [reflexivity|].
      intros r. rewrite Hspec. split.
      * intros (f & v & recs & Hf & Hg & Hs & Hr). exists f, v, recs. auto.
      * intros (f & v & recs & [<-|Hf] & Hg & Hs & Hr); [congruence|].
        exists f, v, recs. auto.
Qed.

(** Without an answer of the index the search is the full scan. *)
Lemma smart_search_unavailable (db : index_db) (keyword : str)
    (pdf_cache : pdf_cache_t) :
  search_text_index db (strip keyword) = None ->
  snd (smart_search db file_path_cache keyword pdf_cache)
  = snd (smart_search DbAbsent file_path_cache keyword pdf_cache).
Proof.
  intros Hnone.
  destruct (str_eq_dec (strip keyword) []) as [EK|Hne].
  { unfold smart_search. now rewrite EK. }
  rewrite !smart_search_unfold by assumption. cbv zeta.
  rewrite Hnone. cbn [search_text_index].
  now destruct (search_candidates file_path_cache (strip keyword)
                  pdf_cache _).
Qed.

(** X4. What a search returns on texts of the model's characters, with
    the index unavailable, or rebuilt from a store whose pages hold no
    U+0000: nothing is raised, and there is exactly one record for
    every context of every page of every document of the store whose
    text contains the trimmed keyword without regard to case - no record
    for the reserved key, for a page without the keyword, or for
    anything that is not in the store. *)
Theorem smart_search_records (db : index_db) (keyword : str)
    (pdf_cache : pdf_cache_t) :
  PyDict.wf pdf_cache ->
  strip keyword <> [] ->
  search_text_index db (strip keyword) = None \/
  (db = DbTable (index_rows pdf_cache) /\ nul_free_store pdf_cache) ->
  exists log results,
    smart_search db file_path_cache keyword pdf_cache = (log, Some results) /\
    forall r, In r results <->
      exists f v i page contexts c,
        f <> METADATA /\ PyDict.get f pdf_cache = Some v /\
        nth_error (as_pages v) i = Some page /\
        str_in (lower (strip keyword)) (lower page) = true /\
        search_with_context (strip keyword) page page = Some contexts /\
        In c contexts /\
        r = record_of file_path_cache f page i c.
Proof.
  intros Hwf Hne Hdb.
  assert (Hfall : exists log results,
            smart_search DbAbsent file_path_cache keyword pdf_cache
            = (log, Some results) /\
            forall r, In r results <->
              exists f v recs,
                In f (filter (fun k => negb (str_eqb k METADATA))
                             (PyDict.keys pdf_cache)) /\
                PyDict.get f pdf_cache = Some v /\
                search_pages_parallel file_path_cache f (as_pages v)
                  (strip keyword) = Some recs /\
                In r recs).
  { rewrite smart_search_unfold by assumption. cbv zeta. simpl search_text_index.
    destruct (search_candidates_members (strip keyword) pdf_cache
                (filter (fun k => negb (str_eqb k METADATA))
                        (PyDict.keys pdf_cache)))
      as (log & results & E & Hspec).
    rewrite E. eexists _, results. split; [reflexivity | exact Hspec]. }
  destruct Hfall as (log0 & results & E0 & Hspec).
  assert (Hres : snd (smart_search db file_path_cache keyword pdf_cache)
                 = Some results).
  { destruct Hdb as [Hnone | [-> Hnul]].
    - rewrite (smart_search_unavailable db keyword pdf_cache Hnone).
      now rewrite E0.
    - rewrite (smart_search_same_with_index file_path_cache DbAbsent keyword
                 pdf_cache Hwf Hnul eq_refl).
      now rewrite E0. }
  destruct (smart_search db file_path_cache keyword pdf_cache) as [log r0].
  simpl in Hres. subst r0. exists log, results. split; [reflexivity|].
  intros r. rewrite Hspec. split.
  - intros (f & v & recs & Hf & Hg & Hs & Hr).
    apply filter_In in Hf as [_ Hf]. apply negb_true_iff, str_eqb_neq in Hf.
    destruct (search_pages_parallel_spec file_path_cache f (as_pages v)
                (strip keyword)) as (recs' & Hs' & Hmem).
    rewrite Hs in Hs'. injection Hs' as <-.
    apply Hmem in Hr as (i & page & contexts & c & H1 & H2 & H3 & H4 & H5).
    exists f, v, i, page, contexts, c. auto 10.
  - intros (f & v & i & page & contexts & c & Hf & Hg & H1 & H2 & H3 & H4 & H5).
    destruct (search_pages_parallel_spec file_path_cache f (as_pages v)
                (strip keyword)) as (recs & Hs & Hmem).
    exists f, v, recs. split; [|split; [assumption|split; [assumption|]]].
    + apply filter_In. split; [eapply get_Some_keys; eauto|].
      now apply negb_true_iff, str_eqb_neq.
    + apply Hmem. exists i, page, contexts, c. auto.
Qed.

End SearchResults.

Lemma smart_search_records_witness :
  exists log results,
    smart_search DbBroken [] (lit " hello ") alpha_beta_cache
    = (log, Some results).
Proof.
  destruct (smart_search_records [] DbBroken (lit " hello ") alpha_beta_cache
              wf_alpha_beta)
    as (log & results & E & _).
  - discriminate.
  - left. reflexivity.
  - now exists log, results.
Defined.

(* ================================================================== *)
(** ** The records of one document *)

Section PageRecords.

Variable file_path_cache : PyDict.dict str.

Lemma match_at_str_in (pat s : str) (q : nat) :
  match_at pat s q = true -> str_in pat s = true.
Proof.
  unfold match_at. intros H. apply andb_true_iff in H as [_ H].
  apply startswith_iff in H as [r E]. apply str_in_iff.
  exists (firstn q s), r. rewrite <- E. symmetry. apply firstn_skipn.
Qed.

(** The containment test before the scan only saves work. *)
Lemma finditer_none (pat s : str) :
  str_in pat s = false -> finditer pat s = [].
Proof.
  intros H. destruct (finditer pat s) as [|q l] eqn:E; [reflexivity|].
  assert (Hq : In q (finditer pat s)) by (rewrite E; now left).
  apply finditer_sound, match_at_str_in in Hq. congruence.
Qed.

Lemma StronglySorted_app_le (l1 l2 : list nat) :
  StronglySorted le l1 -> StronglySorted le l2 ->
  (forall x y, In x l1 -> In y l2 -> x <= y) ->
  StronglySorted le (l1 ++ l2).
Proof.
  induction 1 as [|x l1 Hl1 IH Hx]; intros H2 Hle; simpl; [assumption|].
  constructor.
  - apply IH; [assumption|]. intros a b Ha Hb. apply Hle; [now right|assumption].
  - apply Forall_app. split; [assumption|].
    apply Forall_forall. intros y Hy. apply Hle; [now left | assumption].
Qed.

Lemma StronglySorted_repeat (n k : nat) : StronglySorted le (repeat n k).
Proof.
  induction k as [|k IH]; simpl; constructor; [assumption|].
  apply Forall_forall. intros y Hy. apply repeat_spec in Hy. lia.
Qed.

Lemma single_page_numbers (pdf_file K : str) (i : nat) (page : str) :
  exists ys,
    search_single_page file_path_cache pdf_file K (i, page) = Some ys /\
    map page_number ys
    = repeat (i + 1) (length (finditer (lower K) (lower page))).
Proof.
  destruct (search_with_context_total K page) as (contexts & Hc & Hlen).
  destruct (search_single_page_spec file_path_cache pdf_file K i page)
    as (contexts' & Hc' & _ & E).
  rewrite Hc in Hc'. injection Hc' as <-.
  rewrite E. eexists. split; [reflexivity|].
  destruct (str_in (lower K) (lower page)) eqn:Es.
  - rewrite map_map. simpl. rewrite <- Hlen.
    clear. induction contexts; simpl; congruence.
  - now rewrite (finditer_none _ _ Es).
Qed.

Lemma pages_from (pdf_file K : str) (pages : list str) : forall a,
  exists recs,
    extend_all (search_single_page file_path_cache pdf_file K)
      (combine (seq a (length pages)) pages) = Some recs /\
    StronglySorted le (map page_number recs) /\
    (forall n, In n (map page_number recs) -> a + 1 <= n) /\
    length recs
    = list_sum (map (fun page => length (finditer (lower K) (lower page)))
                    pages).
Proof.
  induction pages as [|page pages IH]; intros a.
  - exists []. simpl. repeat split; [constructor | intros n []].
  - destruct (single_page_numbers pdf_file K a page) as (ys & Hy & Hn).
    destruct (IH (S a)) as (recs & Hr & Hs & Hge & Hlen).
    change (combine (seq a (length (page :: pages))) (page :: pages))
      with ((a, page) :: combine (seq (S a) (length pages)) pages).
    cbn [extend_all map list_sum].
    rewrite Hy, Hr. exists (ys ++ recs). split; [reflexivity|].
    rewrite map_app, Hn. split; [|split].
    + apply StronglySorted_app_le; [apply StronglySorted_repeat | assumption|].
      intros x y Hx Hy'. apply repeat_spec in Hx. apply Hge in Hy'. lia.
    + intros n Hin. apply in_app_or in Hin as [Hin|Hin].
      * apply repeat_spec in Hin. lia.
      * apply Hge in Hin. lia.
    + rewrite length_app, Hlen, <- (length_map page_number ys), Hn,
        repeat_length.
      reflexivity.
Qed.

(** X5. For pages and a keyword of the model's characters (code points
    0 to 255) [search_pages_parallel] raises nothing; the records of one
    document come in ascending page order, page numbers counted from 1;
    each carries the text of its page; and there are as many records as
    the left-to-right scan reports occurrences of the lower-cased
    keyword on the lower-cased pages, whichever branch (pool or loop) is
    taken. *)
Theorem search_pages_order_and_count (pdf_file : str) (pages : list str)
    (keyword : str) :
  exists recs,
    search_pages_parallel file_path_cache pdf_file pages keyword = Some recs /\
    StronglySorted le (map page_number recs) /\
    (forall r, In r recs ->
       file r = pdf_file /\
       1 <= page_number r <= length pages /\
       nth_error pages (page_number r - 1) = Some (full_text r)) /\
    length recs
    = list_sum (map (fun page =>
                       length (finditer (lower keyword) (lower page)))
                    pages).
Proof.
  destruct (pages_from pdf_file keyword pages 0)
    as (recs & Hr & Hs & _ & Hlen).
  exists recs.
  assert (E : search_pages_parallel file_path_cache pdf_file pages keyword
              = Some recs).
  { unfold search_pages_parallel, enumerate.
    now destruct (20 <? length pages). }
  split; [exact E|]. split; [exact Hs|]. split; [|exact Hlen].
  intros r Hin.
  destruct (search_pages_parallel_spec file_path_cache pdf_file pages keyword)
    as (recs' & E' & Hmem).
  rewrite E in E'. injection E' as <-.
  apply Hmem in Hin as (i & page & contexts & c & Hn & _ & _ & _ & ->).
  simpl. split; [reflexivity|].
  assert (Hi : i < length pages) by (apply nth_error_Some; congruence).
  split; [lia|]. now replace (i + 1 - 1) with i by lia.
Qed.

End PageRecords.

(* ================================================================== *)
(** ** The markup *)

Section Markup.

Lemma no_match_no_occurrence (K c : str) :
  highlight_matches K c = [] -> forall q, occurs_at K c q = false.
Proof.
  intros E q. destruct (occurs_at K c q) eqn:Hq; [|reflexivity].
  exfalso. unfold occurs_at, match_at in Hq.
  apply andb_true_iff in Hq as [_ Hq].
  apply startswith_iff in Hq as [r Er].
  apply (finditer_from_nonempty (lower K) (lower c) 0); [|exact E].
  apply str_in_iff. exists (firstn q (lower c)), r.
  rewrite <- Er. symmetry. apply firstn_skipn.
Qed.

Lemma occurs_at_prefix (K a b : str) (q : nat) :
  occurs_at K a q = true -> occurs_at K (a ++ b) q = true.
Proof.
  unfold occurs_at, match_at. intros H.
  apply andb_true_iff in H as [Hq H]. apply Nat.leb_le in Hq.
  apply andb_true_iff. rewrite lower_app. split.
  - apply Nat.leb_le. rewrite length_app. lia.
  - rewrite skipn_app. replace (q - length (lower a)) with 0 by lia.
    cbn [skipn]. apply startswith_iff in H as [r ->].
    rewrite <- app_assoc. apply startswith_app.
Qed.

Lemma matched_text (K c : str) (q : nat) :
  occurs_at K c q = true ->
  lower (firstn (length K) (skipn q c)) = lower K.
Proof.
  unfold occurs_at, match_at. intros H.
  apply andb_true_iff in H as [_ H]. apply startswith_iff in H as [r E].
  unfold lower at 1. rewrite <- firstn_map, <- skipn_map. fold (lower c).
  rewrite E, <- (lower_length K), firstn_app, Nat.sub_diag, firstn_all.
  cbn [firstn]. apply app_nil_r.
Qed.

Lemma highlight_pieces (K : str) : K <> [] -> forall n c,
  length c <= n ->
  exists pieces tail,
    c = plain_text pieces tail /\
    highlight K c = marked_text pieces tail /\
    Forall (leftmost_copy K) pieces /\
    (forall q, occurs_at K tail q = false) /\
    length pieces = length (highlight_matches K c).
Proof.
  intros HK. induction n as [|n IH]; intros c Hlen.
  - destruct c; [|simpl in Hlen; lia].
    assert (Hk : lower K <> []) by (destruct K; [congruence | discriminate]).
    exists [], [].
    split; [reflexivity|]. split; [|split; [constructor|split]].
    + unfold highlight, highlight_matches, finditer. cbn.
      now destruct (lower K).
    + intros q. unfold occurs_at. now apply match_at_nil.
    + unfold highlight_matches, finditer. cbn.
      destruct (lower K); [congruence | reflexivity].
  - destruct (highlight_matches K c) as [|m ms] eqn:Ems.
    + exists [], c. unfold highlight. rewrite Ems.
      split; [reflexivity|]. split; [reflexivity|].
      split; [constructor|]. split; [|reflexivity].
      now apply no_match_no_occurrence.
    + assert (Hm : In m (highlight_matches K c)) by (rewrite Ems; now left).
      pose proof (highlight_split K c m HK Hm) as Hw.
      pose proof (highlight_matches_split K c m HK Hm) as Hs.
      pose proof (finditer_sound _ _ _ Hm) as Hocc.
      pose proof (match_at_bound _ _ _ Hocc) as Hb.
      rewrite !lower_length in Hb.
      assert (Hpos : 0 < length K) by (destruct K; [congruence|simpl; lia]).
      assert (Hg : highlight_matches K (firstn m c) = []).
      { destruct (highlight_matches K (firstn m c)) as [|x xs] eqn:Ex;
          [reflexivity|].
        exfalso. rewrite Ems in Hs. cbn [app] in Hs. injection Hs as Ex' _.
        assert (Hx : In x (highlight_matches K (firstn m c)))
          by (rewrite Ex; now left).
        apply finditer_sound, match_at_bound in Hx.
        rewrite !lower_length, length_firstn in Hx. lia. }
      rewrite Hg in Hs. cbn [app] in Hs.
      destruct (IH (skipn (m + length K) c)) as (pieces & tail & Ep & Eh & Hf
                                                 & Ht & Hn).
      { rewrite length_skipn. lia. }
      exists ((firstn m c, firstn (length K) (skipn m c)) :: pieces), tail.
      split; [|split; [|split; [|split]]].
      * unfold plain_text in *. cbn [map concat fst snd].
        rewrite <- !app_assoc, <- Ep.
        rewrite <- (firstn_skipn m c) at 1. f_equal.
        rewrite <- (firstn_skipn (length K) (skipn m c)) at 1. f_equal.
        rewrite skipn_skipn. f_equal. lia.
      * unfold wrapped_at in Hw. rewrite Hw.
        unfold marked_text in *. cbn [map concat fst snd].
        rewrite <- !app_assoc, <- Eh.
        unfold highlight at 1. now rewrite Hg.
      * constructor; [|exact Hf]. split; cbn [fst snd].
        -- now apply matched_text.
        -- intros q Hq. rewrite length_firstn in Hq.
           destruct (occurs_at K (firstn m c ++ firstn (length K) (skipn m c))
                       q) eqn:Eo; [|reflexivity].
           exfalso.
           apply (occurs_at_prefix _ _ (skipn (m + length K) c)) in Eo.
           replace ((firstn m c ++ firstn (length K) (skipn m c))
                    ++ skipn (m + length K) c) with c in Eo.
           2:{ rewrite <- app_assoc.
               rewrite <- (firstn_skipn m c) at 1. f_equal.
               rewrite <- (firstn_skipn (length K) (skipn m c)) at 1. f_equal.
               rewrite skipn_skipn. f_equal. lia. }
           destruct (highlight_matches_greedy K c HK) as [Hsorted Hiff].
           assert (Hin : In q (highlight_matches K c)).
           { apply Hiff. split; [exact Eo|].
             intros q' Hq' Hlt. exfalso. rewrite Ems in Hq', Hsorted.
             destruct Hq' as [<-|Hq']; [lia|].
             apply StronglySorted_inv in Hsorted as [_ Hall].
             rewrite Forall_forall in Hall. specialize (Hall q' Hq'). lia. }
           rewrite Ems in Hin, Hsorted.
           destruct Hin as [<-|Hin]; [lia|].
           apply StronglySorted_inv in Hsorted as [_ Hall].
           rewrite Forall_forall in Hall. specialize (Hall q Hin). lia.
      * exact Ht.
      * cbn [length]. rewrite Hn. rewrite Ems in Hs.
        injection Hs as ->. now rewrite length_map.
Qed.

(** X6. Highlighting only inserts markup, around the copies of the
    keyword found from left to right: a text is a sequence of pieces,
    each a stretch without an earlier occurrence followed by the
    leftmost occurrence of the keyword (in the case of the text), and a
    tail without occurrence; the highlighted text is the same sequence
    with every such occurrence between the opening and the closing tag,
    and nothing else changed. *)
Theorem highlight_inserts_markup (keyword context : str) :
  keyword <> [] ->
  exists pieces tail,
    context = plain_text pieces tail /\
    highlight keyword context = marked_text pieces tail /\
    Forall (leftmost_copy keyword) pieces /\
    (forall q, occurs_at keyword tail q = false) /\
    length pieces = length (highlight_matches keyword context).
Proof.
  intros HK. exact (highlight_pieces keyword HK (length context) context
                      (Nat.le_refl _)).
Qed.

End Markup.

Lemma highlight_inserts_markup_witness :
  exists pieces tail,
    lit "a FOX, a fox" = plain_text pieces tail /\
    highlight (lit "fox") (lit "a FOX, a fox") = marked_text pieces tail /\
    Forall (leftmost_copy (lit "fox")) pieces /\
    (forall q, occurs_at (lit "fox") tail q = false) /\
    length pieces = length (highlight_matches (lit "fox") (lit "a FOX, a fox")).
Proof.
  apply (highlight_inserts_markup (lit "fox") (lit "a FOX, a fox")).
  discriminate.
Defined.

(* ================================================================== *)
(** ** The views of the results *)

Section Views.

Implicit Types (g : PyDict.dict (list match_record)) (r : match_record).

Lemma all_results_set (k : str) (l x : list match_record) g :
  PyDict.get k g = Some l ->
  Permutation (all_results (PyDict.set k (l ++ x) g)) (all_results g ++ x).
Proof.
  unfold all_results.
  induction g as [|[k' v'] g IH]; simpl; [discriminate|].
  destruct (str_eq_dec k k') as [->|Hk]; simpl.
  - intros [= ->]. rewrite <- !app_assoc. apply Permutation_app_head.
    apply Permutation_app_comm.
  - intros H. rewrite <- app_assoc. apply Permutation_app_head. now apply IH.
Qed.

Lemma all_results_append g r :
  Permutation (all_results (append_result g r)) (all_results g ++ [r]).
Proof.
  unfold append_result. destruct (PyDict.get (file r) g) as [l|] eqn:E.
  - now apply all_results_set.
  - rewrite set_new by assumption. unfold all_results.
    rewrite flat_map_app. reflexivity.
Qed.

Lemma all_results_fold (rs : list match_record) : forall g,
  Permutation (all_results (fold_left append_result rs g))
              (all_results g ++ rs).
Proof.
  induction rs as [|r rs IH]; intros g; simpl.
  - now rewrite app_nil_r.
  - rewrite IH, all_results_append, <- app_assoc. reflexivity.
Qed.

Lemma all_results_length g :
  length (all_results g) = list_sum (map group_size g).
Proof.
  unfold all_results. induction g as [|[k v] g IH]; simpl; [reflexivity|].
  rewrite length_app, IH. reflexivity.
Qed.

(** X7. Grouping loses nothing and invents nothing: the groups laid end
    to end, as the linear view does, are a rearrangement of the records
    that were grouped; the group sizes add up to the number of records;
    every record lies in the group of its own file; and no group is
    empty. *)
Theorem grouping_keeps_records (results : list match_record) :
  let grouped := group_results_by_file results in
  Permutation (all_results grouped) results /\
  list_sum (map group_size grouped) = length results /\
  (forall f l, In (f, l) grouped ->
     l <> [] /\ forall r, In r l -> file r = f).
Proof.
  simpl. rewrite group_results_sorted.
  assert (HP : Permutation (all_results
                              (sorted_by_len_desc (file_groups results)))
                           results).
  { unfold all_results at 1.
    rewrite <- (sorted_by_len_desc_perm (file_groups results)).
    apply (all_results_fold results []). }
  split; [exact HP|]. split.
  - rewrite <- all_results_length. now apply Permutation_length.
  - intros f l Hin.
    apply (Permutation_in _ (Permutation_sym
             (sorted_by_len_desc_perm (file_groups results)))) in Hin.
    apply In_get in Hin; [|apply wf_file_groups].
    rewrite get_file_groups in Hin.
    destruct (records_of f results) as [|r0 l0] eqn:E; [discriminate|].
    injection Hin as <-. split; [discriminate|].
    intros r Hr. rewrite <- E in Hr. unfold records_of in Hr.
    apply filter_In in Hr as [_ Hr]. now apply str_eqb_eq.
Qed.

(** *** Pagination *)

Lemma firstn_add (A : Type) (a b : nat) : forall l : list A,
  firstn (a + b) l = firstn a l ++ firstn b (skipn a l).
Proof.
  induction a as [|a IH]; intros l; simpl; [reflexivity|].
  destruct l as [|x l]; simpl; [now rewrite firstn_nil | now rewrite IH].
Qed.

Lemma chunks_concat (A : Type) (c m : nat) (l : list A) :
  concat (map (fun k => firstn c (skipn (c * k) l)) (seq 0 m))
  = firstn (c * m) l.
Proof.
  induction m as [|m IH]; [now rewrite Nat.mul_0_r|].
  rewrite seq_S, map_app, concat_app, IH. simpl.
  rewrite app_nil_r, <- firstn_add. f_equal. lia.
Qed.

Lemma page_is_chunk (all : list match_record) (k : nat) :
  20 * k < length all ->
  page_of_results all (Z.of_nat k + 1) = firstn 20 (skipn (20 * k) all).
Proof.
  intros Hk. unfold page_of_results, end_idx, start_idx, results_per_page.
  replace (Z.to_nat ((Z.of_nat k + 1 - 1) * 20)) with (20 * k) by lia.
  set (rest := skipn (20 * k) all).
  assert (Hrest : length rest = length all - 20 * k)
    by (unfold rest; apply length_skipn).
  destruct (Nat.le_gt_cases (20 * k + 20) (length all)) as [Hfull|Hpart].
  - f_equal. lia.
  - replace (Z.to_nat _) with (length rest) by lia.
    rewrite firstn_all. symmetry. apply firstn_all2. lia.
Qed.

Lemma total_pages_nat (n : nat) :
  1 <= n ->
  exists m, Z.to_nat (total_pages n) = m /\ total_pages n = Z.of_nat m /\
            n <= 20 * m /\ 20 * (m - 1) < n /\ 1 <= m.
Proof.
  intros Hn. exists (Z.to_nat (total_pages n)).
  unfold total_pages, results_per_page.
  pose proof (Z.div_mod (Z.of_nat n - 1) 20 ltac:(lia)) as Hdm.
  pose proof (Z.mod_pos_bound (Z.of_nat n - 1) 20 ltac:(lia)) as Hmod.
  repeat split; lia.
Qed.

(** X8. The pages of the linear view split the results: for a non-empty
    list there is at least one page, every page that can be selected
    shows between 1 and 20 results, and the pages in order, one after
    the other, are the whole list - no result is skipped or shown
    twice. *)
Theorem pagination_partitions (all : list match_record) :
  all <> [] ->
  (1 <= total_pages (length all))%Z /\
  (forall p, In p (page_numbers (length all)) ->
     (1 <= p <= total_pages (length all))%Z /\
     1 <= length (page_of_results all p) <= 20) /\
  concat (map (page_of_results all) (page_numbers (length all))) = all.
Proof.
  intros Hne.
  assert (Hn : 1 <= length all) by (destruct all; [congruence | simpl; lia]).
  destruct (total_pages_nat (length all) Hn) as (m & Em & Ez & Hup & Hlow & Hm).
  unfold page_numbers. rewrite Em.
  split; [lia|]. split.
  - intros p Hp. apply in_map_iff in Hp as (k & <- & Hk).
    apply in_seq in Hk. split; [lia|].
    rewrite page_is_chunk by lia.
    rewrite length_firstn, length_skipn. lia.
  - rewrite map_map.
    rewrite (map_ext_in _ (fun k => firstn 20 (skipn (20 * k) all))).
    + rewrite chunks_concat. apply firstn_all2. lia.
    + intros k Hk. apply in_seq in Hk. apply page_is_chunk. lia.
Qed.

End Views.

Lemma pagination_partitions_witness :
  concat (map (page_of_results (hits (lit "A") 45))
              (page_numbers (length (hits (lit "A") 45))))
  = hits (lit "A") 45.
Proof.
  apply (pagination_partitions (hits (lit "A") 45)).
  discriminate.
Defined.

(* ================================================================== *)
(** ** What a batch writes *)

Section BatchWrites.

Variable w : world.

#[local] Abbreviation bn := OsPath.basename.

Lemma keys_complete_task (k : nat) (c : pdf_cache_t) (p n : str) :
  In n (PyDict.keys (complete_task w k c p)) <->
  n = bn p \/ In n (PyDict.keys c).
Proof.
  unfold complete_task.
  destruct (get_file_modification_time w p) as [m|];
    [|apply In_keys_set].
  destruct (PyDict.get METADATA (PyDict.set (bn p) _ c)) as [[l|md]|] eqn:E;
    try apply In_keys_set.
  rewrite In_keys_set, In_keys_set. split; [|tauto].
  intros [->|H]; [|exact H].
  apply get_Some_keys in E. now apply In_keys_set in E.
Qed.

Lemma keys_complete_all (ps : list str) : forall k c n,
  In n (PyDict.keys (complete_all w k ps c)) <->
  In n (map bn ps) \/ In n (PyDict.keys c).
Proof.
  induction ps as [|p ps IH]; intros k c n; simpl; [tauto|].
  rewrite IH, keys_complete_task. intuition congruence.
Qed.

(** X9. A batch never removes an entry and keeps the keys of the store
    distinct: after [process_pdfs_batch] every key of the store is still
    a key, every file of the batch has its name as a key, and the only
    other key that can appear is the reserved one. *)
Theorem batch_keeps_entries (completed : list str) (pdf_cache : pdf_cache_t) :
  PyDict.wf pdf_cache ->
  let after := process_pdfs_batch w completed pdf_cache in
  PyDict.wf after /\
  (forall n, In n (PyDict.keys pdf_cache) -> In n (PyDict.keys after)) /\
  (forall p, In p completed -> In (bn p) (PyDict.keys after)) /\
  (forall n, In n (PyDict.keys after) ->
     In n (PyDict.keys pdf_cache) \/ n = METADATA \/ In n (map bn completed)).
Proof.
  intros Hwf after. split; [now apply process_pdfs_batch_wf|].
  unfold after. destruct completed as [|p ps]; [simpl; tauto|].
  unfold process_pdfs_batch.
  assert (H0 : forall n,
            In n (PyDict.keys (if PyDict.contains METADATA pdf_cache
                               then pdf_cache
                               else PyDict.set METADATA (Metadata []) pdf_cache))
            <-> (In n (PyDict.keys pdf_cache) \/
                 (n = METADATA /\ PyDict.contains METADATA pdf_cache = false))).
  { intros n. destruct (PyDict.contains METADATA pdf_cache).
    - intuition discriminate.
    - rewrite In_keys_set. tauto. }
  split; [|split].
  - intros n Hn. apply keys_complete_all. right. apply H0. now left.
  - intros q Hq. apply keys_complete_all. left. now apply in_map.
  - intros n Hn. apply keys_complete_all in Hn as [Hn|Hn]; [tauto|].
    apply H0 in Hn. tauto.
Qed.

Lemma complete_all_unreadable (ps : list str) : forall k c p,
  In p ps -> NoDup (map bn ps) -> ~ In METADATA (map bn ps) -> typed c ->
  getmtime w p = None ->
  mtime_view (complete_all w k ps c) (bn p) = mtime_view c (bn p).
Proof.
  induction ps as [|x l IH]; intros k c p Hin Hnd Hm T Hnone; [contradiction|].
  simpl in *. inversion Hnd as [|? ? Hx Hnd']; subst.
  assert (Hxm : bn x <> METADATA) by tauto.
  destruct (in_dec str_eq_dec p l) as [Hl|Hl].
  - rewrite IH; try tauto; [|now apply task_typed].
    rewrite task_mtime_view by assumption.
    destruct (str_eq_dec (bn p) (bn x)) as [E|]; [|reflexivity].
    exfalso. apply Hx. rewrite <- E. now apply in_map.
  - destruct Hin as [->|Hin]; [|contradiction].
    unfold mtime_view at 1.
    rewrite (proj2 (complete_all_frame w l (S k) (complete_task w k c p)
                      (bn p) ltac:(tauto) Hx)).
    fold (mtime_view (complete_task w k c p) (bn p)).
    rewrite task_mtime_view by assumption.
    destruct (str_eq_dec (bn p) (bn p)); [|congruence].
    now rewrite Hnone.
Qed.

(** X10. After a batch of files with pairwise distinct names, the entry
    of every file of the batch is the page list that its extraction
    returned, and the modification time recorded for it is the live one:
    the metadata tells when the cached text was captured.  A file whose
    modification time cannot be read keeps the record it had. *)
Theorem batch_records_results (completed : list str)
    (pdf_cache : pdf_cache_t) (md0 : PyDict.dict meta_record) (p : str) :
  In p completed ->
  NoDup (map bn completed) -> ~ In METADATA (map bn completed) ->
  cache_metadata_of pdf_cache = Some md0 ->
  let after := process_pdfs_batch w completed pdf_cache in
  PyDict.get (bn p) after = Some (Pages (extract_pdf_text_pdfplumber w p)) /\
  (forall m, getmtime w p = Some m ->
     mtime_view after (bn p) = Some (Some m)) /\
  (getmtime w p = None ->
     mtime_view after (bn p) = mtime_view pdf_cache (bn p)).
Proof.
  intros Hin Hnd Hm Hmd after.
  destruct (process_pdfs_batch_self w completed pdf_cache md0 p Hin Hnd Hm Hmd)
    as (T & Hget & Hview).
  split; [exact Hget|]. split; [exact Hview|].
  intros Hnone. unfold after.
  destruct completed as [|q ps]; [contradiction|].
  unfold process_pdfs_batch.
  rewrite complete_all_unreadable; try assumption.
  - unfold mtime_view.
    now rewrite (proj2 (batch_start_frame pdf_cache (bn p))).
  - eapply batch_start_typed; eauto.
Qed.

End BatchWrites.

Lemma batch_keeps_entries_witness :
  PyDict.wf (process_pdfs_batch deleted_world [lit "/pdf/new.pdf"] old_cached).
Proof.
  apply (batch_keeps_entries deleted_world [lit "/pdf/new.pdf"] old_cached).
  unfold PyDict.wf.
  destruct (NoDup_str_dec (PyDict.keys old_cached)) as [H|H] eqn:E;
    [exact H | discriminate E].
Defined.

Lemma batch_records_results_witness :
  PyDict.get (lit "new.pdf")
    (process_pdfs_batch deleted_world [lit "/pdf/new.pdf"] old_cached)
  = Some (Pages [lit "brand new text"]).
Proof.
  apply (batch_records_results deleted_world [lit "/pdf/new.pdf"] old_cached
           [(lit "old.pdf",
             {| mtime := Some 50%Z;
                processed_at := Some (lit "2023-01-01T10:00:00") |})]
           (lit "/pdf/new.pdf")).
  - now left.
  - repeat constructor. simpl. tauto.
  - simpl. intros [H|[]]. discriminate H.
  - reflexivity.
Defined.

(* ================================================================== *)
(** ** The indexing pass *)

Section IndexingPass.

Variable w : world.

#[local] Abbreviation bn := OsPath.basename.

Lemma NoDup_map_inj (A B : Type) (f : A -> B) (l : list A) (x y : A) :
  NoDup (map f l) -> In x l -> In y l -> f x = f y -> x = y.
Proof.
  induction l as [|a l IH]; [contradiction|].
  simpl. intros Hnd Hx Hy E. inversion Hnd as [|? ? Ha Hnd']; subst.
  destruct Hx as [->|Hx], Hy as [->|Hy]; auto.
  - exfalso. apply Ha. rewrite E. now apply in_map.
  - exfalso. apply Ha. rewrite <- E. now apply in_map.
Qed.

(** A file completed more than once is written more than once, each
    time with the same pages and modification time. *)
Lemma complete_all_self_dup (ps : list str) : forall k c p,
  In p ps ->
  (forall x y, In x ps -> In y ps -> bn x = bn y -> x = y) ->
  ~ In METADATA (map bn ps) -> typed c ->
  PyDict.get (bn p) (complete_all w k ps c) =
    Some (Pages (extract_pdf_text_pdfplumber w p)) /\
  (forall m, getmtime w p = Some m ->
     mtime_view (complete_all w k ps c) (bn p) = Some (Some m)).
Proof.
  induction ps as [|q ps IH]; intros k c p Hin Hinj Hm T; [contradiction|].
  simpl in Hm.
  assert (Hqm : bn q <> METADATA) by tauto.
  assert (Hpm : bn p <> METADATA).
  { destruct Hin as [->|Hin]; [assumption|].
    intros E. apply Hm. right. rewrite <- E. now apply in_map. }
  cbn [complete_all].
  destruct (in_dec str_eq_dec p ps) as [Hps|Hps].
  - apply IH; try assumption; [|tauto | now apply task_typed].
    intros x y Hx Hy. apply Hinj; now right.
  - destruct Hin as [->|Hin]; [|contradiction].
    assert (Hnb : ~ In (bn p) (map bn ps)).
    { intros Hb. apply in_map_iff in Hb as (y & E & Hy). apply Hps.
      rewrite <- (Hinj y p); [assumption | now right | now left | exact E]. }
    destruct (complete_all_frame w ps (S k) (complete_task w k c p) (bn p))
      as [Fp Fm]; [tauto | assumption |].
    split.
    + rewrite Fp by assumption. rewrite task_pages_view by assumption.
      destruct (str_eq_dec (bn p) (bn p)); congruence.
    + intros m Hmt. unfold mtime_view. rewrite Fm.
      now rewrite (task_meta_self w k c p m).
Qed.

Lemma process_pdfs_batch_self_dup (completed : list str) (c : pdf_cache_t)
    (md0 : PyDict.dict meta_record) (p : str) :
  In p completed ->
  (forall x y, In x completed -> In y completed -> bn x = bn y -> x = y) ->
  ~ In METADATA (map bn completed) ->
  cache_metadata_of c = Some md0 ->
  PyDict.get (bn p) (process_pdfs_batch w completed c) =
    Some (Pages (extract_pdf_text_pdfplumber w p)) /\
  (forall m, getmtime w p = Some m ->
     mtime_view (process_pdfs_batch w completed c) (bn p) = Some (Some m)).
Proof.
  intros Hin Hinj Hm Hmd.
  destruct completed as [|q ps]; [contradiction|].
  unfold process_pdfs_batch.
  apply complete_all_self_dup; try assumption.
  eapply batch_start_typed; eauto.
Qed.

Lemma meta_get_of_metadata (c : pdf_cache_t) (md : PyDict.dict meta_record)
    (n : str) :
  cache_metadata_of c = Some md -> meta_get n c = PyDict.get n md.
Proof.
  unfold cache_metadata_of, meta_get.
  destruct (PyDict.get METADATA c) as [[|md']|]; intros H;
    [discriminate H | | ]; injection H as <-; reflexivity.
Qed.

Lemma process_keeps_metadata (ps : list str) (c : pdf_cache_t)
    (md0 : PyDict.dict meta_record) :
  cache_metadata_of c = Some md0 -> ~ In METADATA (map bn ps) ->
  exists md1, cache_metadata_of (process_pdfs_batch w ps c) = Some md1.
Proof.
  intros Hmd Hm. destruct ps as [|p ps]; [now exists md0|].
  unfold process_pdfs_batch.
  destruct (typed_metadata (complete_all w 0 (p :: ps)
              (if PyDict.contains METADATA c then c
               else PyDict.set METADATA (Metadata []) c)))
    as (md1 & E & _).
  - apply complete_all_typed; [assumption|]. eapply batch_start_typed; eauto.
  - now exists md1.
Qed.

Lemma cached_mtime_view (c : pdf_cache_t) (md : PyDict.dict meta_record)
    (n : str) :
  cache_metadata_of c = Some md ->
  cached_mtime_of md n =
  match mtime_view c n with
  | Some (Some t) => t
  | _ => 0%Z
  end.
Proof.
  intros H. unfold cached_mtime_of, mtime_view.
  rewrite (meta_get_of_metadata c md n H).
  destruct (PyDict.get n md) as [[[t|] pa]|]; reflexivity.
Qed.

Lemma no_member_nil (A : Type) (l : list A) :
  (forall x, ~ In x l) -> l = [].
Proof.
  destruct l as [|x l]; [reflexivity|]. intros H. exfalso.
  apply (H x). now left.
Qed.

(** X11. An indexing pass leaves nothing to do: when the files have
    pairwise distinct names and their modification times can be read,
    and the batch completes, in any order, the files that [main]
    selected (the updated and the new ones, through [list(set(...))]),
    the same selection on the store after [process_pdfs_batch] is
    empty - no file is new and none is stale. *)
Theorem second_pass_selects_nothing
    (pdf_files selected todo completed : list str)
    (pdf_cache : pdf_cache_t) (md0 : PyDict.dict meta_record) :
  NoDup (map bn pdf_files) -> ~ In METADATA (map bn pdf_files) ->
  (forall f, In f pdf_files -> getmtime w f <> None) ->
  cache_metadata_of pdf_cache = Some md0 ->
  files_to_process w pdf_files pdf_cache = Some selected ->
  list_set selected todo ->
  Permutation todo completed ->
  files_to_process w pdf_files (process_pdfs_batch w completed pdf_cache)
  = Some [].
Proof.
  intros Hnd Hm Hstat Hmd Htodo [_ Hset] Hperm.
  assert (Hsame : forall p, In p completed <-> In p selected).
  { intros p. rewrite <- Hset. split; apply Permutation_in;
      [now apply Permutation_sym | assumption]. }
  clear Hperm Hset.
  set (after := process_pdfs_batch w completed pdf_cache).
  unfold files_to_process in Htodo.
  destruct (check_for_updates_loop_spec w md0 pdf_files Hstat)
    as (upd0 & Eupd0 & Hiff0).
  unfold check_for_updates in Htodo. rewrite Hmd, Eupd0 in Htodo.
  injection Htodo as <-.
  assert (Hincl : incl completed pdf_files).
  { intros p Hp. apply Hsame in Hp. apply in_app_or in Hp as [Hp|Hp].
    - now apply Hiff0 in Hp.
    - unfold new_files in Hp. now apply filter_In in Hp. }
  assert (Hinj : forall x y, In x completed -> In y completed ->
                             bn x = bn y -> x = y).
  { intros x y Hx Hy. apply (NoDup_map_inj _ _ bn pdf_files x y Hnd); auto. }
  assert (Hmc : ~ In METADATA (map bn completed)).
  { intros Hin. apply Hm. apply in_map_iff in Hin as (p & E & Hp).
    apply in_map_iff. exists p. auto. }
  assert (Hout : forall F, In F pdf_files -> ~ In F completed ->
                           ~ In (bn F) (map bn completed)).
  { intros F HF HnF Hin. apply in_map_iff in Hin as (p & E & Hp).
    apply HnF. rewrite <- (NoDup_map_inj _ _ bn pdf_files p F Hnd); auto. }
  destruct (process_keeps_metadata completed pdf_cache md0 Hmd Hmc)
    as (md1 & Hmd1).
  fold after in Hmd1.
  destruct (check_for_updates_loop_spec w md1 pdf_files Hstat)
    as (upd1 & Eupd1 & Hiff1).
  unfold files_to_process, check_for_updates. rewrite Hmd1, Eupd1.
  assert (Hupd : upd1 = []).
  { apply no_member_nil. intros F HF.
    apply Hiff1 in HF as (HFf & m & HmF & Hlt).
    rewrite (cached_mtime_view after md1 _ Hmd1) in Hlt.
    destruct (in_dec str_eq_dec F completed) as [Hc|Hc].
    - destruct (process_pdfs_batch_self_dup completed pdf_cache md0 F
                  Hc Hinj Hmc Hmd) as (_ & Hview).
      fold after in Hview. rewrite (Hview m HmF) in Hlt. lia.
    - assert (Hfr : mtime_view after (bn F) = mtime_view pdf_cache (bn F)).
      { unfold mtime_view, after.
        now rewrite (proj2 (process_pdfs_batch_frame w completed pdf_cache
                              (bn F) Hmc (Hout F HFf Hc))). }
      rewrite Hfr, <- (cached_mtime_view pdf_cache md0 _ Hmd) in Hlt.
      apply Hc, Hsame, in_or_app. left. apply Hiff0. split; [assumption|].
      now exists m. }
  assert (Hnew : new_files pdf_files after = []).
  { apply no_member_nil. intros F HF. unfold new_files in HF.
    apply filter_In in HF as [HFf Hcont]. apply negb_true_iff in Hcont.
    assert (HFm : bn F <> METADATA).
    { intros E. apply Hm. rewrite <- E. now apply in_map. }
    destruct (in_dec str_eq_dec F completed) as [Hc|Hc].
    - destruct (process_pdfs_batch_self_dup completed pdf_cache md0 F
                  Hc Hinj Hmc Hmd) as (Hget & _).
      fold after in Hget. unfold PyDict.contains in Hcont.
      now rewrite Hget in Hcont.
    - assert (Hfr : PyDict.get (bn F) after = PyDict.get (bn F) pdf_cache).
      { unfold after.
        now apply (proj1 (process_pdfs_batch_frame w completed pdf_cache
                            (bn F) Hmc (Hout F HFf Hc))). }
      apply Hc, Hsame, in_or_app. right. unfold new_files.
      apply filter_In. split; [assumption|]. apply negb_true_iff.
      unfold PyDict.contains in *. now rewrite <- Hfr. }
  now rewrite Hupd, Hnew.
Qed.

End IndexingPass.

Lemma second_pass_selects_nothing_witness :
  files_to_process two_roots_world [lit "/a/x.pdf"; lit "/a/y.pdf"]
    (process_pdfs_batch two_roots_world [lit "/a/y.pdf"] x_cached)
  = Some [].
Proof.
  apply (second_pass_selects_nothing two_roots_world
           [lit "/a/x.pdf"; lit "/a/y.pdf"] [lit "/a/y.pdf"; lit "/a/y.pdf"]
           [lit "/a/y.pdf"] [lit "/a/y.pdf"] x_cached
           [(lit "x.pdf",
             {| mtime := Some 100%Z;
                processed_at := Some (lit "2024-01-01T10:00:00") |})]).
  - repeat constructor; simpl; [intros [H|[]]; discriminate H | tauto].
  - simpl. intros [H|[H|[]]]; discriminate H.
  - intros f _. discriminate.
  - reflexivity.
  - reflexivity.
  - split; [repeat constructor; simpl; tauto | intros x; simpl; tauto].
  - apply Permutation_refl.
Defined.

(* ================================================================== *)
(** ** The file path cache *)

Section PathCache.

Variable w : world.

#[local] Abbreviation bn := OsPath.basename.

Lemma existsb_str_eqb (f : str) (names : list str) :
  existsb (str_eqb f) names = true <-> In f names.
Proof.
  rewrite existsb_exists. split.
  - intros (x & Hx & E). apply str_eqb_eq in E. now subst.
  - intros H. exists f. split; [assumption | apply str_eqb_refl].
Qed.

Lemma get_add_listing (pdf_dir f : str) (names : list str) :
  forall cache,
    PyDict.get f (add_listing w pdf_dir names cache) =
    if is_pdf f && existsb (str_eqb f) names
    then Some (abspath w (OsPath.join pdf_dir f))
    else PyDict.get f cache.
Proof.
  unfold add_listing.
  induction names as [|n names IH]; intros cache; cbn [fold_left existsb].
  - now rewrite andb_false_r.
  - rewrite IH.
    destruct (is_pdf f) eqn:Ef; cbn [andb].
    + destruct (existsb (str_eqb f) names); [now rewrite orb_true_r|].
      rewrite orb_false_r.
      destruct (str_eqb f n) eqn:E.
      * apply str_eqb_eq in E. subst n. rewrite Ef. apply get_set_same.
      * apply str_eqb_neq in E.
        destruct (is_pdf n); [now apply get_set_other | reflexivity].
    + destruct (is_pdf n) eqn:En; [|reflexivity].
      apply get_set_other. intros ->. congruence.
Qed.

Lemma find_app_last (A : Type) (P : A -> bool) (l : list A) (x : A) :
  find P (l ++ [x]) =
  match find P l with
  | Some y => Some y
  | None => if P x then Some x else None
  end.
Proof.
  induction l as [|a l IH]; simpl; [reflexivity|].
  destruct (P a); [reflexivity | exact IH].
Qed.

Lemma get_build_from (f : str) (dirs : list str) : forall cache,
  PyDict.get f
    (fold_left
       (fun cache pdf_dir =>
          match listdir w pdf_dir with
          | DirListing names => add_listing w pdf_dir names cache
          | DirMissing => cache
          | DirDenied => cache
          end) dirs cache) =
  match (if is_pdf f then find (lists_file w f) (rev dirs) else None) with
  | Some d => Some (abspath w (OsPath.join d f))
  | None => PyDict.get f cache
  end.
Proof.
  induction dirs as [|d dirs IH]; intros cache; cbn [fold_left rev].
  - now destruct (is_pdf f).
  - rewrite IH. destruct (is_pdf f) eqn:Ef.
    + rewrite find_app_last.
      destruct (find (lists_file w f) (rev dirs)); [reflexivity|].
      unfold lists_file at 1.
      destruct (listdir w d) as [| |names]; try reflexivity.
      rewrite get_add_listing, Ef. cbn [andb].
      now destruct (existsb (str_eqb f) names).
    + destruct (listdir w d) as [| |names]; try reflexivity.
      rewrite get_add_listing, Ef. reflexivity.
Qed.

(** X12. The path cache resolves a file name to the last configured
    directory whose listing holds it: a name found in several
    directories points into the later one, names that do not end in
    [.pdf] (in any case) have no entry, and directories that are missing
    or cannot be listed contribute nothing. *)
Theorem path_cache_last_directory_wins (filename : str) :
  PyDict.get filename (build_file_path_cache w) =
  if is_pdf filename
  then option_map (fun d => abspath w (OsPath.join d filename))
                  (last_listing_dir w filename)
  else None.
Proof.
  unfold build_file_path_cache, last_listing_dir. rewrite get_build_from.
  destruct (is_pdf filename); [|reflexivity].
  now destruct (find (lists_file w filename) (rev (PDF_DIRECTORIES w))).
Qed.

Hypothesis Hlist : listing_ok w.

Lemma get_all_pdf_files_origin (dirs : list str) : forall files p,
  get_all_pdf_files_in w dirs = Some files -> In p files ->
  exists d names f,
    In d dirs /\ listdir w d = DirListing names /\ In f names /\
    is_pdf f = true /\ p = OsPath.join d f.
Proof.
  induction dirs as [|d0 dirs IH]; intros files p Hf Hp; simpl in Hf.
  - injection Hf as <-. contradiction.
  - destruct (listdir w d0) as [| |names0] eqn:E0; [|discriminate|].
    + destruct (IH files p Hf Hp) as (d & names & f & Hd & H).
      exists d, names, f. split; [now right | exact H].
    + destruct (get_all_pdf_files_in w dirs) as [more|] eqn:Em;
        [|discriminate].
      injection Hf as <-. apply in_app_or in Hp as [Hp|Hp].
      * apply in_map_iff in Hp as (f & <- & Hf).
        apply filter_In in Hf as [Hf Hpdf].
        exists d0, names0, f. repeat split; auto. now left.
      * destruct (IH more p eq_refl Hp) as (d & names & f & Hd & H).
        exists d, names, f. split; [now right | exact H].
Qed.

(** X13. Every file that [get_all_pdf_files] lists can be opened from
    its name: [get_pdf_path] of the name is the path of that name in a
    configured directory whose listing holds it - the last such
    directory, which need not be the directory the file was listed
    from. *)
Theorem listed_files_resolve (files : list str) (p : str) :
  get_all_pdf_files w = Some files -> In p files ->
  exists d,
    last_listing_dir w (bn p) = Some d /\
    In d (PDF_DIRECTORIES w) /\
    lists_file w (bn p) d = true /\
    get_pdf_path (build_file_path_cache w) (bn p) =
      Some (abspath w (OsPath.join d (bn p))).
Proof.
  intros Hf Hp. unfold get_all_pdf_files in Hf.
  destruct (get_all_pdf_files_origin _ _ _ Hf Hp)
    as (d0 & names & f & Hd0 & Hl & Hfn & Hpdf & ->).
  assert (Hns : ~ In OsPath.sep f) by (eapply Hlist; eauto).
  rewrite (basename_join d0 f Hns).
  assert (Hfound : lists_file w f d0 = true).
  { unfold lists_file. rewrite Hl. now apply existsb_str_eqb. }
  destruct (last_listing_dir w f) as [d|] eqn:Elast.
  2:{ unfold last_listing_dir in Elast.
      apply in_rev in Hd0.
      rewrite (find_none _ _ Elast d0 Hd0) in Hfound. discriminate. }
  exists d. split; [reflexivity|].
  unfold last_listing_dir in Elast. pose proof (find_some _ _ Elast) as [Hin Hd].
  apply in_rev in Hin. split; [assumption|]. split; [assumption|].
  assert (Hget : PyDict.get f (build_file_path_cache w) =
                 Some (abspath w (OsPath.join d f))).
  { unfold build_file_path_cache. rewrite get_build_from, Hpdf.
    now rewrite Elast. }
  unfold get_pdf_path. rewrite (basename_no_sep f Hns), Hget.
  now destruct (truthy _).
Qed.

End PathCache.

Lemma listing_ok_two_roots_world : listing_ok two_roots_world.
Proof.
  intros d names f Hl Hf. unfold two_roots_world in Hl. cbn [listdir] in Hl.
  destruct (str_eqb d (lit "/a")).
  - injection Hl as <-. destruct Hf as [<-|[<-|[]]];
      intros H; vm_compute in H; intuition discriminate.
  - destruct (str_eqb d (lit "/b")); [|discriminate Hl].
    injection Hl as <-. destruct Hf as [<-|[]].
    intros H; vm_compute in H; intuition discriminate.
Qed.

Lemma listed_files_resolve_witness :
  exists d,
    last_listing_dir two_roots_world (OsPath.basename (lit "/a/x.pdf"))
      = Some d /\
    In d (PDF_DIRECTORIES two_roots_world) /\
    lists_file two_roots_world (OsPath.basename (lit "/a/x.pdf")) d = true /\
    get_pdf_path (build_file_path_cache two_roots_world)
      (OsPath.basename (lit "/a/x.pdf")) =
      Some (abspath two_roots_world
              (OsPath.join d (OsPath.basename (lit "/a/x.pdf")))).
Proof.
  apply (listed_files_resolve two_roots_world listing_ok_two_roots_world
           [lit "/a/x.pdf"; lit "/a/y.pdf"; lit "/b/x.pdf"]).
  - reflexivity.
  - simpl. now left.
Defined.

(* ================================================================== *)
(** ** The network edition: retries *)

Section NetworkRetry.

#[local] Abbreviation bn := OsPath.basename.

(** X14. [retry_network_operation] makes at most three calls: it stops
    at the first call that returns or that raises something other than
    a network error, and re-raises the network error of the third call.
    Before each retry it sleeps, 2 seconds and then 4, never after the
    last call, and it never falls out of the loop (it never returns
    [None] of its own). *)
Theorem retry_network_operation_behaviour (A : Type)
    (func : nat -> Network.outcome A) :
  exists n,
    n < Network.NETWORK_RETRY_COUNT /\
    (forall j, j < n -> func j = Network.NetworkError) /\
    snd (Network.retry_network_operation func) =
      map (fun k => Network.NETWORK_RETRY_DELAY * 2 ^ k) (seq 0 n) /\
    match fst (Network.retry_network_operation func) with
    | Network.Returned a => func n = Network.Returns a
    | Network.RaisedOther => func n = Network.OtherError
    | Network.RaisedNetwork =>
        n = Network.NETWORK_RETRY_COUNT - 1 /\ func n = Network.NetworkError
    | Network.FellThrough => False
    end.
Proof.
  unfold Network.retry_network_operation, Network.NETWORK_RETRY_COUNT.
  cbn [seq Network.retry_loop].
  destruct (func 0) as [a0| |] eqn:E0; cbn.
  - exists 0. split; [lia|]. split; [intros j Hj; lia|].
    split; [reflexivity | exact E0].
  - destruct (func 1) as [a1| |] eqn:E1; cbn.
    + exists 1. split; [lia|].
      split; [intros [|j] Hj; [exact E0 | lia]|].
      split; [reflexivity | exact E1].
    + assert (Hfail : forall j, j < 2 -> func j = Network.NetworkError).
      { intros [|[|j]] Hj; [exact E0 | exact E1 | lia]. }
      destruct (func 2) as [a2| |] eqn:E2; cbn;
        exists 2; (split; [lia|]); (split; [exact Hfail|]);
        (split; [reflexivity|]); auto.
    + exists 1. split; [lia|].
      split; [intros [|j] Hj; [exact E0 | lia]|].
      split; [reflexivity | exact E1].
  - exists 0. split; [lia|]. split; [intros j Hj; lia|].
    split; [reflexivity | exact E0].
Qed.

Lemma retry_returns (A : Type) (func : nat -> Network.outcome A)
    (k : nat) (a : A) :
  k < Network.NETWORK_RETRY_COUNT -> func k = Network.Returns a ->
  (forall j, j < k -> func j = Network.NetworkError) ->
  fst (Network.retry_network_operation func) = Network.Returned a.
Proof.
  unfold Network.retry_network_operation, Network.NETWORK_RETRY_COUNT.
  intros Hk Hret Hfail. cbn [seq Network.retry_loop].
  destruct k as [|[|[|k]]]; [| | |lia].
  - now rewrite Hret.
  - rewrite (Hfail 0) by lia. cbn. now rewrite Hret.
  - rewrite (Hfail 0) by lia. cbn. rewrite (Hfail 1) by lia. cbn.
    now rewrite Hret.
Qed.

Lemma retry_gives_up (A : Type) (func : nat -> Network.outcome A) :
  (forall k, k < Network.NETWORK_RETRY_COUNT -> func k = Network.NetworkError) ->
  Network.retry_network_operation func = (Network.RaisedNetwork, [2; 4]).
Proof.
  unfold Network.retry_network_operation, Network.NETWORK_RETRY_COUNT.
  intros Hfail. cbn [seq Network.retry_loop].
  rewrite (Hfail 0) by lia. cbn. rewrite (Hfail 1) by lia. cbn.
  rewrite (Hfail 2) by lia. reflexivity.
Qed.

Lemma network_loop_app (sh : Network.share)
    (md : option (PyDict.dict meta_record)) (l1 l2 : list str) :
  Network.check_for_updates_loop sh md (l1 ++ l2) =
  Network.check_for_updates_loop sh md l1 ++
  Network.check_for_updates_loop sh md l2.
Proof.
  induction l1 as [|p l1 IH]; [reflexivity|].
  cbn [app Network.check_for_updates_loop].
  destruct (Network.get_file_modification_time sh p), md;
    try exact IH.
  destruct (Z.ltb _ _); [cbn [app]; now rewrite IH | exact IH].
Qed.

Lemma local_loop_fails (w : world)
    (md : option (PyDict.dict meta_record)) (l1 l2 : list str) (F : str) :
  getmtime w F = None ->
  check_for_updates_loop w md (l1 ++ F :: l2) = None.
Proof.
  intros HF. induction l1 as [|p l1 IH].
  - cbn [app check_for_updates_loop].
    unfold get_file_modification_time. now rewrite HF.
  - cbn [app check_for_updates_loop]. rewrite IH.
    destruct (get_file_modification_time w p), md; reflexivity.
Qed.

(** X15. Where every file's modification time is read within the three
    attempts, the network edition's [check_for_updates] selects exactly
    the files that the local edition selects on a disk that shows the
    same times. *)
Theorem network_check_agrees_with_local (w : world) (sh : Network.share)
    (pdf_files : list str) (pdf_cache : pdf_cache_t)
    (md : PyDict.dict meta_record) :
  cache_metadata_of pdf_cache = Some md ->
  (forall F, In F pdf_files ->
     exists m k, getmtime w F = Some m /\ k < Network.NETWORK_RETRY_COUNT /\
                 sh F k = Network.Returns m /\
                 forall j, j < k -> sh F j = Network.NetworkError) ->
  check_for_updates w pdf_files pdf_cache =
  Some (Network.check_for_updates sh pdf_files pdf_cache).
Proof.
  intros Hmd Hstat.
  unfold check_for_updates, Network.check_for_updates. rewrite Hmd.
  induction pdf_files as [|p rest IH]; [reflexivity|].
  cbn [check_for_updates_loop Network.check_for_updates_loop].
  destruct (Hstat p (or_introl eq_refl)) as (m & k & Hm & Hk & Hret & Hfail).
  unfold get_file_modification_time, Network.get_file_modification_time.
  rewrite Hm, (retry_returns _ (sh p) k m Hk Hret Hfail).
  rewrite IH by (intros F HF; apply Hstat; now right).
  now destruct (Z.ltb _ _).
Qed.

(** X16. A file whose modification time cannot be read: the network
    edition tries three times, sleeping 2 and then 4 seconds, then
    leaves the file out and judges the other files as if it were not
    listed; the local edition's [check_for_updates] fails as a whole
    on such a file. *)
Theorem network_check_skips_unreadable (w : world) (sh : Network.share)
    (before after : list str) (F : str) (pdf_cache : pdf_cache_t) :
  getmtime w F = None ->
  (forall k, k < Network.NETWORK_RETRY_COUNT -> sh F k = Network.NetworkError) ->
  Network.retry_network_operation (sh F) = (Network.RaisedNetwork, [2; 4]) /\
  Network.check_for_updates sh (before ++ F :: after) pdf_cache =
    Network.check_for_updates sh (before ++ after) pdf_cache /\
  check_for_updates w (before ++ F :: after) pdf_cache = None.
Proof.
  intros Hlocal Hfail.
  pose proof (retry_gives_up _ (sh F) Hfail) as Hretry.
  split; [exact Hretry|]. split.
  - unfold Network.check_for_updates. rewrite !network_loop_app.
    f_equal. cbn [Network.check_for_updates_loop].
    unfold Network.get_file_modification_time. rewrite Hretry.
    reflexivity.
  - unfold check_for_updates. now apply local_loop_fails.
Qed.

End NetworkRetry.

Lemma network_check_agrees_with_local_witness :
  check_for_updates two_roots_world [lit "/a/x.pdf"; lit "/a/y.pdf"] x_cached
  = Some (Network.check_for_updates flaky_share
            [lit "/a/x.pdf"; lit "/a/y.pdf"] x_cached).
Proof.
  apply (network_check_agrees_with_local two_roots_world flaky_share
           [lit "/a/x.pdf"; lit "/a/y.pdf"] x_cached
           [(lit "x.pdf",
             {| mtime := Some 100%Z;
                processed_at := Some (lit "2024-01-01T10:00:00") |})]).
  - reflexivity.
  - intros F _. exists 100%Z, 1. split; [reflexivity|].
    split; [unfold Network.NETWORK_RETRY_COUNT; lia|].
    split; [reflexivity|].
    intros [|j] Hj; [reflexivity | lia].
Defined.

Lemma network_check_skips_unreadable_witness :
  Network.retry_network_operation (vanished_share (lit "/pdf/gone.pdf"))
  = (Network.RaisedNetwork, [2; 4]) /\
  Network.check_for_updates vanished_share
    ([lit "/pdf/new.pdf"] ++ lit "/pdf/gone.pdf" :: []) old_cached =
  Network.check_for_updates vanished_share
    ([lit "/pdf/new.pdf"] ++ []) old_cached /\
  check_for_updates vanished_world
    ([lit "/pdf/new.pdf"] ++ lit "/pdf/gone.pdf" :: []) old_cached = None.
Proof.
  apply (network_check_skips_unreadable vanished_world vanished_share
           [lit "/pdf/new.pdf"] [] (lit "/pdf/gone.pdf") old_cached).
  - reflexivity.
  - intros k _. reflexivity.
Defined.
